(** * UnlimitedChatGPTWebAPI: credential store, streamed responses, sessions

    A shallow embedding of [UnlimitedChatGPTWebAPI/data.py] and
    [UnlimitedChatGPTWebAPI/session.py].

    Python objects become records, dictionaries become [gmap]s, exceptions
    become an explicit [result] type, and everything the program asks of the
    outside world (the browser driven through Playwright, the random number
    generator, the wall clock, the cookie file) is answered by an oracle that
    the theorems quantify over. *)

From Stdlib Require Import ZArith QArith Lqa String Ascii List Bool Lia.
From stdpp Require Import base option gmap strings list fin_maps.
Import ListNotations.

Local Open Scope string_scope.

(** ** Python primitives *)

Module Py.

(** The exception classes that occur in the two modules. *)
Inductive exn : Type :=
| PlaywrightError (message : string)
| StreamResponseException (message : string)
| ValueError
| TimeoutError
| StopAsyncIteration
| RuntimeError (message : string)
| RecursionError
| OtherException.

(** A call either returns or raises. *)
Inductive result (A : Type) : Type :=
| Return (a : A)
| Raise (e : exn).
Arguments Return {A} a.
Arguments Raise {A} e.

(** Truth value of a [str], and of a value that is a [str] or [None]. *)
Definition truthy (s : string) : bool :=
  match s with
  | EmptyString => false
  | String _ _ => true
  end.

Definition truthy_opt (o : option string) : bool :=
  match o with
  | Some s => truthy s
  | None => false
  end.

(** [s.split(sep)] for a one-character separator. *)
Fixpoint split (sep : ascii) (s : string) : list string :=
  match s with
  | EmptyString => [EmptyString]
  | String c s' =>
      if Ascii.eqb c sep then EmptyString :: split sep s'
      else match split sep s' with
           | p :: ps => String c p :: ps
           | [] => [String c EmptyString]
           end
  end.

(** [s.startswith(p)], [s.endswith(p)] and [p in s]. *)
Definition startswith (s p : string) : bool := String.prefix p s.

Definition endswith (s p : string) : bool :=
  (String.length p <=? String.length s)%nat
  && String.eqb (String.substring (String.length s - String.length p)
                                  (String.length p) s) p.

Fixpoint contains (p s : string) : bool :=
  String.prefix p s
  || match s with
     | EmptyString => false
     | String _ s' => contains p s'
     end.

(** [random.choice(l)]: the element at a drawn index, the draw [r] being
    reduced into range.  The list is not empty where the program calls
    it; [d] is never returned then. *)
Definition random_choice {A} (r : nat) (l : list A) (d : A) : A :=
  nth (r mod length l) l d.

End Py.
Import Py.

(** Functions of the Python standard library that the modules call and whose
    definition is not part of the repository. *)
Class Externals : Type := {
  (** [int(s)]; [None] stands for [ValueError]. *)
  py_int : string -> option Z;
  (** [urlsplit(url).path]; [urlsplit] raises [ValueError] on some inputs. *)
  urlsplit_path : string -> result string;
  (** [bytes.decode(encoding="utf-8")]. *)
  decode : list Byte.byte -> result string;
  (** [json.loads(text)], the decoded value kept as its text. *)
  json_loads : string -> result string;
}.

(** ** data.py *)

Module Data.

(** *** CookieManager *)

(** One value of [cf_clearances] or [puids]: a dictionary with the key
    "expires" and the key "cf_clearance" resp. "puid" ([value] here).
    A key that is absent reads as [None] through [dict.get]. *)
Record Entry : Type := mkEntry {
  value : option string;
  expires : option Z;
}.

Record CookieManager : Type := mkCookieManager {
  cf_clearances : gmap string Entry;
  puids : gmap string Entry;
}.

(** The cookie file: absent, or holding the document written last. *)
Definition File : Type := option CookieManager.

(** [expires is not None and expires < time.time()] *)
Definition expired (now : Q) (e : Entry) : bool :=
  match expires e with
  | Some t => if Qlt_le_dec (inject_Z t) now then true else false
  | None => false
  end.

(** The common body of [get_puid] and [get_cf_clearance] on the dictionary
    they read: the value found and the dictionary left. *)
Definition get_entry (now : Q) (key : string) (d : gmap string Entry)
  : option string * gmap string Entry :=
  match d !! key with
  | None => (None, d)
  | Some info =>
      if expired now info then (None, delete key d)
      else (value info, d)
  end.

Definition get_puid (now : Q) (user_id : string) (self : CookieManager)
  : option string * CookieManager :=
  let '(r, d) := get_entry now user_id (puids self) in
  (r, mkCookieManager (cf_clearances self) d).

Definition get_cf_clearance (now : Q) (cf_id : string) (self : CookieManager)
  : option string * CookieManager :=
  let '(r, d) := get_entry now cf_id (cf_clearances self) in
  (r, mkCookieManager d (puids self)).

(** [list(d.keys())], in the order of the map and not in the order of
    insertion: the draw among the keys is arbitrary, so that no statement
    depends on their order. *)
Definition keys (d : gmap string Entry) : list string :=
  (map_to_list d).*1.

(** The common body of the properties [puid] and [cf_clearance]: what
    the property returns or raises, and the dictionary that it leaves,
    evictions included.  [rnd i] is the draw of the [i]-th call of
    [random.choice] and [clk i] the reading of [time.time()] in the
    [i]-th lookup.  The property calls itself, and the interpreter bounds
    the depth of calls: [limit] is the number of times that the property
    can still call itself, and the call after the last raises
    [RecursionError]. *)
Fixpoint random_valid (limit : nat) (rnd : nat -> nat) (clk : nat -> Q)
    (i : nat) (d : gmap string Entry) : result string * gmap string Entry :=
  match keys d with
  | [] => (Return "", d)
  | k0 :: _ =>
      let key := random_choice (rnd i) (keys d) k0 in
      let '(r, d') := get_entry (clk i) key d in
      if truthy_opt r then (Return (default "" r), d')
      else
        match limit with
        | O => (Raise RecursionError, d')
        | S limit' => random_valid limit' rnd clk (S i) d'
        end
  end.

Definition puid (limit : nat) (rnd : nat -> nat) (clk : nat -> Q) (i : nat)
    (self : CookieManager) : result string * CookieManager :=
  let '(r, d) := random_valid limit rnd clk i (puids self) in
  (r, mkCookieManager (cf_clearances self) d).

Definition cf_clearance (limit : nat) (rnd : nat -> nat) (clk : nat -> Q)
    (i : nat) (self : CookieManager) : result string * CookieManager :=
  let '(r, d) := random_valid limit rnd clk i (cf_clearances self) in
  (r, mkCookieManager d (puids self)).

(** [save]: the whole model, serialised, replaces the content of the file. *)
Definition save (self : CookieManager) (f : File) : File := Some self.

Section WithExternals.
Context {ext : Externals}.

(** [save_puid]; the two unpackings and [int] raise [ValueError]. *)
Definition save_puid (puid : string) (self : CookieManager) (f : File)
  : result unit * CookieManager * File :=
  match split ":" puid with
  | [user_id; token] =>
      match py_int (hd "" (split "-" token)) with
      | Some n =>
          let expires := (n + 7 * 24 * 60 * 60)%Z in
          let self' :=
            mkCookieManager (cf_clearances self)
              (<[user_id := mkEntry (Some puid) (Some expires)]> (puids self)) in
          (Return tt, self', save self' f)
      | None => (Raise ValueError, self, f)
      end
  | _ => (Raise ValueError, self, f)
  end.

(** [save_cf_clearance] *)
Definition save_cf_clearance (cf_clearance : string) (self : CookieManager)
    (f : File) : result unit * CookieManager * File :=
  if truthy cf_clearance then
    match split "-" cf_clearance with
    | [cf_id; expires; _; _; _; _] =>
        match py_int expires with
        | Some n =>
            let expires := (n + 30 * 60)%Z in
            let self' :=
              mkCookieManager
                (<[cf_id := mkEntry (Some cf_clearance) (Some expires)]>
                   (cf_clearances self))
                (puids self) in
            (Return tt, self', save self' f)
        | None => (Raise ValueError, self, f)
        end
    | _ => (Raise ValueError, self, f)
    end
  else (Return tt, self, f).

End WithExternals.

(** [delete_cf_clearance] *)
Definition delete_cf_clearance (cf_clearance : string) (self : CookieManager)
    (f : File) : result bool * CookieManager * File :=
  if truthy cf_clearance then
    match split "-" cf_clearance with
    | [cf_id; _; _; _; _; _] =>
        match cf_clearances self !! cf_id with
        | Some _ =>
            let self' :=
              mkCookieManager (delete cf_id (cf_clearances self)) (puids self) in
            (Return true, self', save self' f)
        | None => (Return false, self, f)
        end
    | _ => (Raise ValueError, self, f)
    end
  else (Return false, self, f).

End Data.
Import Data.

(** ** The browser, the event loop and the state they share with the program *)

Module Model.

(** An object held where the program expects a [JSHandle]: an instance of
    that class, or some other object with the same methods. *)
Inductive handle : Type :=
| JSHandle (id : nat)
| Foreign (id : nat).

(** [isinstance(h, JSHandle)] *)
Definition is_JSHandle (h : handle) : bool :=
  match h with
  | JSHandle _ => true
  | Foreign _ => false
  end.

Record StreamResponse : Type := mkStreamResponse {
  status : Z;
  headers : gmap string string;
  controller : option handle;
  response : option handle;
  timeout : Z;
}.

(** [StreamResponse(status=s)]: every other argument at its default. *)
Definition StreamResponse_init (s : Z) : StreamResponse :=
  mkStreamResponse s ∅ None None 30.

Definition set_status_code (s : Z) (r : StreamResponse) : StreamResponse :=
  mkStreamResponse s (headers r) (controller r) (response r) (timeout r).

Definition set_header (k v : string) (r : StreamResponse) : StreamResponse :=
  mkStreamResponse (status r) (<[k := v]> (headers r)) (controller r)
    (response r) (timeout r).

Record AsyncStreamIterator : Type := mkAsyncStreamIterator {
  it_response : handle;
  it_timeout : Z;
  reader : option handle;
}.

(** The fields of a [ChatSession] that the request path reads or writes. *)
Record ChatSession : Type := mkChatSession {
  available : bool;
  running : bool;
  session_cf_clearance : string;
}.

(** Coroutines handed to [asyncio.ensure_future]. *)
Inductive task : Type :=
| GetCfCookies (session : nat) (retry : Z) (wait : bool)
| InitPage (session : nat) (restart : bool).

(** What the program asks of its environment, in the order asked. *)
Inductive call : Type :=
| AddCookies (name value : string) (expires : Z)
| Cookies
| NewAbortController
| TrackedFetch (controller : handle) (url method : string)
    (headers : gmap string string) (data : option string)
| EvalStatus (response : handle)
| EvalHeaders (response : handle)
| DecrementFetchCounter (controller : handle)
| Abort (controller : handle)
| Dispose (h : handle)
| ArrayBuffer (response : handle)
| GetReader (response : handle)
| ReaderRead (reader : handle)
| RandomChoice (len : nat)
| Sleep (seconds : Z).

(** The answer to an awaited call: a value, a Playwright [Error], some
    other exception, or no answer at all. *)
Inductive reply (A : Type) : Type :=
| Got (a : A)
| Failed (message : string)
| Crashed
| Late.
Arguments Got {A} a.
Arguments Failed {A} message.
Arguments Crashed {A}.
Arguments Late {A}.

(** The environment: for the [n]-th call made so far, the answer to it. *)
Record Env : Type := mkEnv {
  on_unit : nat -> reply unit;
  on_handle : nat -> reply nat;
  on_status : nat -> reply Z;
  on_headers : nat -> reply (gmap string string);
  on_cookies : nat -> reply (list (string * string));
  on_bytes : nat -> reply (list Byte.byte);
  on_chunk : nat -> reply (bool * option (list Byte.byte));
  on_random : nat -> nat;
  on_sleep : nat -> list ChatSession -> list ChatSession;
}.

Record World : Type := mkWorld {
  sessions : list ChatSession;
  cookie_manager : CookieManager;
  cookie_file : File;
  tasks : list task;
  trace : list call;
}.

(** A coroutine run from a world: it returns or raises, or it is still
    waiting (on an answer that does not come, or in a loop that the given
    fuel did not see the end of). *)
Inductive outcome (A : Type) : Type :=
| Finished (r : result A) (w : World)
| Pending (w : World).
Arguments Finished {A} r w.
Arguments Pending {A} w.

(** The world in which a run has left off. *)
Definition world_of {A} (o : outcome A) : World :=
  match o with
  | Finished _ w => w
  | Pending w => w
  end.

(** How the run ended, if it did. *)
Definition result_of {A} (o : outcome A) : option (result A) :=
  match o with
  | Finished r _ => Some r
  | Pending _ => None
  end.

Definition M (A : Type) : Type := World -> outcome A.

Definition ret {A} (a : A) : M A := fun w => Finished (Return a) w.

Definition raise {A} (e : exn) : M A := fun w => Finished (Raise e) w.

Definition mbind {A B} (m : M A) (k : A -> M B) : M B :=
  fun w =>
    match m w with
    | Finished (Return a) w' => k a w'
    | Finished (Raise e) w' => Finished (Raise e) w'
    | Pending w' => Pending w'
    end.

(** [try: m  except PlaywrightError as e: h e.message] *)
Definition except_PlaywrightError {A} (m : M A) (h : string -> M A) : M A :=
  fun w =>
    match m w with
    | Finished (Raise (PlaywrightError msg)) w' => h msg w'
    | o => o
    end.

(** [asyncio.wait_for(m, timeout)] *)
Definition wait_for {A} (m : M A) : M A :=
  fun w =>
    match m w with
    | Pending w' => Finished (Raise TimeoutError) w'
    | o => o
    end.

Definition log (c : call) (w : World) : World :=
  mkWorld (sessions w) (cookie_manager w) (cookie_file w) (tasks w)
    (trace w ++ [c]).

(** An awaited call of the environment. *)
Definition await {A} (c : call) (answer : nat -> reply A) : M A :=
  fun w =>
    let w' := log c w in
    match answer (length (trace w)) with
    | Got a => Finished (Return a) w'
    | Failed msg => Finished (Raise (PlaywrightError msg)) w'
    | Crashed => Finished (Raise OtherException) w'
    | Late => Pending w'
    end.

(** [asyncio.ensure_future(t)] *)
Definition ensure_future (t : task) : M unit :=
  fun w =>
    Finished (Return tt)
      (mkWorld (sessions w) (cookie_manager w) (cookie_file w)
         (tasks w ++ [t]) (trace w)).

Definition get_session_state (i : nat) : M ChatSession :=
  fun w =>
    Finished (Return (nth i (sessions w) (mkChatSession false false ""))) w.

Definition update_session (i : nat) (f : ChatSession -> ChatSession) : M unit :=
  fun w =>
    Finished (Return tt)
      (mkWorld (alter f i (sessions w)) (cookie_manager w) (cookie_file w)
         (tasks w) (trace w)).

End Model.
Import Model.

Declare Scope M_scope.
Delimit Scope M_scope with M.
Notation "x <- m ;; k" := (mbind m (fun x => k))
  (at level 100, m at next level, right associativity) : M_scope.
Notation "m ;;; k" := (mbind m (fun _ => k))
  (at level 100, right associativity) : M_scope.

Local Open Scope M_scope.

(** ** data.py, continued: StreamResponse and its chunk iterator *)

Module Stream.
Section WithEnv.
Context {ext : Externals} (env : Env).

(** The methods of the iterator run from a world and leave the iterator
    object in whatever state they have brought it to, also when they
    raise or are cancelled.  Its fields [response] and [timeout] and its
    method [read] carry the prefix [it_] here, the names being those of
    [StreamResponse] too. *)

(** [AsyncStreamIterator.read], from the [try] on. *)
Definition read_chunk (self : AsyncStreamIterator) (rd : handle) (w : World)
  : outcome (bool * list Byte.byte) * AsyncStreamIterator :=
  match await (ReaderRead rd) (on_chunk env) w with
  | Finished (Return (done, v)) w' =>
      (Finished (Return (done, default [] v)) w', self)
  | Finished (Raise (PlaywrightError _)) w' =>
      (Finished (Return (true, [])) w', self)
  | Finished (Raise e) w' => (Finished (Raise e) w', self)
  | Pending w' => (Pending w', self)
  end.

(** [AsyncStreamIterator.read] *)
Definition it_read (self : AsyncStreamIterator) (w : World)
  : outcome (bool * list Byte.byte) * AsyncStreamIterator :=
  match reader self with
  | Some rd => read_chunk self rd w
  | None =>
      match await (GetReader (it_response self)) (on_handle env) w with
      | Finished (Return h) w' =>
          read_chunk
            (mkAsyncStreamIterator (it_response self) (it_timeout self)
               (Some (JSHandle h)))
            (JSHandle h) w'
      | Finished (Raise e) w' => (Finished (Raise e) w', self)
      | Pending w' => (Pending w', self)
      end
  end.

(** [AsyncStreamIterator.__anext__] *)
Definition __anext__ (self : AsyncStreamIterator) (w : World)
  : outcome (list Byte.byte) * AsyncStreamIterator :=
  let '(o, self') := it_read self w in
  match wait_for (fun _ => o) w with
  | Finished (Return (done, data)) w' =>
      if done then
        (((if is_JSHandle (it_response self') then
            (await (Dispose (it_response self')) (on_unit env) ;;;
             await (Dispose (default (it_response self') (reader self')))
               (on_unit env))
          else ret tt) ;;;
         raise StopAsyncIteration) w', self')
      else (Finished (Return data) w', self')
  | Finished (Raise TimeoutError) w' =>
      (Finished (Raise StopAsyncIteration) w', self')
  | Finished (Raise e) w' => (Finished (Raise e) w', self')
  | Pending w' => (Pending w', self')
  end.

(** [async for chunk in self: chunks.append(chunk)], over at most [n]
    chunks.  The loop ends ([Return], with the chunks received) when
    [__anext__] raises [StopAsyncIteration]; any other exception leaves
    it. *)
Fixpoint async_for (n : nat) (self : AsyncStreamIterator)
    (chunks : list (list Byte.byte)) (w : World)
  : outcome (list (list Byte.byte)) * AsyncStreamIterator :=
  match n with
  | O => (Pending w, self)
  | S n' =>
      match __anext__ self w with
      | (Finished (Return data) w', self') =>
          async_for n' self' (chunks ++ [data]) w'
      | (Finished (Raise StopAsyncIteration) w', self') =>
          (Finished (Return chunks) w', self')
      | (Finished (Raise e) w', self') => (Finished (Raise e) w', self')
      | (Pending w', self') => (Pending w', self')
      end
  end.

(** [StreamResponse.read] *)
Definition read (self : StreamResponse) : M (list Byte.byte) :=
  match response self with
  | Some r => await (ArrayBuffer r) (on_bytes env)
  | None => raise (StreamResponseException "Cannot read, response is None")
  end.

(** [StreamResponse.text] *)
Definition text (self : StreamResponse) : M string :=
  b <- read self ;;
  match decode b with
  | Return s => ret s
  | Raise e => raise e
  end.

(** [StreamResponse.json] *)
Definition json (self : StreamResponse) : M string :=
  t <- text self ;;
  match json_loads t with
  | Return v => ret v
  | Raise e => raise e
  end.

(** [StreamResponse.stop] *)
Definition stop (self : StreamResponse) : M unit :=
  match controller self with
  | Some c =>
      await (Abort c) (on_unit env) ;;;
      await (Dispose c) (on_unit env)
  | None => raise (StreamResponseException "controller is None")
  end.

(** [StreamResponse.iter_chunked] *)
Definition iter_chunked (self : StreamResponse) : result AsyncStreamIterator :=
  match response self with
  | Some r => Return (mkAsyncStreamIterator r (timeout self) None)
  | None => Raise (StreamResponseException "response is None")
  end.

(** [StreamResponse.wait_for_headers] *)
Definition wait_for_headers (response controller : option handle)
    (timeout : Z) : M StreamResponse :=
  match response with
  | Some r =>
      fun w =>
        match (status <- await (EvalStatus r) (on_status env) ;;
               headers <- await (EvalHeaders r) (on_headers env) ;;
               ret (status, headers)) w with
        | Finished (Return (status, headers)) w' =>
            Finished
              (Return (mkStreamResponse status headers controller response
                         timeout)) w'
        | Finished (Raise (PlaywrightError _)) w' =>
            Finished
              (Raise (StreamResponseException
                        "Fetch Error, Please try again later")) w'
        | Finished (Raise _) w' =>
            Finished (Raise (StreamResponseException "Unknown Error")) w'
        | Pending w' => Pending w'
        end
  | None => raise (StreamResponseException "response is None")
  end.

End WithEnv.
End Stream.
Import Stream.

(** ** session.py *)

Module Session.

Definition SESSION_TOKEN_KEY : string := "__Secure-next-auth.session-token".
Definition CF_CLEARANCE_KEY : string := "cf_clearance".

(** The generator behind [ChatSession._call_api], suspended at one of its
    [yield]s: the one inside [async with self.fetch(...)] (the generator
    of [fetch] is then suspended too, holding its controller and the
    response it built), or the one of the [except] clause. *)
Inductive suspended : Type :=
| InFetch (session : nat) (controller : handle) (resp : StreamResponse)
| InHandler.

Section WithEnv.
Context {ext : Externals} (env : Env).

(** *** ChatSession; [i] is the position of [self] in the pool. *)

Definition set_status (i : nat) (status : bool) : M unit :=
  update_session i
    (fun s => mkChatSession status (running s) (session_cf_clearance s)).

Definition get_status (i : nat) : M bool :=
  s <- get_session_state i ;; ret (available s).

(** [self.running = b] *)
Definition set_running (i : nat) (b : bool) : M unit :=
  update_session i
    (fun s => mkChatSession (available s) b (session_cf_clearance s)).

Definition set_cookie (key value : string) (expires : Z) : M unit :=
  await (AddCookies key value expires) (on_unit env).

Definition get_cookie (key : string) : M string :=
  cookies <- await Cookies (on_cookies env) ;;
  ret (match List.find (fun c => String.eqb (fst c) key) cookies with
       | Some c => snd c
       | None => ""
       end).

Fixpoint set_cookies (cookies : list (string * string)) : M unit :=
  match cookies with
  | [] => ret tt
  | (key, value) :: rest => set_cookie key value (-1) ;;; set_cookies rest
  end.

(** [fetch], up to its [yield]: the response and the controller that
    the suspended generator keeps. *)
Definition fetch (i : nat) (method url : string)
    (headers : gmap string string) (data : option string)
    (cookies : list (string * string)) (timeout : Z)
  : M (StreamResponse * handle) :=
  (if negb (Nat.eqb (length cookies) 0)
   then set_running i true ;;; set_cookies cookies
   else ret tt) ;;;
  c <- await NewAbortController (on_handle env) ;;
  r <- await (TrackedFetch (JSHandle c) url method headers
                (if truthy_opt data then data else None))
         (on_handle env) ;;
  resp <- wait_for_headers env (Some (JSHandle r)) (Some (JSHandle c))
            timeout ;;
  ret (resp, JSHandle c).

(** [fetch], resumed after its [yield] by a normal exit of the block. *)
Definition fetch_exit (i : nat) (controller : handle)
    (resp : StreamResponse) : M unit :=
  set_running i false ;;;
  await (DecrementFetchCounter controller) (on_unit env) ;;;
  stop env resp.

(** [self.cookie_manager.delete_cf_clearance(c)] on the shared manager. *)
Definition cookie_manager_delete_cf_clearance (c : string) : M bool :=
  fun w =>
    let '(r, cm, f) :=
      delete_cf_clearance c (cookie_manager w) (cookie_file w) in
    Finished r (mkWorld (sessions w) cm f (tasks w) (trace w)).

(** The end of the [async with] body of [_call_api], from
    [if session_token:] on. *)
Definition refresh_session_cookie (session_token : option string)
    (response : StreamResponse) : M StreamResponse :=
  if truthy_opt session_token then
    token <- get_cookie SESSION_TOKEN_KEY ;;
    if truthy token then
      ret (set_header "set-cookie"
             (SESSION_TOKEN_KEY ++ "=" ++ token
                ++ "; path=/; max-age=31536000; secure; httponly")
             response)
    else ret response
  else ret response.

(** The first statement of the [try] block of [_call_api]. *)
Definition install_session_token (i : nat) (session_token : option string)
  : M unit :=
  if truthy_opt session_token then
    set_running i true ;;;
    set_cookie SESSION_TOKEN_KEY (default "" session_token) (-1)
  else set_cookie SESSION_TOKEN_KEY "" 0.

(** The body of [async with self.fetch(...) as response]. *)
Definition on_response (i : nat) (url : string)
    (session_token : option string) (controller : handle)
    (response : StreamResponse) : M (StreamResponse * suspended) :=
  if (status response =? 403)%Z then
    self <- get_session_state i ;;
    cookie_manager_delete_cf_clearance (session_cf_clearance self) ;;;
    ensure_future (GetCfCookies i 20 true) ;;;
    response' <- refresh_session_cookie session_token response ;;
    ret (response', InFetch i controller response)
  else if (status response =? 429)%Z && contains "/api/auth/session" url
  then
    let response' := set_status_code 403 response in
    ok <- get_status i ;;
    (if ok then ensure_future (InitPage i true) else ret tt) ;;;
    ret (response', InFetch i controller response)
  else
    response' <- refresh_session_cookie session_token response ;;
    ret (response', InFetch i controller response).

(** The [try] block of [_call_api], up to its [yield].  An exception
    raised inside [async with self.fetch(...)] passes through the
    generator of [fetch], which has no handler: what follows its [yield]
    is not run then. *)
Definition _call_api_try (i : nat) (method url : string)
    (headers : gmap string string) (data : option string)
    (session_token : option string) (timeout : Z)
  : M (StreamResponse * suspended) :=
  install_session_token i session_token ;;;
  rc <- fetch i method url headers data [] timeout ;;
  on_response i url session_token (snd rc) (fst rc).

(** [_call_api], up to its [yield]: the response yielded and the state
    in which the generator is suspended. *)
Definition _call_api (i : nat) (method url : string)
    (headers : gmap string string) (data : option string)
    (session_token : option string) (timeout : Z)
  : M (StreamResponse * suspended) :=
  except_PlaywrightError
    (_call_api_try i method url headers data session_token timeout)
    (fun _ => ret (StreamResponse_init 403, InHandler)).

(** [_call_api], resumed after its [yield] by a normal exit of the
    caller's block.  A Playwright error while [fetch] winds up reaches
    the [except] clause, whose [yield] makes the generator yield a
    second time: the context manager answers with [RuntimeError]. *)
Definition _call_api_exit (k : suspended) : M unit :=
  match k with
  | InFetch i controller resp =>
      except_PlaywrightError (fetch_exit i controller resp)
        (fun _ => raise (RuntimeError "generator didn't stop"))
  | InHandler => ret tt
  end.

(** *** SessionManager *)

(** The positions of the sessions with
    [await session.get_status() and not session.running]. *)
Definition selectable (ss : list ChatSession) : list nat :=
  List.filter
    (fun i =>
       let s := nth i ss (mkChatSession false false "") in
       available s && negb (running s))
    (seq 0 (length ss)).

Definition get_sessions : M (list nat) :=
  fun w => Finished (Return (selectable (sessions w))) w.

(** [random.choice(l)] *)
Definition choice (l : list nat) (d : nat) : M nat :=
  fun w =>
    Finished
      (Return (random_choice (on_random env (length (trace w))) l d))
      (log (RandomChoice (length l)) w).

(** [asyncio.sleep(seconds)]: the other coroutines run meanwhile. *)
Definition sleep (seconds : Z) : M unit :=
  fun w =>
    Finished (Return tt)
      (log (Sleep seconds)
         (mkWorld (on_sleep env (length (trace w)) (sessions w))
            (cookie_manager w) (cookie_file w) (tasks w) (trace w))).

(** [get_session].  It calls itself after every sleep, and the
    interpreter bounds the depth of calls: [limit] is the number of
    times that it can still call itself, and the call after the last
    raises [RecursionError]. *)
Fixpoint get_session (limit : nat) : M nat :=
  sessions <- get_sessions ;;
  match sessions with
  | s0 :: _ => choice sessions s0
  | [] =>
      sleep 3 ;;;
      match limit with
      | O => raise RecursionError
      | S limit' => get_session limit'
      end
  end.

(** The condition under which [call_api] keeps [session_token]. *)
Definition kept_session_token (path : string)
    (headers : gmap string string) (session_token : option string)
  : option string :=
  if negb (truthy_opt session_token)
     || truthy_opt (headers !! "authorization")
     || negb (endswith path "/" || endswith path "session"
              || startswith path "/_next/data" || startswith path "/c/"
              || startswith path "/api/auth/callback/auth0")
  then None
  else session_token.

(** The first statements of [call_api]: a session is chosen, the token
    is kept or dropped, and [_call_api] is entered. *)
Definition attempt (limit : nat) (method url : string)
    (headers : gmap string string) (data session_token : option string)
  : M (StreamResponse * suspended) :=
  session <- get_session limit ;;
  path <- (fun w => Finished (urlsplit_path url) w) ;;
  _call_api session method url headers data
    (kept_session_token path headers session_token) 10.

(** [call_api], up to its [yield].  With status 403 on the first call
    nothing is yielded inside the block: the block is left, which winds
    up [_call_api], and the call is made again with [first=False] and
    the token as the first call has kept it.  [limit] is the number of
    calls that the interpreter still lets [call_api] and [get_session]
    nest: the second call of [call_api] is nested in the first, and has
    one less. *)
Fixpoint call_api (limit : nat) (method url : string)
    (headers : gmap string string) (data session_token : option string)
    (first : bool) : M (StreamResponse * suspended) :=
  session <- get_session limit ;;
  path <- (fun w => Finished (urlsplit_path url) w) ;;
  let session_token := kept_session_token path headers session_token in
  rk <- _call_api session method url headers data session_token 10 ;;
  let '(resp, k) := rk in
  if (status resp =? 403)%Z then
    if negb first then ret (set_status_code 499 resp, k)
    else
      _call_api_exit k ;;;
      match limit with
      | O => raise RecursionError
      | S limit' =>
          call_api limit' method url headers data session_token false
      end
  else ret (resp, k).

(** [call_api], resumed after its [yield] by a normal exit of the
    caller's block, the caller having left [resp.status] as it was. *)
Definition call_api_exit (k : suspended) : M unit := _call_api_exit k.

End WithEnv.
End Session.
Import Session.

(** ** Concrete environments and states, for the examples *)

Module Examples.

(** [int] on a string of ASCII decimal digits. *)
Fixpoint digits_value (s : string) (acc : Z) : option Z :=
  match s with
  | EmptyString => Some acc
  | String c s' =>
      let n := nat_of_ascii c in
      if (48 <=? n)%nat && (n <=? 57)%nat
      then digits_value s' (10 * acc + Z.of_nat (n - 48))%Z
      else None
  end.

Definition decimal_int (s : string) : option Z :=
  match s with
  | EmptyString => None
  | _ => digits_value s 0
  end.

(** The path of a URL that has neither scheme nor host: what precedes the
    first "?" or "#". *)
Fixpoint relative_path (u : string) : string :=
  match u with
  | EmptyString => EmptyString
  | String c u' =>
      if Ascii.eqb c "?" || Ascii.eqb c "#" then EmptyString
      else String c (relative_path u')
  end.

Definition externals : Externals := {|
  py_int := decimal_int;
  urlsplit_path := fun u => Return (relative_path u);
  decode := fun b => Return (string_of_list_byte b);
  json_loads := fun t => Return t;
|}.

(** An environment in which every call is answered, the upstream status
    being [st n] when asked for by the [n]-th call. *)
Definition upstream (st : nat -> reply Z) : Env := {|
  on_unit := fun _ => Got tt;
  on_handle := fun n => Got n;
  on_status := st;
  on_headers := fun _ => Got ∅;
  on_cookies := fun _ => Got [];
  on_bytes := fun _ => Got [];
  on_chunk := fun _ => Got (true, None);
  on_random := fun _ => O;
  on_sleep := fun _ ss => ss;
|}.

(** The same with all answers to the calls that return nothing given by
    [u]. *)
Definition upstream_with_unit (st : nat -> reply Z) (u : nat -> reply unit)
  : Env := {|
  on_unit := u;
  on_handle := fun n => Got n;
  on_status := st;
  on_headers := fun _ => Got ∅;
  on_cookies := fun _ => Got [];
  on_bytes := fun _ => Got [];
  on_chunk := fun _ => Got (true, None);
  on_random := fun _ => O;
  on_sleep := fun _ ss => ss;
|}.

(** A stream that answers the [n]-th call with [ch n]. *)
Definition stream (ch : nat -> reply (bool * option (list Byte.byte)))
  : Env := {|
  on_unit := fun _ => Got tt;
  on_handle := fun n => Got (100 + n)%nat;
  on_status := fun _ => Got 200%Z;
  on_headers := fun _ => Got ∅;
  on_cookies := fun _ => Got [];
  on_bytes := fun _ => Got [];
  on_chunk := ch;
  on_random := fun _ => O;
  on_sleep := fun _ ss => ss;
|}.

Definition empty_manager : CookieManager := mkCookieManager ∅ ∅.

(** A pool of one session, available and idle, before any call. *)
Definition one_session : World :=
  mkWorld [mkChatSession true false ""] empty_manager None [] [].

(** The same with the session not available. *)
Definition one_session_unavailable : World :=
  mkWorld [mkChatSession false false ""] empty_manager None [] [].

End Examples.

(** ** Vocabulary of the statements *)

Module Spec.

(** The calls that [_call_api] makes before it has a response, in order. *)
Inductive stage : Type :=
| SettingCookie
| CreatingController
| IssuingFetch
| ReadingStatus
| ReadingHeaders.

(** The first of these calls that Playwright answers with an [Error], in
    an environment that has answered [n] calls before, and the message. *)
Definition first_fault (env : Env) (n : nat) : option (stage * string) :=
  match on_unit env n with
  | Failed msg => Some (SettingCookie, msg)
  | Got _ =>
      match on_handle env (S n) with
      | Failed msg => Some (CreatingController, msg)
      | Got _ =>
          match on_handle env (S (S n)) with
          | Failed msg => Some (IssuingFetch, msg)
          | Got _ =>
              match on_status env (S (S (S n))) with
              | Failed msg => Some (ReadingStatus, msg)
              | Got _ =>
                  match on_headers env (S (S (S (S n)))) with
                  | Failed msg => Some (ReadingHeaders, msg)
                  | _ => None
                  end
              | _ => None
              end
          | _ => None
          end
      | _ => None
      end
  | _ => None
  end.

(** The world after [asyncio.ensure_future(t)]. *)
Definition schedule (t : task) (w : World) : World :=
  mkWorld (sessions w) (cookie_manager w) (cookie_file w) (tasks w ++ [t])
    (trace w).

(** Every entry has a token value that is not empty. *)
Definition carries_token (d : gmap string Entry) : Prop :=
  forall k e, d !! k = Some e -> exists v, value e = Some v /\ v <> "".

(** Every entry has the key of its token value. *)
Definition carries_field (d : gmap string Entry) : Prop :=
  forall k e, d !! k = Some e -> exists v, value e = Some v.

(** An entry is valid at the time [now]: it has no expiry time, or one
    that is not before [now]. *)
Definition valid (now : Q) (e : Entry) : Prop :=
  forall t, expires e = Some t -> (now <= inject_Z t)%Q.

(** What a random selection among the entries [field self], at the time
    [now], with the outcome [r], has to be.  A value returned that is
    not empty is the value of a stored entry that is valid, and that
    entry is still stored.  If every entry has a token value that is not
    empty and some entry is valid, a value that is not empty is
    returned.  If no entry is valid, the empty string is returned and no
    entry is left.  And no entry that is valid is ever removed. *)
Definition selects_valid (now : Q) (field : CookieManager -> gmap string Entry)
    (self : CookieManager) (r : result string * CookieManager) : Prop :=
  (forall v self',
      r = (Return v, self') -> v <> "" ->
      exists k e,
        field self !! k = Some e /\ value e = Some v /\ valid now e
        /\ field self' !! k = Some e)
  /\ (carries_token (field self) ->
      (exists k e, field self !! k = Some e /\ valid now e) ->
      exists v self', r = (Return v, self') /\ v <> "")
  /\ ((forall k e,
          field self !! k = Some e ->
          exists t, expires e = Some t /\ (inject_Z t < now)%Q) ->
      exists self', r = (Return "", self') /\ field self' = ∅)
  /\ (forall k e,
        field self !! k = Some e -> valid now e ->
        field (snd r) !! k = Some e).

(** The file holds the document that is in memory. *)
Definition persisted (self : CookieManager) (f : File) : Prop :=
  f = Some self.

(** A stored document with one clearance, [expires] being its expiry
    time. *)
Definition one_clearance (expires : Z) : CookieManager :=
  mkCookieManager
    {["id" := mkEntry (Some "id-100-a-b-c-d") (Some expires)]} ∅.

(** The number of calls of [dispose] on the handle [h] among [calls]. *)
Definition is_dispose_of (h : handle) (c : call) : bool :=
  match c, h with
  | Dispose (JSHandle a), JSHandle b => Nat.eqb a b
  | Dispose (Foreign a), Foreign b => Nat.eqb a b
  | _, _ => false
  end.

Definition disposals (h : handle) (calls : list call) : nat :=
  length (List.filter (is_dispose_of h) calls).

(** The calls with which an iterator reads. *)
Definition is_read (c : call) : Prop :=
  match c with
  | GetReader _ | ReaderRead _ => True
  | _ => False
  end.

(** What the calls made between two worlds can be, over an iteration with
    the response [r]: reads only, or reads and then, once, the disposal of
    the response and of a reader. *)
Definition reads_then_disposes (r : handle) (w w' : World) : Prop :=
  exists l,
    Forall is_read l
    /\ (trace w' = (trace w ++ l)%list
        \/ exists rd,
            trace w' = (trace w ++ l ++ [Dispose r; Dispose rd])%list).

(** The sessions after [self.running = b] in the [i]-th of them. *)
Definition mark_running (i : nat) (b : bool) (ss : list ChatSession)
  : list ChatSession :=
  alter (fun s => mkChatSession (available s) b (session_cf_clearance s)) i ss.

(** A run relates the world it starts from to the world it leaves. *)
Definition preserves {A} (R : World -> World -> Prop) (m : M A) : Prop :=
  forall w, R w (world_of (m w)).

(** The calls made so far stay where they are. *)
Definition extends_trace (w w' : World) : Prop :=
  exists l, trace w' = (trace w ++ l)%list.

(** The flags of the sessions are left alone. *)
Definition same_sessions (w w' : World) : Prop :=
  sessions w' = sessions w.

(** A relation between worlds that every step of the request path, the
    setting of a session flag apart, respects. *)
Class Frame (R : World -> World -> Prop) : Prop := {
  frame_preorder :: PreOrder R;
  frame_log : forall c w, R w (log c w);
  frame_schedule : forall t w, R w (schedule t w);
  frame_manager : forall w cm f,
    R w (mkWorld (sessions w) cm f (tasks w) (trace w));
}.

(** The condition of [call_api] for passing the session token on, in
    words: a token that is not empty, no value that is not empty under
    the header "authorization", and a path with one of the two endings or
    one of the three beginnings. *)
Definition attaches (path : string) (headers : gmap string string)
    (session_token : option string) : Prop :=
  (exists tok, session_token = Some tok /\ tok <> "")
  /\ (forall v, headers !! "authorization" = Some v -> v = "")
  /\ ((exists p, path = p ++ "/")
      \/ (exists p, path = p ++ "session")
      \/ (exists q, path = "/_next/data" ++ q)
      \/ (exists q, path = "/c/" ++ q)
      \/ (exists q, path = "/api/auth/callback/auth0" ++ q)).

End Spec.
Import Spec.

(** ** data.py and session.py, continued: the start of the program *)

Module Startup.

(** [ChatSession.__init__], on the fields of the record. *)
Definition ChatSession_init : ChatSession := mkChatSession false false "".

(** [SessionManager.__init__]: [limit] sessions over one manager, and
    [init_page()] of each handed to the event loop. *)
Definition SessionManager_init (cookie_manager : CookieManager) (f : File)
    (limit : Z) : World :=
  mkWorld (replicate (Z.to_nat limit) ChatSession_init) cookie_manager f
    (List.map (fun i => InitPage i false) (seq 0 (Z.to_nat limit))) [].

End Startup.
Import Startup.

(** ** session.py, continued: the negotiation with Cloudflare *)

Module Negotiation.

(** The answers of the page to one round of the loop of
    [get_cf_cookies], in the order of the source: the load state, the
    locator "text=detail", the button of the old challenge, the frame of
    the new one, and the locator that [label] names when it is asked
    whether to click it. *)
Record Poll : Type := mkPoll {
  load_state : reply unit;
  detail_visible : reply bool;
  button_visible : reply bool;
  button_count : reply nat;
  button_click : reply unit;
  frame_visible : reply bool;
  frame_count : reply nat;
  label_visible : reply bool;
  label_count : reply nat;
  label_click : reply unit;
}.

(** The answers of the page of a session during one run of
    [get_cf_cookies], with the draws and the clock readings of the
    selection of a stored clearance. *)
Record Page : Type := mkPage {
  no_fetch : reply unit;
  goto : reply unit;
  polls : nat -> Poll;
  draws : nat -> nat;
  clock : nat -> Q;
}.

(** An awaited call of the page, answered by [r]. *)
Definition ask {A} (r : reply A) : M A :=
  fun w =>
    match r with
    | Got a => Finished (Return a) w
    | Failed msg => Finished (Raise (PlaywrightError msg)) w
    | Crashed => Finished (Raise OtherException) w
    | Late => Pending w
    end.

(** [try: m  except Exception: h] *)
Definition except_Exception {A} (m h : M A) : M A :=
  fun w =>
    match m w with
    | Finished (Raise _) w' => h w'
    | o => o
    end.

(** [await l.is_visible() and await l.count()], as a truth value. *)
Definition visible_and_counted (visible : reply bool) (count : reply nat)
  : M bool :=
  v <- ask visible ;;
  if v then n <- ask count ;; ret (negb (Nat.eqb n 0)) else ret false.

Section WithEnv.
Context {ext : Externals} (env : Env) (page : Page).

(** [wait_for_task] *)
Definition wait_for_task (i : nat) : M unit :=
  set_status i false ;;;
  ask (no_fetch page).

(** [self.cookie_manager.cf_clearance] on the shared manager. *)
Definition cookie_manager_cf_clearance (limit : nat) : M string :=
  fun w =>
    let '(r, cm) :=
      cf_clearance limit (draws page) (clock page) 0 (cookie_manager w) in
    Finished r (mkWorld (sessions w) cm (cookie_file w) (tasks w) (trace w)).

(** [self.cookie_manager.save_cf_clearance(c)] on the shared manager. *)
Definition cookie_manager_save_cf_clearance (c : string) : M unit :=
  fun w =>
    let '(r, cm, f) :=
      save_cf_clearance c (cookie_manager w) (cookie_file w) in
    Finished r (mkWorld (sessions w) cm f (tasks w) (trace w)).

(** [self.cf_clearance = c] *)
Definition set_cf_clearance (i : nat) (c : string) : M unit :=
  update_session i (fun s => mkChatSession (available s) (running s) c).

(** The [try] block of the loop of [get_cf_cookies]; [true] stands for
    [break]. *)
Definition poll_body (p : Poll) : M bool :=
  ask (load_state p) ;;;
  solved <- ask (detail_visible p) ;;
  if solved then ret true
  else
    press <- visible_and_counted (button_visible p) (button_count p) ;;
    (if press then ask (button_click p) else ret tt) ;;;
    visible_and_counted (frame_visible p) (frame_count p) ;;;
    tick <- visible_and_counted (label_visible p) (label_count p) ;;
    (if tick then ask (label_click p) else ret tt) ;;;
    sleep env 1 ;;;
    ret false.

(** One round of the loop. *)
Definition poll (p : Poll) : M bool :=
  except_Exception (poll_body p) (sleep env 1 ;;; ret false).

(** [for i in range(retry): ... else: ...], from the round [k] on;
    [false] stands for the [else] branch. *)
Fixpoint poll_loop (retry : nat) (k : nat) : M bool :=
  match retry with
  | O => ret false
  | S retry' =>
      solved <- poll (polls page k) ;;
      if solved then ret true else poll_loop retry' (S k)
  end.

(** [get_cf_cookies]; [limit] is the number of times that the property
    [cf_clearance] of the store can call itself.
    The cookie is set on the domain ".chat.openai.com"; the call is
    recorded as [AddCookies], which keeps name, value and expiry. *)
Definition get_cf_cookies (limit : nat) (i : nat) (retry : Z) (wait : bool)
  : M unit :=
  set_status i false ;;;
  (if wait then wait_for_task i else ret tt) ;;;
  v <- cookie_manager_cf_clearance limit ;;
  await (AddCookies CF_CLEARANCE_KEY v (-1)) (on_unit env) ;;;
  ask (goto page) ;;;
  solved <- poll_loop (Z.to_nat retry) 0 ;;
  if solved then
    set_status i true ;;;
    c <- get_cookie env CF_CLEARANCE_KEY ;;
    set_cf_clearance i c ;;;
    cookie_manager_save_cf_clearance c
  else
    ensure_future (GetCfCookies i 20 false).

End WithEnv.
End Negotiation.
Import Negotiation.

(** ** session.py, continued: starting and restarting a session *)

Module Lifecycle.

(** The answers of Playwright while a session is stopped and started, in
    the order of the source. *)
Record Browser : Type := mkBrowser {
  page_close : reply unit;
  content_close : reply unit;
  browser_close : reply unit;
  playwright_exit : reply unit;
  playwright_started : reply unit;
  chromium_launch : reply unit;
  new_context : reply unit;
  new_page : reply unit;
  add_init_script : reply unit;
  expose_set_cookie : reply unit;
  expose_get_cookie : reply unit;
}.

Section WithEnv.
Context {ext : Externals} (env : Env) (b : Browser).

(** [playwright_start] *)
Definition playwright_start : M unit :=
  ask (playwright_started b) ;;;
  ask (chromium_launch b) ;;;
  ask (new_context b).

(** [playwright_close] *)
Definition playwright_close : M unit :=
  ask (content_close b) ;;;
  ask (browser_close b) ;;;
  ask (playwright_exit b).

(** The branch [elif restart and self.page] of [init_page]; [old] is the
    page that the session has. *)
Definition stop_for_restart (old : Page) (i : nat) : M unit :=
  self <- get_session_state i ;;
  cookie_manager_delete_cf_clearance (session_cf_clearance self) ;;;
  wait_for_task old i ;;;
  ask (page_close b) ;;;
  playwright_close.

(** [init_page].  [has_page] is the truth value of [self.page] on entry
    and the second component that on exit: the attribute is set as soon
    as the new page exists, and stays set if a later step raises.  [old]
    is the page that the session has on entry, [new] the one that it
    opens, and [limit] the limit given to [get_cf_cookies]. *)
Definition init_page (old new : Page) (limit : nat) (i : nat)
    (restart has_page : bool) (w : World) : outcome unit * bool :=
  if negb restart && has_page then (Finished (Return tt) w, has_page)
  else
    match ((if restart && has_page then stop_for_restart old i else ret tt) ;;;
           playwright_start ;;;
           ask (new_page b)) w with
    | Finished (Return _) w' =>
        ((ask (add_init_script b) ;;;
          get_cf_cookies env new limit i 20 false ;;;
          ask (expose_set_cookie b) ;;;
          ask (expose_get_cookie b)) w', true)
    | Finished (Raise e) w' => (Finished (Raise e) w', has_page)
    | Pending w' => (Pending w', has_page)
    end.

End WithEnv.
End Lifecycle.
Import Lifecycle.

(** ** example_stream.py *)

Module Example_stream.
Section WithEnv.
Context {ext : Externals} (env : Env).

(** [main], from [async with session.fetch(...)] on: [session] is the
    [i]-th context, [n] is the number of chunks looked at, and what is
    printed is returned. *)
Definition main (n : nat) (i : nat) : M string :=
  rc <- fetch env i "GET" "/backend-api/models"
          {["Authorization" := "Bearer xxx"]} None [] 30 ;;
  let '(resp, controller) := rc in
  chunks <- match iter_chunked resp with
            | Return it => fun w => fst (async_for env n it [] w)
            | Raise e => raise e
            end ;;
  printed <- (fun w => Finished (decode (concat chunks)) w) ;;
  fetch_exit env i controller resp ;;;
  ret printed.

End WithEnv.
End Example_stream.

(** ** Vocabulary of the statements, continued *)

Module Conditions.

(** The number of occurrences of the character [sep] in [s]. *)
Fixpoint occurrences (sep : ascii) (s : string) : nat :=
  match s with
  | EmptyString => O
  | String c s' =>
      if Ascii.eqb c sep then S (occurrences sep s') else occurrences sep s'
  end.

(** The calls of [read] on the reader [rd] that a loop over [k] chunks
    makes. *)
Definition reads (rd : handle) (k : nat) : list call :=
  repeat (ReaderRead rd) k.

(** From the [n]-th call on the stream delivers the chunks [ds] one by
    one, a chunk without value among them as [None]. *)
Fixpoint delivers (env : Env) (n : nat) (ds : list (option (list Byte.byte)))
  : Prop :=
  match ds with
  | [] => True
  | d :: ds' => on_chunk env n = Got (false, d) /\ delivers env (S n) ds'
  end.

(** The [n]-th call finds the stream at its end: the reader says so, or
    Playwright fails. *)
Definition ends (env : Env) (n : nat) : Prop :=
  (exists v, on_chunk env n = Got (true, v))
  \/ (exists msg, on_chunk env n = Failed msg).

(** While the program sleeps, nobody touches the [i]-th session. *)
Definition leaves_session (env : Env) (i : nat) : Prop :=
  forall n ss, on_sleep env n ss !! i = ss !! i.

(** While the program sleeps, no session becomes selectable. *)
Definition nothing_frees_up (env : Env) : Prop :=
  forall n ss, selectable ss = [] -> selectable (on_sleep env n ss) = [].

(** Every call of the round is answered, by a value or an exception. *)
Definition answered {A} (r : reply A) : Prop := r <> Late.

Definition all_answered (p : Poll) : Prop :=
  answered (load_state p) /\ answered (detail_visible p)
  /\ answered (button_visible p) /\ answered (button_count p)
  /\ answered (button_click p) /\ answered (frame_visible p)
  /\ answered (frame_count p) /\ answered (label_visible p)
  /\ answered (label_count p) /\ answered (label_click p).

(** The round finds the page loaded and the text "detail" on it. *)
Definition solved (p : Poll) : Prop :=
  load_state p = Got tt /\ detail_visible p = Got true.

(** [cookie["value"]] of the first cookie named [key], or the empty
    string. *)
Definition cookie_value (key : string) (cookies : list (string * string))
  : string :=
  match List.find (fun c => String.eqb (fst c) key) cookies with
  | Some c => snd c
  | None => ""
  end.

(** The world after the calls [l]. *)
Definition logged (l : list call) (w : World) : World :=
  mkWorld (sessions w) (cookie_manager w) (cookie_file w) (tasks w)
    (trace w ++ l).

(** The sessions after [set_status(b)] in the [i]-th of them. *)
Definition mark_available (i : nat) (b : bool) (ss : list ChatSession)
  : list ChatSession :=
  alter (fun s => mkChatSession b (running s) (session_cf_clearance s)) i ss.

(** The [i]-th session, if there is one, is not available. *)
Definition unavailable (i : nat) (w : World) : Prop :=
  forall s, sessions w !! i = Some s -> available s = false.

(** The world after [n] calls of [asyncio.sleep(seconds)] in a row. *)
Fixpoint slept (env : Env) (seconds : Z) (n : nat) (w : World) : World :=
  match n with
  | O => w
  | S n' => slept env seconds n' (world_of (sleep env seconds w))
  end.

(** The world in which [get_cf_cookies] navigates: the session is marked
    unavailable, a stored clearance [v] has been selected, which has left
    the manager [cm], and the cookie is set. *)
Definition started (i : nat) (v : string) (cm : CookieManager) (w : World)
  : World :=
  mkWorld (mark_available i false (sessions w)) cm (cookie_file w) (tasks w)
    (trace w ++ [AddCookies CF_CLEARANCE_KEY v (-1)]).

(** The exception with which the first of the calls answered by [rs]
    that is not answered by a value fails. *)
Fixpoint first_failure (rs : list (reply unit)) : option exn :=
  match rs with
  | [] => None
  | Got _ :: rs' => first_failure rs'
  | Failed msg :: _ => Some (PlaywrightError msg)
  | Crashed :: _ => Some OtherException
  | Late :: _ => None
  end.

(** The calls of a restart that come before the negotiation: the
    requests in flight are waited for on the old page, page and browser
    are closed, and a browser and a page are opened. *)
Definition stopping_and_starting (old : Page) (b : Browser)
  : list (reply unit) :=
  [no_fetch old; page_close b; content_close b; browser_close b;
   playwright_exit b; playwright_started b; chromium_launch b;
   new_context b; new_page b].

End Conditions.
Import Conditions.

(** ** Concrete pages and environments, for the examples *)

Module Scenarios.

(** A pool of one session, available and idle, that holds [clearance],
    over the manager [cm], which is also what the cookie file holds. *)
Definition one_session_with (clearance : string) (cm : CookieManager) : World :=
  mkWorld [mkChatSession true false clearance] cm (Some cm) [] [].

(** An environment in which every call is answered, the upstream status
    being [st] and the cookies of the browser [cookies]. *)
Definition upstream_with_cookies (st : Z) (cookies : list (string * string))
  : Env := {|
  on_unit := fun _ => Got tt;
  on_handle := fun n => Got n;
  on_status := fun _ => Got st;
  on_headers := fun _ => Got ∅;
  on_cookies := fun _ => Got cookies;
  on_bytes := fun _ => Got [];
  on_chunk := fun _ => Got (true, None);
  on_random := fun _ => O;
  on_sleep := fun _ ss => ss;
|}.

(** An environment in which every call is answered, the body of the
    response being [bytes]. *)
Definition upstream_with_body (bytes : list Byte.byte) : Env := {|
  on_unit := fun _ => Got tt;
  on_handle := fun n => Got n;
  on_status := fun _ => Got 200%Z;
  on_headers := fun _ => Got ∅;
  on_cookies := fun _ => Got [];
  on_bytes := fun _ => Got bytes;
  on_chunk := fun _ => Got (true, None);
  on_random := fun _ => O;
  on_sleep := fun _ ss => ss;
|}.

(** A round in which the challenge is still shown and nothing can be
    clicked, and one in which the text "detail" is found. *)
Definition quiet_poll : Poll :=
  mkPoll (Got tt) (Got false) (Got false) (Got O) (Got tt) (Got false) (Got O)
    (Got false) (Got O) (Got tt).

Definition solved_poll : Poll :=
  mkPoll (Got tt) (Got true) (Got false) (Got O) (Got tt) (Got false) (Got O)
    (Got false) (Got O) (Got tt).

(** A page on which the challenge is solved in the round [n]. *)
Definition page_solved_at (n : nat) : Page :=
  mkPage (Got tt) (Got tt)
    (fun k => if Nat.eqb k n then solved_poll else quiet_poll)
    (fun _ => O) (fun _ => 0%Q).

(** A page to which the navigation fails with [msg]. *)
Definition page_unreachable (msg : string) : Page :=
  mkPage (Got tt) (Failed msg) (fun _ => quiet_poll) (fun _ => O)
    (fun _ => 0%Q).

(** A browser that answers every call, and one that cannot be launched. *)
Definition browser_fine : Browser :=
  mkBrowser (Got tt) (Got tt) (Got tt) (Got tt) (Got tt) (Got tt) (Got tt)
    (Got tt) (Got tt) (Got tt) (Got tt).

Definition browser_not_launching (msg : string) : Browser :=
  mkBrowser (Got tt) (Got tt) (Got tt) (Got tt) (Got tt) (Failed msg) (Got tt)
    (Got tt) (Got tt) (Got tt) (Got tt).

End Scenarios.
Import Scenarios.

(** * Properties *)

(** ** Running a coroutine step by step *)

Lemma mbind_return {A B} (m : M A) (k : A -> M B) (w w' : World) (a : A) :
  m w = Finished (Return a) w' -> mbind m k w = k a w'.
Proof. intros E. unfold mbind. now rewrite E. Qed.

Lemma length_trace_log (c : call) (w : World) :
  length (trace (log c w)) = S (length (trace w)).
Proof. unfold log; simpl. rewrite length_app. simpl. lia. Qed.

(** Symbolic execution: unfold the request path, then split on the answers
    of the environment in the order in which they are asked for. *)

Ltac norm_length :=
  repeat (rewrite ?length_app in *; cbn [length] in *;
          rewrite ?Nat.add_1_r in * ).

Ltac destruct_reply :=
  match goal with
  | |- context [match on_unit ?e ?n with _ => _ end] =>
      destruct (on_unit e n) as [[]|?| |] eqn:?
  | |- context [match on_handle ?e ?n with _ => _ end] =>
      destruct (on_handle e n) eqn:?
  | |- context [match on_status ?e ?n with _ => _ end] =>
      destruct (on_status e n) eqn:?
  | |- context [match on_headers ?e ?n with _ => _ end] =>
      destruct (on_headers e n) eqn:?
  | |- context [match on_cookies ?e ?n with _ => _ end] =>
      destruct (on_cookies e n) eqn:?
  end.

Ltac unfold_request :=
  unfold _call_api, except_PlaywrightError, _call_api_try,
    install_session_token, fetch, wait_for_headers, set_running, set_cookie,
    update_session, mbind, await, ret, log.

(** ** C1: faults of the environment at the boundary of [_call_api] *)

Lemma _call_api_catches_Playwright env i m u h d t to w msg w' :
  _call_api env i m u h d t to w <> Finished (Raise (PlaywrightError msg)) w'.
Proof.
  unfold _call_api, except_PlaywrightError.
  destruct (_call_api_try env i m u h d t to w) as [[a|[]] w1|w1];
    unfold ret; congruence.
Qed.

Lemma _call_api_fault env i m u h d t to w s msg :
  first_fault env (length (trace w)) = Some (s, msg) ->
  exists w',
    _call_api env i m u h d t to w =
    match s with
    | SettingCookie | CreatingController | IssuingFetch =>
        Finished (Return (StreamResponse_init 403, InHandler)) w'
    | ReadingStatus | ReadingHeaders =>
        Finished
          (Raise (StreamResponseException
                    "Fetch Error, Please try again later")) w'
    end.
Proof.
  intros F. unfold first_fault in F. unfold_request.
  destruct (truthy_opt t).
  all: repeat (simpl; norm_length; destruct_reply; try discriminate F;
               try (inversion F; subst; eexists; reflexivity)).
Qed.




(** ** C9: the response that stands for a fault has neither body nor controller *)

Lemma mbind_inv_return {A B} (m : M A) (k : A -> M B) w b w' :
  mbind m k w = Finished (Return b) w' ->
  exists a w1, m w = Finished (Return a) w1 /\ k a w1 = Finished (Return b) w'.
Proof.
  unfold mbind. destruct (m w) as [[a|e] w1|w1]; try discriminate.
  intros E. now exists a, w1.
Qed.

Lemma on_response_suspended env i u t c resp w r k w' :
  on_response env i u t c resp w = Finished (Return (r, k)) w' ->
  k = InFetch i c resp.
Proof.
  unfold on_response.
  destruct (status resp =? 403)%Z; [|destruct (_ && _)]; intros E.
  all: repeat (apply mbind_inv_return in E; destruct E as (? & ? & _ & E)).
  all: unfold ret in E; congruence.
Qed.

Lemma _call_api_try_suspended env i m u h d t to w r k w' :
  _call_api_try env i m u h d t to w = Finished (Return (r, k)) w' ->
  exists c resp, k = InFetch i c resp.
Proof.
  unfold _call_api_try. intros E.
  apply mbind_inv_return in E. destruct E as (? & ? & _ & E).
  apply mbind_inv_return in E. destruct E as (rc & ? & _ & E).
  apply on_response_suspended in E. eauto.
Qed.

(** The only response that [_call_api] yields from its [except] clause. *)
Lemma _call_api_handler_response env i m u h d t to w r w' :
  _call_api env i m u h d t to w = Finished (Return (r, InHandler)) w' ->
  r = StreamResponse_init 403.
Proof.
  unfold _call_api, except_PlaywrightError.
  destruct (_call_api_try env i m u h d t to w) as [[[r0 k0]|e] w1|w1] eqn:E.
  - intros E'. inversion E'; subst.
    apply _call_api_try_suspended in E. destruct E as (? & ? & ?). discriminate.
  - destruct e; unfold ret; congruence.
  - discriminate.
Qed.

(** C9.  On the [StreamResponse(status=403)] that [_call_api] yields for a
    caught Playwright error, [read], [text], [json], [stop] and
    [iter_chunked] raise [StreamResponseException] at once: nothing is asked
    of the environment and the world is left as it was. *)
Theorem fault_response_operations_raise {ext : Externals}
    env i m u h d t to w r w' :
  _call_api env i m u h d t to w = Finished (Return (r, InHandler)) w' ->
  forall env' w0,
    read env' r w0
    = Finished (Raise (StreamResponseException "Cannot read, response is None"))
        w0
    /\ text env' r w0
       = Finished
           (Raise (StreamResponseException "Cannot read, response is None")) w0
    /\ json env' r w0
       = Finished
           (Raise (StreamResponseException "Cannot read, response is None")) w0
    /\ stop env' r w0
       = Finished (Raise (StreamResponseException "controller is None")) w0
    /\ iter_chunked r = Raise (StreamResponseException "response is None").
Proof.
  intros E env' w0. apply _call_api_handler_response in E. subst r.
  repeat split; reflexivity.
Qed.

Lemma fault_response_operations_raise_witness :
  iter_chunked (StreamResponse_init 403)
  = Raise (StreamResponseException "response is None").
Proof.
  exact (proj2 (proj2 (proj2 (proj2
    (fault_response_operations_raise (ext := Examples.externals)
       (Examples.upstream_with_unit (fun _ => Got 200%Z)
          (fun _ => Failed "Target closed"))
       0 "GET" "/backend-api/models" ∅ None None 10 Examples.one_session
       (StreamResponse_init 403)
       (log (AddCookies SESSION_TOKEN_KEY "" 0) Examples.one_session)
       eq_refl
       (Examples.upstream (fun _ => Got 200%Z)) Examples.one_session))))).
Defined.

(** ** C7: status 429 from the session endpoint *)

(** C7, as amended.  When the response to a request whose URL contains
    "/api/auth/session" has status 429, [_call_api] yields that response
    with its status set to 403 and raises nothing; the restart of the
    session ([init_page(restart=True)]) is handed to the event loop if the
    session is available at that moment, and not otherwise. *)
Theorem too_many_session_requests env i m u h d t to w w1 resp c w2 :
  install_session_token env i t w = Finished (Return tt) w1 ->
  fetch env i m u h d [] to w1 = Finished (Return (resp, c)) w2 ->
  status resp = 429%Z ->
  contains "/api/auth/session" u = true ->
  _call_api env i m u h d t to w
  = Finished (Return (set_status_code 403 resp, InFetch i c resp))
      (if available (nth i (sessions w2) (mkChatSession false false ""))
       then schedule (InitPage i true) w2
       else w2)
  /\ status (set_status_code 403 resp) = 403%Z.
Proof.
  intros E1 E2 S U. split; [|reflexivity].
  unfold _call_api, except_PlaywrightError, _call_api_try.
  rewrite (mbind_return _ _ _ _ _ E1), (mbind_return _ _ _ _ _ E2).
  unfold on_response. simpl. rewrite S, U. simpl.
  unfold mbind, get_status, get_session_state, mbind, ret.
  destruct (available _); reflexivity.
Qed.

Lemma too_many_session_requests_witness :
  _call_api (Examples.upstream (fun _ => Got 429%Z)) 0 "GET"
    "https://chat.openai.com/api/auth/session" ∅ None (Some "tok") 10
    Examples.one_session
  = Finished
      (Return
         (mkStreamResponse 403 ∅ (Some (JSHandle 1)) (Some (JSHandle 2)) 10,
          InFetch 0 (JSHandle 1)
            (mkStreamResponse 429 ∅ (Some (JSHandle 1)) (Some (JSHandle 2)) 10)))
      (mkWorld [mkChatSession true true ""] Examples.empty_manager None
         [InitPage 0 true]
         [AddCookies SESSION_TOKEN_KEY "tok" (-1); NewAbortController;
          TrackedFetch (JSHandle 1) "https://chat.openai.com/api/auth/session"
            "GET" ∅ None;
          EvalStatus (JSHandle 2); EvalHeaders (JSHandle 2)]).
Proof.
  exact (proj1 (too_many_session_requests
    (Examples.upstream (fun _ => Got 429%Z)) 0 "GET"
    "https://chat.openai.com/api/auth/session" ∅ None (Some "tok") 10
    Examples.one_session _ _ _ _ eq_refl eq_refl eq_refl eq_refl)).
Defined.

(** C7, as stated, fails: on a session that is not available the status
    is rewritten and the response yielded, but no restart is triggered. *)
Lemma too_many_session_requests_no_restart :
  let o :=
    _call_api (Examples.upstream (fun _ => Got 429%Z)) 0 "GET"
      "https://chat.openai.com/api/auth/session" ∅ None (Some "tok") 10
      Examples.one_session_unavailable in
  result_of o
  = Some (Return
            (mkStreamResponse 403 ∅ (Some (JSHandle 1)) (Some (JSHandle 2)) 10,
             InFetch 0 (JSHandle 1)
               (mkStreamResponse 429 ∅ (Some (JSHandle 1))
                  (Some (JSHandle 2)) 10)))
  /\ tasks (world_of o) = [].
Proof. split; reflexivity. Qed.

(** ** What a run leaves untouched *)

#[local] Instance extends_trace_frame : Frame extends_trace.
Proof.
  split.
  - split.
    + intros w. exists []. now rewrite app_nil_r.
    + intros w1 w2 w3 [l1 E1] [l2 E2]. exists (l1 ++ l2)%list.
      now rewrite E2, E1, <- app_assoc.
  - intros c w. now exists [c].
  - intros t w. exists []. simpl. now rewrite app_nil_r.
  - intros w cm f. exists []. simpl. now rewrite app_nil_r.
Qed.

#[local] Instance same_sessions_frame : Frame same_sessions.
Proof.
  split; [split|..]; unfold same_sessions; try easy.
  intros w1 w2 w3. congruence.
Qed.

Create HintDb preserves.

Ltac frame lem_bind :=
  repeat first
    [ solve [auto with preserves]
    | apply lem_bind; [|intros ?]
    | match goal with
      | |- preserves _ (if ?b then _ else _) => destruct b
      | |- preserves _ (match ?x with _ => _ end) => destruct x
      end ].

Section Preserves.
Context (R : World -> World -> Prop) `{!Frame R}.

Lemma preserves_pure {A} (r : result A) :
  preserves R (fun w => Finished r w).
Proof. intros w. simpl. reflexivity. Qed.

Lemma preserves_ret {A} (a : A) : preserves R (ret a).
Proof. apply preserves_pure. Qed.

Lemma preserves_raise {A} (e : exn) : preserves R (@raise A e).
Proof. apply preserves_pure. Qed.

Lemma preserves_mbind {A B} (m : M A) (k : A -> M B) :
  preserves R m -> (forall a, preserves R (k a)) -> preserves R (mbind m k).
Proof.
  intros Hm Hk w. unfold mbind. specialize (Hm w).
  destruct (m w) as [[a|e] w1|w1]; simpl in *; trivial.
  etransitivity; [exact Hm|apply Hk].
Qed.

Lemma preserves_except {A} (m : M A) (h : string -> M A) :
  preserves R m -> (forall msg, preserves R (h msg)) ->
  preserves R (except_PlaywrightError m h).
Proof.
  intros Hm Hh w. unfold except_PlaywrightError. specialize (Hm w).
  destruct (m w) as [[a|[]] w1|w1]; simpl in *; trivial.
  etransitivity; [exact Hm|apply Hh].
Qed.

Lemma preserves_get_session_state i : preserves R (get_session_state i).
Proof. intros w. simpl. reflexivity. Qed.

Lemma preserves_await {A} c (answer : nat -> reply A) :
  preserves R (await c answer).
Proof.
  intros w. unfold await. destruct (answer _); simpl; apply frame_log.
Qed.

Lemma preserves_ensure_future t : preserves R (ensure_future t).
Proof. intros w. apply frame_schedule. Qed.

Lemma preserves_delete c :
  preserves R (cookie_manager_delete_cf_clearance c).
Proof.
  intros w. unfold cookie_manager_delete_cf_clearance.
  destruct (delete_cf_clearance _ _ _) as [[r cm] f]. apply frame_manager.
Qed.

#[local] Hint Resolve preserves_pure preserves_ret preserves_raise
  preserves_mbind preserves_except preserves_get_session_state
  preserves_await preserves_ensure_future preserves_delete : preserves.

Lemma preserves_wait_for_headers env r c to :
  preserves R (wait_for_headers env r c to).
Proof.
  unfold wait_for_headers. destruct r as [h|]; [|auto with preserves].
  intros w.
  assert (P : preserves R
    (status <- await (EvalStatus h) (on_status env) ;;
     headers <- await (EvalHeaders h) (on_headers env) ;;
     ret (status, headers))) by frame @preserves_mbind.
  specialize (P w).
  destruct ((status <- await (EvalStatus h) (on_status env) ;;
             headers <- await (EvalHeaders h) (on_headers env) ;;
             ret (status, headers)) w) as [[[]|[]] w1|w1]; exact P.
Qed.

Lemma preserves_stop env r : preserves R (stop env r).
Proof. unfold stop. frame @preserves_mbind. Qed.

Lemma preserves_get_cookie env key : preserves R (get_cookie env key).
Proof. unfold get_cookie. frame @preserves_mbind. Qed.

#[local] Hint Resolve preserves_wait_for_headers preserves_stop
  preserves_get_cookie : preserves.

Lemma preserves_refresh env t r :
  preserves R (refresh_session_cookie env t r).
Proof. unfold refresh_session_cookie. frame @preserves_mbind. Qed.

#[local] Hint Resolve preserves_refresh : preserves.

Lemma preserves_fetch env i m u h d to :
  preserves R (fetch env i m u h d [] to).
Proof.
  unfold fetch. cbn [length Nat.eqb negb]. frame @preserves_mbind.
Qed.

Lemma preserves_on_response env i u t c resp :
  preserves R (on_response env i u t c resp).
Proof. unfold on_response, get_status. frame @preserves_mbind. Qed.

(** [_call_api] after its first statement. *)
Lemma preserves_request env i m u h d t to :
  preserves R
    (rc <- fetch env i m u h d [] to ;;
     on_response env i u t (snd rc) (fst rc)).
Proof.
  apply preserves_mbind; [apply preserves_fetch|].
  intros rc. apply preserves_on_response.
Qed.

End Preserves.

#[local] Hint Resolve preserves_pure preserves_ret preserves_raise
  preserves_mbind preserves_except preserves_get_session_state
  preserves_await preserves_ensure_future preserves_delete
  preserves_wait_for_headers preserves_stop preserves_get_cookie
  preserves_refresh preserves_fetch preserves_on_response preserves_request
  extends_trace_frame same_sessions_frame : preserves.

(** The trace only grows, whatever is run. *)

Lemma extends_update_session i f : preserves extends_trace (update_session i f).
Proof. intros w. exists []. simpl. now rewrite app_nil_r. Qed.

#[local] Hint Resolve extends_update_session : preserves.

Lemma extends_install env i t :
  preserves extends_trace (install_session_token env i t).
Proof.
  unfold install_session_token, set_running, set_cookie.
  frame (@preserves_mbind extends_trace _).
Qed.

Lemma extends__call_api env i m u h d t to :
  preserves extends_trace (_call_api env i m u h d t to).
Proof.
  unfold _call_api, _call_api_try.
  apply (@preserves_except extends_trace _); [|auto with preserves].
  apply (@preserves_mbind extends_trace _); [apply extends_install|].
  intros _. apply (@preserves_request extends_trace _).
Qed.

Lemma extends__call_api_exit env k :
  preserves extends_trace (_call_api_exit env k).
Proof.
  unfold _call_api_exit, fetch_exit, set_running. destruct k.
  - apply (@preserves_except extends_trace _); [|auto with preserves].
    frame (@preserves_mbind extends_trace _).
  - auto with preserves.
Qed.

Lemma extends_choice env l d : preserves extends_trace (choice env l d).
Proof. intros w. simpl. now eexists. Qed.

Lemma extends_sleep env n : preserves extends_trace (sleep env n).
Proof. intros w. simpl. now eexists. Qed.

#[local] Hint Resolve extends_install extends__call_api extends__call_api_exit
  extends_choice extends_sleep : preserves.

Lemma extends_get_sessions : preserves extends_trace get_sessions.
Proof. intros w. simpl. exists []. now rewrite app_nil_r. Qed.

#[local] Hint Resolve extends_get_sessions : preserves.

Lemma extends_get_session env fuel :
  preserves extends_trace (get_session env fuel).
Proof.
  induction fuel as [|fuel IH]; cbn [get_session].
  - apply (@preserves_mbind extends_trace _); [auto with preserves|].
    intros [|s0 l]; auto with preserves.
  - apply (@preserves_mbind extends_trace _); [auto with preserves|].
    intros [|s0 l]; [|auto with preserves].
    apply (@preserves_mbind extends_trace _); [auto with preserves|].
    intros _. exact IH.
Qed.

#[local] Hint Resolve extends_get_session : preserves.

Lemma extends_call_api {ext : Externals} env fuel :
  forall m u h d t first,
    preserves extends_trace (call_api env fuel m u h d t first).
Proof.
  induction fuel as [|fuel IH]; intros m u h d t first; cbn [call_api];
    frame (@preserves_mbind extends_trace _).
Qed.

(** ** Strings *)

Lemma append_cons (a : ascii) (s t : string) :
  String a s ++ t = String a (s ++ t).
Proof. reflexivity. Qed.

Lemma startswith_spec s p : startswith s p = true <-> exists q, s = p ++ q.
Proof.
  unfold startswith. revert s.
  induction p as [|a p IH]; intros s.
  - destruct s; simpl; split; eauto.
  - destruct s as [|b s]; simpl.
    + split; [discriminate|]. intros [q E]. rewrite append_cons in E.
      discriminate.
    + destruct (ascii_dec a b) as [->|N].
      * rewrite IH.
        split; intros [q E]; exists q; rewrite append_cons in *; congruence.
      * split; [discriminate|]. intros [q E]. rewrite append_cons in E.
        congruence.
Qed.

Lemma string_length_append a b :
  String.length (a ++ b) = (String.length a + String.length b)%nat.
Proof.
  induction a; [reflexivity|]. rewrite append_cons. simpl. congruence.
Qed.

Lemma substring_whole s : substring 0 (String.length s) s = s.
Proof. induction s; simpl; congruence. Qed.

Lemma substring_append_tail q p :
  substring (String.length q) (String.length p) (q ++ p) = p.
Proof.
  induction q; [apply substring_whole|]. rewrite append_cons. assumption.
Qed.

Lemma substring_split n s :
  (n <= String.length s)%nat ->
  s = substring 0 n s ++ substring n (String.length s - n) s.
Proof.
  revert s. induction n as [|n IH]; intros s L.
  - rewrite Nat.sub_0_r, substring_whole. now destruct s.
  - destruct s as [|c s]; simpl in *; [lia|].
    rewrite append_cons. f_equal. apply IH. lia.
Qed.

Lemma endswith_spec s p : endswith s p = true <-> exists q, s = q ++ p.
Proof.
  unfold endswith. rewrite andb_true_iff, Nat.leb_le, String.eqb_eq. split.
  - intros [L E]. exists (substring 0 (String.length s - String.length p) s).
    pose proof (substring_split (String.length s - String.length p) s
                  ltac:(lia)) as Sp.
    replace (String.length s - (String.length s - String.length p))%nat
      with (String.length p) in Sp by lia.
    now rewrite E in Sp.
  - intros [q ->]. rewrite string_length_append. split; [lia|].
    replace (String.length q + String.length p - String.length p)%nat
      with (String.length q) by lia.
    apply substring_append_tail.
Qed.

(** ** C5 and C2: [call_api] *)

Lemma truthy_spec s : truthy s = true <-> s <> "".
Proof. destruct s; simpl; split; congruence. Qed.

Lemma truthy_opt_spec o :
  truthy_opt o = true <-> exists s, o = Some s /\ s <> "".
Proof.
  destruct o as [s|]; simpl.
  - rewrite truthy_spec. split; [eauto|]. intros (s' & E & N). congruence.
  - split; [discriminate|]. intros (s' & E & _). discriminate.
Qed.

Lemma truthy_opt_false o :
  truthy_opt o = false <-> forall s, o = Some s -> s = "".
Proof.
  destruct o as [[|c s]|]; simpl.
  - split; [|reflexivity]. intros _ s' E. congruence.
  - split; [discriminate|]. intros E. specialize (E _ eq_refl). discriminate.
  - split; [|reflexivity]. intros _ s' E. discriminate.
Qed.

Lemma kept_session_token_attaches path h t :
  attaches path h t ->
  exists tok, t = Some tok /\ tok <> "" /\ kept_session_token path h t = Some tok.
Proof.
  intros ((tok & -> & N) & A & P). exists tok. split; [reflexivity|split; [assumption|]].
  unfold kept_session_token.
  apply truthy_opt_false in A. rewrite A.
  assert (T : truthy_opt (Some tok) = true) by (apply truthy_opt_spec; eauto).
  rewrite T. simpl.
  rewrite <- !endswith_spec, <- !startswith_spec in P.
  destruct P as [P|[P|[P|[P|P]]]]; rewrite P; rewrite ?orb_true_r; reflexivity.
Qed.

Lemma kept_session_token_drops path h t :
  ~ attaches path h t -> kept_session_token path h t = None.
Proof.
  intros N. unfold kept_session_token.
  destruct (truthy_opt t) eqn:T; [|reflexivity].
  destruct (truthy_opt (h !! "authorization")) eqn:A; [reflexivity|].
  destruct (endswith path "/" || endswith path "session"
            || startswith path "/_next/data" || startswith path "/c/"
            || startswith path "/api/auth/callback/auth0") eqn:P;
    [|reflexivity].
  exfalso. apply N. split; [|split].
  - now apply truthy_opt_spec.
  - now apply truthy_opt_false.
  - rewrite !orb_true_iff in P.
    rewrite <- !endswith_spec, <- !startswith_spec. tauto.
Qed.

Lemma kept_session_token_idem path h t :
  kept_session_token path h (kept_session_token path h t)
  = kept_session_token path h t.
Proof.
  unfold kept_session_token.
  destruct (truthy_opt (h !! "authorization")),
    (endswith path "/" || endswith path "session"
     || startswith path "/_next/data" || startswith path "/c/"
     || startswith path "/api/auth/callback/auth0");
    now destruct t as [[|c s]|].
Qed.

(** The first call of [_call_api] *)
Lemma install_session_token_trace env i t w :
  trace (world_of (install_session_token env i t w))
  = (trace w ++
     [if truthy_opt t then AddCookies SESSION_TOKEN_KEY (default "" t) (-1)
      else AddCookies SESSION_TOKEN_KEY "" 0])%list.
Proof.
  unfold install_session_token, set_running, update_session, set_cookie, mbind,
    await.
  destruct (truthy_opt t); simpl; destruct (on_unit env _); reflexivity.
Qed.

Lemma world_of_mbind R `{!PreOrder R} {A B} (m : M A) (k : A -> M B) w :
  (forall a, preserves R (k a)) ->
  R (world_of (m w)) (world_of (mbind m k w)).
Proof.
  intros Hk. unfold mbind. destruct (m w) as [[a|e] w1|w1]; simpl;
    try reflexivity. apply Hk.
Qed.

Lemma world_of_except R `{!PreOrder R} {A} (m : M A) h w :
  (forall msg, preserves R (h msg)) ->
  R (world_of (m w)) (world_of (except_PlaywrightError m h w)).
Proof.
  intros Hh. unfold except_PlaywrightError.
  destruct (m w) as [[a|[]] w1|w1]; simpl; try reflexivity. apply Hh.
Qed.

Lemma lookup_extends w w' n c :
  extends_trace w w' -> trace w !! n = Some c -> trace w' !! n = Some c.
Proof. intros [l ->] E. now apply lookup_app_l_Some. Qed.

Lemma _call_api_first_call env i m u h d t to w :
  trace (world_of (_call_api env i m u h d t to w)) !! length (trace w)
  = Some (if truthy_opt t then AddCookies SESSION_TOKEN_KEY (default "" t) (-1)
          else AddCookies SESSION_TOKEN_KEY "" 0).
Proof.
  unfold _call_api, _call_api_try.
  eapply lookup_extends.
  { etransitivity; [|apply (world_of_except extends_trace)].
    - apply (world_of_mbind extends_trace). intros _.
      apply (@preserves_request extends_trace _).
    - intros msg. apply (@preserves_ret extends_trace _). }
  rewrite install_session_token_trace.
  rewrite lookup_app_r by lia. now rewrite Nat.sub_diag.
Qed.

(** A higher limit does not change a run that has returned. *)
Lemma get_session_more_fuel env fuel :
  forall w i w',
    get_session env fuel w = Finished (Return i) w' ->
    get_session env (S fuel) w = Finished (Return i) w'.
Proof.
  induction fuel as [|fuel IH]; intros w i w'.
  - cbn [get_session]. unfold mbind, get_sessions, sleep, raise.
    destruct (selectable (sessions w)); [discriminate|trivial].
  - intros E. cbn [get_session] in E |- *. unfold mbind, get_sessions in E |- *.
    destruct (selectable (sessions w)); [|exact E].
    unfold sleep in E |- *. apply IH in E. exact E.
Qed.

Section Pool.
Context {ext : Externals} (env : Env).

Lemma call_api_kept fuel m u h d t path w :
  urlsplit_path u = Return path ->
  call_api env fuel m u h d (kept_session_token path h t) false w
  = call_api env fuel m u h d t false w.
Proof.
  intros U. destruct fuel as [|fuel]; cbn [call_api]; unfold mbind.
  all: destruct (get_session env _ w) as [[i|e] w1|w1]; try reflexivity.
  all: rewrite U, kept_session_token_idem; reflexivity.
Qed.

(** [call_api] starts with [attempt]; the second call, made with the
    token as the first call has kept it, is the call with the token as
    given. *)
Lemma call_api_unfold fuel m u h d t first w :
  call_api env fuel m u h d t first w =
  match attempt env fuel m u h d t w with
  | Finished (Return (resp, k)) w1 =>
      if (status resp =? 403)%Z then
        if negb first then Finished (Return (set_status_code 499 resp, k)) w1
        else
          match _call_api_exit env k w1 with
          | Finished (Return _) w2 =>
              match fuel with
              | O => Finished (Raise RecursionError) w2
              | S fuel' => call_api env fuel' m u h d t false w2
              end
          | Finished (Raise e) w2 => Finished (Raise e) w2
          | Pending w2 => Pending w2
          end
      else Finished (Return (resp, k)) w1
  | Finished (Raise e) w1 => Finished (Raise e) w1
  | Pending w1 => Pending w1
  end.
Proof.
  destruct fuel as [|fuel]; cbn [call_api]; unfold attempt, mbind.
  all: destruct (get_session env _ w) as [[i|e] w1|w1]; try reflexivity.
  all: destruct (urlsplit_path u) as [path|e] eqn:U; [|reflexivity].
  all: destruct (_call_api env i m u h d _ 10 w1) as [[[resp k]|e] w2|w2];
    try reflexivity.
  all: destruct (status resp =? 403)%Z; [|reflexivity].
  all: destruct first; [|reflexivity]; simpl.
  all: destruct (_call_api_exit env k w2) as [[[]|e] w3|w3]; try reflexivity.
  now apply call_api_kept.
Qed.

Lemma call_api_never_403 fuel :
  forall m u h d t first w r k w',
    call_api env fuel m u h d t first w = Finished (Return (r, k)) w' ->
    status r <> 403%Z.
Proof.
  assert (Base : forall fuel m u h d t w r k w',
             call_api env fuel m u h d t false w = Finished (Return (r, k)) w' ->
             status r <> 403%Z).
  { intros f m u h d t w r k w' E. rewrite call_api_unfold in E.
    destruct (attempt env f m u h d t w) as [[[resp k0]|e] w1|w1];
      try discriminate.
    destruct (status resp =? 403)%Z eqn:S; simpl in E.
    - inversion E; subst. simpl. discriminate.
    - inversion E; subst. now apply Z.eqb_neq. }
  intros m u h d t first w r k w' E. destruct first; [|now apply Base in E].
  rewrite call_api_unfold in E.
  destruct (attempt env fuel m u h d t w) as [[[resp k0]|e] w1|w1];
    try discriminate.
  destruct (status resp =? 403)%Z eqn:S; simpl in E.
  - destruct (_call_api_exit env k0 w1) as [[[]|e] w2|w2]; try discriminate.
    destruct fuel as [|fuel]; [discriminate|]. now apply Base in E.
  - inversion E; subst. now apply Z.eqb_neq.
Qed.


(** C5, as amended.  The first call that [call_api] makes of the browser
    after it has chosen a session sets the session cookie to the token
    given if the token is not empty, the headers have no non-empty value
    under the key "authorization" and the path ends with "/" or "session"
    or starts with "/_next/data", "/c/" or "/api/auth/callback/auth0";
    in every other case it clears the session cookie. *)
Theorem token_attachment fuel m u h d t first w i w1 path :
  get_session env fuel w = Finished (Return i) w1 ->
  urlsplit_path u = Return path ->
  let calls := trace (world_of (call_api env (S fuel) m u h d t first w)) in
  (attaches path h t ->
   exists tok, t = Some tok
     /\ calls !! length (trace w1)
        = Some (AddCookies SESSION_TOKEN_KEY tok (-1)))
  /\ (~ attaches path h t ->
      calls !! length (trace w1) = Some (AddCookies SESSION_TOKEN_KEY "" 0)).
Proof.
  intros G U calls.
  assert (C : calls !! length (trace w1)
              = Some (if truthy_opt (kept_session_token path h t)
                      then AddCookies SESSION_TOKEN_KEY
                             (default "" (kept_session_token path h t)) (-1)
                      else AddCookies SESSION_TOKEN_KEY "" 0)).
  { subst calls. cbn [call_api]. unfold mbind at 1.
    rewrite (get_session_more_fuel _ _ _ _ _ G).
    unfold mbind at 1. rewrite U. cbv zeta.
    eapply lookup_extends; [|apply _call_api_first_call].
    apply (world_of_mbind extends_trace). intros [resp k].
    frame (@preserves_mbind extends_trace _).
    apply extends_call_api. }
  split.
  - intros A. apply kept_session_token_attaches in A.
    destruct A as (tok & -> & N & K). exists tok. split; [reflexivity|].
    rewrite C, K. simpl. apply truthy_spec in N. now rewrite N.
  - intros N. apply kept_session_token_drops in N. now rewrite C, N.
Qed.

End Pool.



(** Scenario: both contexts answer 403; the caller sees 499, after two
    fetches and no more. *)
Lemma retry_exhausted :
  let o :=
    call_api (ext := Examples.externals)
      (Examples.upstream (fun _ => Got 403%Z)) 5 "GET" "/c/5" ∅ None
      (Some "tok") true Examples.one_session in
  match result_of o with
  | Some (Return (resp, _)) => status resp = 499%Z
  | _ => False
  end
  /\ List.filter
       (fun c => match c with TrackedFetch _ _ _ _ _ => true | _ => false end)
       (trace (world_of o))
     = [TrackedFetch (JSHandle 2) "/c/5" "GET" ∅ None;
        TrackedFetch (JSHandle 12) "/c/5" "GET" ∅ None].
Proof. split; vm_compute; reflexivity. Qed.

(** Scenario: the path "/c/123" without "authorization" header. *)
Lemma token_attachment_witness :
  exists tok, Some "tok" = Some tok
    /\ trace (world_of
         (call_api (ext := Examples.externals)
            (Examples.upstream (fun _ => Got 200%Z)) 1 "GET" "/c/123" ∅ None
            (Some "tok") true Examples.one_session)) !! 1%nat
       = Some (AddCookies SESSION_TOKEN_KEY tok (-1)).
Proof.
  refine (proj1 (token_attachment (ext := Examples.externals)
            (Examples.upstream (fun _ => Got 200%Z)) 0 "GET" "/c/123" ∅ None
            (Some "tok") true Examples.one_session 0
            (log (RandomChoice 1) Examples.one_session) "/c/123"
            eq_refl eq_refl) _).
  split; [|split].
  - exists "tok". split; [reflexivity|discriminate].
  - intros v E. discriminate.
  - right. right. right. left. now exists "123".
Defined.

(** Scenario: the path "/api/models" with an "authorization" header. *)
Lemma token_dropped_with_authorization :
  trace (world_of
    (call_api (ext := Examples.externals)
       (Examples.upstream (fun _ => Got 200%Z)) 1 "GET" "/api/models"
       {["authorization" := "Bearer x"]} None (Some "tok") true
       Examples.one_session)) !! 1%nat
  = Some (AddCookies SESSION_TOKEN_KEY "" 0).
Proof. reflexivity. Qed.

(** C5, as stated, fails: an "authorization" entry whose value is empty is
    an entry of the headers, and the token is attached all the same. *)
Lemma token_attached_despite_authorization_entry :
  ({["authorization" := ""]} : gmap string string) !! "authorization" = Some ""
  /\ trace (world_of
       (call_api (ext := Examples.externals)
          (Examples.upstream (fun _ => Got 200%Z)) 1 "GET" "/c/123"
          {["authorization" := ""]} None (Some "tok") true
          Examples.one_session)) !! 1%nat
     = Some (AddCookies SESSION_TOKEN_KEY "tok" (-1)).
Proof. split; reflexivity. Qed.

(** ** C3: the busy flag *)

Lemma selectable_spec ss j :
  In j (selectable ss) <->
  exists s, ss !! j = Some s /\ available s = true /\ running s = false.
Proof.
  unfold selectable. rewrite filter_In, in_seq, andb_true_iff, negb_true_iff.
  split.
  - intros ((_ & L) & A & N). simpl in L.
    destruct (lookup_lt_is_Some_2 ss j L) as [s E].
    exists s. rewrite (nth_lookup_Some _ _ _ _ E) in A, N. auto.
  - intros (s & E & A & N). pose proof (lookup_lt_Some _ _ _ E).
    rewrite (nth_lookup_Some _ _ _ _ E). repeat split; auto with lia.
Qed.

Lemma install_session_token_sessions env i t w :
  sessions (world_of (install_session_token env i t w))
  = if truthy_opt t then mark_running i true (sessions w) else sessions w.
Proof.
  unfold install_session_token, set_running, update_session, set_cookie, mbind,
    await.
  destruct (truthy_opt t); simpl; destruct (on_unit env _); reflexivity.
Qed.

(** The sessions while the request is in flight. *)
Lemma _call_api_sessions env i m u h d t to w :
  sessions (world_of (_call_api env i m u h d t to w))
  = if truthy_opt t then mark_running i true (sessions w) else sessions w.
Proof.
  rewrite <- (install_session_token_sessions env i t w).
  unfold _call_api, _call_api_try.
  change (same_sessions
            (world_of (install_session_token env i t w))
            (world_of
               (except_PlaywrightError
                  (mbind (install_session_token env i t)
                     (fun _ =>
                        mbind (fetch env i m u h d [] to)
                          (fun rc => on_response env i u t rc.2 rc.1)))
                  (fun _ => ret (StreamResponse_init 403, InHandler)) w))).
  etransitivity; [|apply (world_of_except same_sessions)].
  - apply (world_of_mbind same_sessions). intros _.
    apply (@preserves_request same_sessions _).
  - intros msg. apply (@preserves_ret same_sessions _).
Qed.

(** The sessions after the request has wound up. *)
Lemma _call_api_exit_sessions env i c resp w :
  sessions (world_of (_call_api_exit env (InFetch i c resp) w))
  = mark_running i false (sessions w).
Proof.
  unfold _call_api_exit, fetch_exit.
  change (mark_running i false (sessions w))
    with (sessions (world_of (set_running i false w))).
  change (same_sessions (world_of (set_running i false w))
            (world_of
               (except_PlaywrightError
                  (mbind (set_running i false)
                     (fun _ =>
                        mbind (await (DecrementFetchCounter c) (on_unit env))
                          (fun _ => stop env resp)))
                  (fun _ => raise (RuntimeError "generator didn't stop")) w))).
  etransitivity; [|apply (world_of_except same_sessions)].
  - apply (world_of_mbind same_sessions). intros _.
    frame (@preserves_mbind same_sessions _).
  - intros msg. apply (@preserves_raise same_sessions _).
Qed.

Lemma mark_running_lookup i b ss s :
  ss !! i = Some s ->
  mark_running i b ss !! i
  = Some (mkChatSession (available s) b (session_cf_clearance s)).
Proof.
  intros E. unfold mark_running. rewrite list_lookup_alter_eq, E. reflexivity.
Qed.



(** A request without session token does not mark its session: while it
    is in flight the pool selects the same session again and a second
    fetch is issued on it, before the first has wound up. *)
Lemma second_request_while_first_in_flight :
  let env := Examples.upstream (fun _ => Got 200%Z) in
  let headers : gmap string string := {["authorization" := "Bearer x"]} in
  let first_in_flight :=
    world_of
      (call_api (ext := Examples.externals) env 1 "GET" "/backend-api/models"
         headers None (Some "tok") true Examples.one_session) in
  let both_in_flight :=
    world_of
      (call_api (ext := Examples.externals) env 1 "GET"
         "/backend-api/conversations" headers None (Some "tok") true
         first_in_flight) in
  selectable (sessions first_in_flight) = [0%nat]
  /\ trace both_in_flight
     = [RandomChoice 1; AddCookies SESSION_TOKEN_KEY "" 0; NewAbortController;
        TrackedFetch (JSHandle 2) "/backend-api/models" "GET" headers None;
        EvalStatus (JSHandle 3); EvalHeaders (JSHandle 3);
        RandomChoice 1; AddCookies SESSION_TOKEN_KEY "" 0; NewAbortController;
        TrackedFetch (JSHandle 8) "/backend-api/conversations" "GET" headers
          None;
        EvalStatus (JSHandle 9); EvalHeaders (JSHandle 9)].
Proof. split; reflexivity. Qed.


(** ** C6: how the iteration over the chunks ends *)

(** [read] asks for a reader at most once and for one chunk at most; it
    disposes of nothing, keeps the response, and has a reader when it
    returns. *)
Lemma it_read_spec env self w o self1 :
  it_read env self w = (o, self1) ->
  it_response self1 = it_response self
  /\ (exists l, trace (world_of o) = (trace w ++ l)%list /\ Forall is_read l)
  /\ (forall r w1, o = Finished (Return r) w1 ->
        exists rd, reader self1 = Some rd).
Proof.
  unfold it_read, read_chunk, await. intros E.
  destruct (reader self) as [rd|] eqn:Rd.
  - destruct (on_chunk env _) as [[done v]|msg| |];
      inversion E; subst; clear E; simpl;
      (split; [reflexivity|split; [eexists; split; [reflexivity|]|]]);
      try (repeat constructor); eauto; intros; discriminate.
  - destruct (on_handle env _) as [hd|msg| |]; simpl in E.
    + destruct (on_chunk env _) as [[done v]|msg| |];
        inversion E; subst; clear E; simpl;
        (split; [reflexivity|split;
          [exists [GetReader (it_response self); ReaderRead (JSHandle hd)];
           split; [now rewrite <- app_assoc|repeat constructor]|]]);
        eauto; intros; discriminate.
    + inversion E; subst; simpl.
      split; [reflexivity|split; [eexists; split; [reflexivity|]|]].
      * repeat constructor.
      * intros; discriminate.
    + inversion E; subst; simpl.
      split; [reflexivity|split; [eexists; split; [reflexivity|]|]].
      * repeat constructor.
      * intros; discriminate.
    + inversion E; subst; simpl.
      split; [reflexivity|split; [eexists; split; [reflexivity|]|]].
      * repeat constructor.
      * intros; discriminate.
Qed.

Lemma anext_spec env self w o self1 :
  __anext__ env self w = (o, self1) ->
  it_response self1 = it_response self
  /\ match o with
     | Finished (Return _) w1 =>
         exists l, trace w1 = (trace w ++ l)%list /\ Forall is_read l
     | Finished (Raise StopAsyncIteration) w1 =>
         reads_then_disposes (it_response self) w w1
     | _ => True
     end.
Proof.
  unfold __anext__. destruct (it_read env self w) as [o' self'] eqn:E.
  apply it_read_spec in E. destruct E as (R & (l & T & L) & D).
  destruct o' as [[[done data]|e] w0|w0]; simpl in *.
  - destruct done.
    + destruct (D _ _ eq_refl) as [rd Rd]. rewrite R, Rd. simpl.
      destruct (is_JSHandle (it_response self)).
      * unfold mbind, await, raise.
        destruct (on_unit env (length (trace w0))) as [[]|?| |]; simpl.
        2-4: intros X; inversion X; subst; split; [exact R|exact I].
        destruct (on_unit env _) as [[]|?| |]; simpl.
        2-4: intros X; inversion X; subst; split; [exact R|exact I].
        intros X. inversion X; subst. split; [exact R|].
        exists l. split; [exact L|]. right. exists rd. simpl. rewrite T.
        now rewrite <- !app_assoc.
      * unfold mbind, ret, raise. intros X. inversion X; subst.
        split; [exact R|]. exists l. split; [exact L|]. now left.
    + intros X. inversion X; subst. split; [exact R|].
      exists l. split; [exact T|exact L].
  - destruct e; intros X; inversion X; subst; (split; [exact R|]); trivial.
    all: exists l; split; [exact L|]; now left.
  - intros X. inversion X; subst. split; [exact R|].
    exists l. split; [exact L|]. now left.
Qed.

Lemma async_for_spec env n :
  forall self chunks w chunks' w' self',
    async_for env n self chunks w = (Finished (Return chunks') w', self') ->
    reads_then_disposes (it_response self) w w'.
Proof.
  induction n as [|n IH]; intros self chunks w chunks' w' self' E;
    [discriminate|].
  cbn [async_for] in E.
  destruct (__anext__ env self w) as [o self1] eqn:A.
  apply anext_spec in A. destruct A as (R & A).
  destruct o as [[data|e] w1|w1]; [| |discriminate].
  - apply IH in E. rewrite R in E.
    destruct A as (l1 & T1 & L1). destruct E as (l2 & L2 & E).
    exists (l1 ++ l2)%list. split; [now apply Forall_app|].
    destruct E as [E|[rd E]]; [left|right; exists rd]; rewrite E, T1;
      now rewrite <- !app_assoc.
  - destruct e; try discriminate. inversion E; subst. exact A.
Qed.

Lemma async_for_stop env n self chunks w w1 self1 :
  __anext__ env self w = (Finished (Raise StopAsyncIteration) w1, self1) ->
  async_for env (S n) self chunks w = (Finished (Return chunks) w1, self1).
Proof. intros E. cbn [async_for]. now rewrite E. Qed.

(** The two ends of an iteration.  A read that is not answered within the
    time allowed and the end of the stream both end the iteration as an
    end of sequence ([StopAsyncIteration]; the [async for] loop returns).
    At the end of the stream the response, if it is a [JSHandle], and the
    reader are each disposed of once, provided the two calls of [dispose]
    succeed.  A time-out disposes of nothing.  Over a whole iteration that
    ends, the calls made are reads, followed at most once by the two
    disposals. *)
Theorem chunk_iteration_end env self w :
  (forall w1 self1,
      it_read env self w = (Pending w1, self1) ->
      __anext__ env self w = (Finished (Raise StopAsyncIteration) w1, self1)
      /\ (forall n chunks,
             async_for env (S n) self chunks w
             = (Finished (Return chunks) w1, self1))
      /\ exists l, trace w1 = (trace w ++ l)%list /\ Forall is_read l)
  /\ (forall w1 self1 data,
         it_read env self w = (Finished (Return (true, data)) w1, self1) ->
         is_JSHandle (it_response self) = true ->
         on_unit env (length (trace w1)) = Got tt ->
         on_unit env (S (length (trace w1))) = Got tt ->
         exists rd w2,
           reader self1 = Some rd
           /\ __anext__ env self w
              = (Finished (Raise StopAsyncIteration) w2, self1)
           /\ (forall n chunks,
                  async_for env (S n) self chunks w
                  = (Finished (Return chunks) w2, self1))
           /\ exists l,
               trace w2
               = (trace w ++ l ++ [Dispose (it_response self); Dispose rd])%list
               /\ Forall is_read l)
  /\ (forall n chunks chunks' w' self',
         async_for env n self chunks w = (Finished (Return chunks') w', self') ->
         reads_then_disposes (it_response self) w w').
Proof.
  split; [|split; [|intros n chunks chunks' w' self'; apply async_for_spec]].
  - intros w1 self1 E.
    assert (A : __anext__ env self w
                = (Finished (Raise StopAsyncIteration) w1, self1)).
    { unfold __anext__. now rewrite E. }
    split; [exact A|split].
    + intros n chunks. now apply async_for_stop.
    + apply it_read_spec in E. now destruct E as (_ & L & _).
  - intros w1 self1 data E J U1 U2.
    destruct (it_read_spec _ _ _ _ _ E) as (R & (l & T & L) & D).
    destruct (D _ _ eq_refl) as [rd Rd]. simpl in T.
    exists rd, (log (Dispose rd) (log (Dispose (it_response self)) w1)).
    assert (A : __anext__ env self w
                = (Finished (Raise StopAsyncIteration)
                     (log (Dispose rd) (log (Dispose (it_response self)) w1)),
                   self1)).
    { unfold __anext__. rewrite E. simpl. rewrite R, J, Rd. simpl.
      unfold mbind, await. rewrite U1. rewrite length_trace_log, U2.
      reflexivity. }
    split; [exact Rd|split; [exact A|split]].
    + intros n chunks. now apply async_for_stop.
    + exists l. split; [|exact L]. simpl. rewrite T.
      now rewrite <- !app_assoc.
Qed.

Lemma chunk_iteration_end_witness :
  async_for (Examples.stream (fun _ => Failed "Array.from(undefined)")) 3
    (mkAsyncStreamIterator (JSHandle 7) 30 None) [] Examples.one_session
  = (Finished (Return [])
       (mkWorld [mkChatSession true false ""] Examples.empty_manager None []
          [GetReader (JSHandle 7); ReaderRead (JSHandle 100);
           Dispose (JSHandle 7); Dispose (JSHandle 100)]),
     mkAsyncStreamIterator (JSHandle 7) 30 (Some (JSHandle 100))).
Proof.
  destruct (proj1 (proj2 (chunk_iteration_end
              (Examples.stream (fun _ => Failed "Array.from(undefined)"))
              (mkAsyncStreamIterator (JSHandle 7) 30 None)
              Examples.one_session))
              (log (ReaderRead (JSHandle 100))
                 (log (GetReader (JSHandle 7)) Examples.one_session))
              (mkAsyncStreamIterator (JSHandle 7) 30 (Some (JSHandle 100)))
              [] eq_refl eq_refl eq_refl eq_refl)
    as (rd & w2 & Rd & A & F & _).
  rewrite (F 2%nat []). unfold __anext__ in A. simpl in A.
  inversion A. reflexivity.
Defined.

(** C6 at a stream that does not answer in time: the iteration ends as an
    end of sequence, and neither the response nor the reader has been
    disposed of, where the branch for the end of the stream disposes of
    both; iterating again, with a second time-out, changes nothing in
    that. *)
Lemma timeout_disposes_nothing :
  let env := Examples.stream (fun _ => Late) in
  let it := mkAsyncStreamIterator (JSHandle 7) 30 None in
  let once := async_for env 3 it [] Examples.one_session in
  let twice := async_for env 3 (snd once) [] (world_of (fst once)) in
  result_of (fst once) = Some (Return [])
  /\ result_of (fst twice) = Some (Return [])
  /\ trace (world_of (fst twice))
     = [GetReader (JSHandle 7); ReaderRead (JSHandle 100);
        ReaderRead (JSHandle 100)]
  /\ disposals (JSHandle 7) (trace (world_of (fst twice))) = 0%nat
  /\ disposals (JSHandle 100) (trace (world_of (fst twice))) = 0%nat.
Proof. repeat split; reflexivity. Qed.

(** ** The credential store *)

Lemma keys_empty (d : gmap string Entry) : keys d = [] <-> d = ∅.
Proof.
  unfold keys. rewrite <- map_to_list_empty_iff.
  destruct (map_to_list d); simpl; split; congruence.
Qed.

Lemma random_choice_lookup (d : gmap string Entry) r k0 l :
  keys d = k0 :: l ->
  exists e, d !! random_choice r (keys d) k0 = Some e.
Proof.
  intros K. unfold random_choice.
  assert (I : In (nth (r mod length (keys d)) (keys d) k0) (keys d)).
  { apply nth_In. apply Nat.mod_upper_bound. rewrite K. simpl. lia. }
  apply list_elem_of_In in I. unfold keys in I at 3.
  apply list_elem_of_fmap in I. destruct I as ([k e] & E & I).
  apply elem_of_map_to_list in I. simpl in E. rewrite E. eauto.
Qed.

Lemma get_entry_found now key (d : gmap string Entry) e :
  d !! key = Some e ->
  get_entry now key d
  = if expired now e then (None, delete key d) else (value e, d).
Proof. intros E. unfold get_entry. now rewrite E. Qed.

(** One call of the property, the dictionary not being empty: a stored
    entry is looked at; its value is returned if it is not expired and its
    value is not empty; otherwise the property calls itself, if it still
    can, with the entry deleted if it is expired and with the dictionary
    as it is if not. *)
Lemma random_valid_step limit rnd clk i (d : gmap string Entry) :
  d <> ∅ ->
  exists key e,
    d !! key = Some e
    /\ random_valid limit rnd clk i d
       = if expired (clk i) e
         then match limit with
              | O => (Raise RecursionError, delete key d)
              | S limit' => random_valid limit' rnd clk (S i) (delete key d)
              end
         else if truthy_opt (value e) then (Return (default "" (value e)), d)
              else match limit with
                   | O => (Raise RecursionError, d)
                   | S limit' => random_valid limit' rnd clk (S i) d
                   end.
Proof.
  intros N.
  destruct (keys d) as [|k0 l] eqn:K; [now apply keys_empty in K|].
  destruct (random_choice_lookup d (rnd i) k0 l K) as [e E].
  exists (random_choice (rnd i) (keys d) k0), e. split; [exact E|].
  destruct limit; cbn [random_valid]; rewrite K; rewrite <- K;
    rewrite (get_entry_found _ _ _ _ E);
    destruct (expired (clk i) e); reflexivity.
Qed.

Lemma random_valid_empty limit rnd clk i :
  random_valid limit rnd clk i (∅ : gmap string Entry) = (Return "", ∅).
Proof. now destruct limit. Qed.

Lemma size_delete_lt (d : gmap string Entry) key e :
  d !! key = Some e -> size (delete key d) < size d.
Proof.
  intros E. rewrite map_size_delete_Some by eauto.
  assert (size d <> 0).
  { apply map_size_non_empty_iff. intros ->. now rewrite lookup_empty in E. }
  lia.
Qed.

(** A higher limit does not change a selection that has returned. *)
Lemma random_valid_more_fuel limit :
  forall rnd clk i (d : gmap string Entry) v d',
    random_valid limit rnd clk i d = (Return v, d') ->
    random_valid (S limit) rnd clk i d = (Return v, d').
Proof.
  induction limit as [|limit IH]; intros rnd clk i d v d' E.
  - cbn [random_valid] in E |- *.
    destruct (keys d) as [|k0 l]; [exact E|].
    destruct (get_entry _ _ d) as [r0 d0].
    destruct (truthy_opt r0); [exact E|discriminate].
  - remember (S limit) as n eqn:Hn. cbn [random_valid]. subst n.
    cbn [random_valid] in E.
    destruct (keys d) as [|k0 l]; [exact E|].
    destruct (get_entry _ _ d) as [r0 d0].
    destruct (truthy_opt r0); [exact E|]. now apply IH.
Qed.

(** Room enough: as many nested calls as there are entries. *)
Lemma random_valid_total limit :
  forall rnd clk i (d : gmap string Entry),
    (forall k e, d !! k = Some e -> truthy_opt (value e) = true) ->
    size d <= limit ->
    exists v d', random_valid limit rnd clk i d = (Return v, d').
Proof.
  induction limit as [|limit IH]; intros rnd clk i d T L.
  - assert (d = ∅) as -> by (apply map_size_empty_iff; lia).
    rewrite random_valid_empty. eauto.
  - destruct (decide (d = ∅)) as [->|N];
      [rewrite random_valid_empty; eauto|].
    destruct (random_valid_step (S limit) rnd clk i d N)
      as (key & e & E & ->).
    destruct (expired (clk i) e).
    + apply IH.
      * intros k e' E'. apply lookup_delete_Some in E'. apply (T k). tauto.
      * pose proof (size_delete_lt d key e E). lia.
    + rewrite (T _ _ E). eauto.
Qed.

(** Whatever the outcome, entries are only removed; and a value
    returned is empty, the dictionary being left empty, or it is the
    value of an entry that is left and was not expired when read. *)
Lemma random_valid_sound limit :
  forall rnd clk i (d : gmap string Entry) r d',
    random_valid limit rnd clk i d = (r, d') ->
    d' ⊆ d
    /\ forall v, r = Return v ->
         v = "" /\ d' = ∅
         \/ v <> "" /\ exists k e j,
              d' !! k = Some e /\ value e = Some v /\ i <= j
              /\ expired (clk j) e = false.
Proof.
  induction limit as [|limit IH]; intros rnd clk i d r d' R.
  - destruct (decide (d = ∅)) as [->|N].
    { rewrite random_valid_empty in R. inversion R; subst.
      split; [reflexivity|]. intros v V. inversion V; subst. now left. }
    destruct (random_valid_step 0 rnd clk i d N) as (key & e & E & S).
    rewrite S in R. clear S.
    destruct (expired (clk i) e) eqn:X.
    + inversion R; subst. split; [apply delete_subseteq|]. discriminate.
    + destruct (truthy_opt (value e)) eqn:T.
      * inversion R; subst. split; [reflexivity|]. intros v V.
        inversion V; subst. right.
        destruct (value e) as [s|] eqn:Vs; [|discriminate]. simpl in *.
        split; [now apply truthy_spec|]. exists key, e, i. auto.
      * inversion R; subst. split; [reflexivity|]. discriminate.
  - destruct (decide (d = ∅)) as [->|N].
    { rewrite random_valid_empty in R. inversion R; subst.
      split; [reflexivity|]. intros v V. inversion V; subst. now left. }
    destruct (random_valid_step (S limit) rnd clk i d N)
      as (key & e & E & S).
    rewrite S in R. clear S.
    destruct (expired (clk i) e) eqn:X.
    + apply IH in R. destruct R as (Sub & R). split.
      * etransitivity; [exact Sub|apply delete_subseteq].
      * intros v V.
        destruct (R v V) as [R'|(Nv & k & e' & j & E' & V' & J & X')];
          [now left|].
        right. split; [exact Nv|]. exists k, e', j.
        repeat split; auto with lia.
    + destruct (truthy_opt (value e)) eqn:T.
      * inversion R; subst. split; [reflexivity|]. intros v V.
        inversion V; subst. right.
        destruct (value e) as [s|] eqn:Vs; [|discriminate]. simpl in *.
        split; [now apply truthy_spec|]. exists key, e, i. auto.
      * apply IH in R. destruct R as (Sub & R). split; [exact Sub|].
        intros v V.
        destruct (R v V) as [R'|(Nv & k & e' & j & E' & V' & J & X')];
          [now left|].
        right. split; [exact Nv|]. exists k, e', j.
        repeat split; auto with lia.
Qed.

(** Whatever the outcome: an entry that is expired at none of the
    readings of the clock is left, and an entry that is gone was expired
    at one of them. *)
Lemma random_valid_evicts limit :
  forall rnd clk i (d : gmap string Entry) r d',
    random_valid limit rnd clk i d = (r, d') ->
    forall k e,
      d !! k = Some e ->
      ((forall j, i <= j -> expired (clk j) e = false) -> d' !! k = Some e)
      /\ (d' !! k = None -> exists j, i <= j /\ expired (clk j) e = true).
Proof.
  induction limit as [|limit IH]; intros rnd clk i d r d' E k e L.
  - destruct (decide (d = ∅)) as [->|N].
    { rewrite lookup_empty in L. discriminate. }
    destruct (random_valid_step 0 rnd clk i d N) as (key & e0 & L0 & Step).
    rewrite Step in E. clear Step.
    destruct (expired (clk i) e0) eqn:X.
    + injection E as _ <-.
      destruct (decide (k = key)) as [->|K].
      * assert (e0 = e) by congruence. subst e0. split.
        -- intros H. rewrite (H i) in X by lia. discriminate.
        -- intros _. exists i. split; [lia|exact X].
      * rewrite lookup_delete_ne by congruence. split; [easy|congruence].
    + destruct (truthy_opt (value e0)); injection E as _ <-;
        (split; [easy|congruence]).
  - destruct (decide (d = ∅)) as [->|N].
    { rewrite lookup_empty in L. discriminate. }
    destruct (random_valid_step (S limit) rnd clk i d N)
      as (key & e0 & L0 & Step).
    rewrite Step in E. clear Step.
    destruct (expired (clk i) e0) eqn:X.
    + destruct (decide (k = key)) as [->|K].
      * assert (e0 = e) by congruence. subst e0. split.
        -- intros H. rewrite (H i) in X by lia. discriminate.
        -- intros _. exists i. split; [lia|exact X].
      * assert (L' : delete key d !! k = Some e)
          by now rewrite lookup_delete_ne.
        destruct (IH _ _ _ _ _ _ E k e L') as [A B]. split.
        -- intros H. apply A. intros j Hj. apply H. lia.
        -- intros H. destruct (B H) as (j & Hj & Hx). exists j.
           split; [lia|easy].
    + destruct (truthy_opt (value e0)).
      * injection E as _ <-. split; [easy|congruence].
      * destruct (IH _ _ _ _ _ _ E k e L) as [A B]. split.
        -- intros H. apply A. intros j Hj. apply H. lia.
        -- intros H. destruct (B H) as (j & Hj & Hx). exists j.
           split; [lia|easy].
Qed.

Lemma random_valid_all_expired limit :
  forall rnd clk i (d : gmap string Entry),
    (forall k e j, d !! k = Some e -> i <= j -> expired (clk j) e = true) ->
    size d <= limit ->
    random_valid limit rnd clk i d = (Return "", ∅).
Proof.
  induction limit as [|limit IH]; intros rnd clk i d X L.
  - assert (d = ∅) as -> by (apply map_size_empty_iff; lia).
    apply random_valid_empty.
  - destruct (decide (d = ∅)) as [->|N]; [apply random_valid_empty|].
    destruct (random_valid_step (S limit) rnd clk i d N)
      as (key & e & E & ->).
    rewrite (X key e i E) by lia.
    apply IH.
    + intros k e' j E' J. apply lookup_delete_Some in E'.
      apply (X k e' j); [tauto|lia].
    + pose proof (size_delete_lt d key e E). lia.
Qed.

Lemma expired_spec now e :
  expired now e = true <-> exists t, expires e = Some t /\ (inject_Z t < now)%Q.
Proof.
  unfold expired. destruct (expires e) as [t|].
  - destruct (Qlt_le_dec (inject_Z t) now) as [L|L]; split.
    + eauto.
    + reflexivity.
    + discriminate.
    + intros (t' & E & L'). inversion E; subst. lra.
  - split; [discriminate|]. intros (t & E & _). discriminate.
Qed.

Lemma not_expired_spec now e :
  expired now e = false <-> forall t, expires e = Some t -> (now <= inject_Z t)%Q.
Proof.
  unfold expired. destruct (expires e) as [t|].
  - destruct (Qlt_le_dec (inject_Z t) now) as [L|L]; split.
    + discriminate.
    + intros E. specialize (E t eq_refl). lra.
    + intros _ t' E. now inversion E; subst.
    + reflexivity.
  - split; [|reflexivity]. intros _ t E. discriminate.
Qed.

Lemma carries_token_truthy (d : gmap string Entry) :
  carries_token d -> forall k e, d !! k = Some e -> truthy_opt (value e) = true.
Proof.
  intros C k e E. destruct (C k e E) as (v & -> & N). now apply truthy_spec.
Qed.

(** The draw that makes [random.choice] pick a given key. *)
Lemma random_choice_picks (d : gmap string Entry) k e k0 :
  d !! k = Some e ->
  exists n, random_choice n (keys d) k0 = k.
Proof.
  intros E.
  assert (I : k ∈ keys d).
  { unfold keys. apply list_elem_of_fmap. exists (k, e).
    split; [reflexivity|]. now apply elem_of_map_to_list. }
  apply list_elem_of_lookup in I. destruct I as [n I].
  exists n. unfold random_choice.
  rewrite Nat.mod_small by (eapply lookup_lt_Some; exact I).
  now apply nth_lookup_Some.
Qed.

(** Every entry that is valid and has a token value that is not empty
    is returned under some draw, at the first call. *)
Lemma random_valid_picks limit now i (d : gmap string Entry) k e v :
  d !! k = Some e -> value e = Some v -> v <> "" -> valid now e ->
  exists rnd, random_valid limit rnd (fun _ => now) i d = (Return v, d).
Proof.
  intros E V N Vl.
  destruct (keys d) as [|k0 l] eqn:K.
  { apply keys_empty in K. subst d. rewrite lookup_empty in E. discriminate. }
  destruct (random_choice_picks d k e k0 E) as [n P].
  exists (fun _ => n).
  unfold valid in Vl. apply not_expired_spec in Vl. apply truthy_spec in N.
  destruct limit; cbn [random_valid]; rewrite K; rewrite <- K; rewrite P;
    rewrite (get_entry_found _ _ _ _ E), Vl, V; cbn [truthy_opt default];
    now rewrite N.
Qed.

(** The selection at a fixed time, on the dictionary it reads. *)
Lemma random_valid_selects limit rnd now i (d : gmap string Entry) :
  size d <= limit ->
  let r := random_valid limit rnd (fun _ => now) i d in
  (forall v d',
      r = (Return v, d') -> v <> "" ->
      exists k e,
        d !! k = Some e /\ value e = Some v /\ valid now e
        /\ d' !! k = Some e)
  /\ (carries_token d ->
      (exists k e, d !! k = Some e /\ valid now e) ->
      exists v d', r = (Return v, d') /\ v <> "")
  /\ ((forall k e,
          d !! k = Some e ->
          exists t, expires e = Some t /\ (inject_Z t < now)%Q) ->
      r = (Return "", ∅))
  /\ (forall k e, d !! k = Some e -> valid now e -> snd r !! k = Some e).
Proof.
  intros L r. subst r. split; [|split; [|split]].
  - intros v d' R N. apply random_valid_sound in R.
    destruct R as (Sub & R).
    destruct (R v eq_refl) as [[-> _]|(_ & k & e & j & E & V & _ & X)];
      [congruence|].
    exists k, e. split; [eapply lookup_weaken; eassumption|].
    split; [exact V|].
    split; [unfold valid; now apply not_expired_spec|exact E].
  - intros C (k & e & E & Vl).
    destruct (random_valid_total limit rnd (fun _ => now) i d
                (carries_token_truthy _ C) L) as (v & d' & R).
    exists v, d'. split; [exact R|].
    pose proof (random_valid_sound _ _ _ _ _ _ _ R) as (_ & S).
    destruct (S v eq_refl) as [[_ ->]|[N _]]; [|exact N].
    destruct (random_valid_evicts _ _ _ _ _ _ _ R k e E) as [Keep _].
    rewrite lookup_empty in Keep. discriminate Keep.
    intros j _. now apply not_expired_spec.
  - intros X. apply random_valid_all_expired; [|exact L].
    intros k e j E _. apply expired_spec. eauto.
  - intros k e E Vl.
    destruct (random_valid limit rnd (fun _ => now) i d) as [r d'] eqn:R.
    destruct (random_valid_evicts _ _ _ _ _ _ _ R k e E) as [Keep _].
    apply Keep. intros j _. now apply not_expired_spec.
Qed.

(** ** C4: what the random selection returns *)

(** C4, as amended.  Let the interpreter allow as many nested calls as
    there are entries.  At the time [now] the properties [cf_clearance]
    and [puid] never return the token of an entry whose expiry time is
    before [now]: a value returned that is not empty is the value of a
    stored entry that is valid (it has no expiry time, or one at or
    after [now]), and that entry stays stored.  When every entry has a
    token value that is not empty and some entry is valid, they return
    a value that is not empty, hence that of a valid entry.  When no
    entry is valid, they return the empty string and leave no entry.
    No valid entry is ever removed.  And the value is chosen by the
    draw: every valid entry with a token value that is not empty is
    what the property returns under some draw, the store being left as
    it is. *)
Theorem selection_returns_valid limit rnd now i (self : CookieManager) :
  size (cf_clearances self) <= limit ->
  size (puids self) <= limit ->
  selects_valid now cf_clearances self
    (cf_clearance limit rnd (fun _ => now) i self)
  /\ selects_valid now puids self (puid limit rnd (fun _ => now) i self)
  /\ (forall k e v,
        cf_clearances self !! k = Some e -> value e = Some v -> v <> "" ->
        valid now e ->
        exists rnd',
          cf_clearance limit rnd' (fun _ => now) i self = (Return v, self))
  /\ (forall k e v,
        puids self !! k = Some e -> value e = Some v -> v <> "" ->
        valid now e ->
        exists rnd', puid limit rnd' (fun _ => now) i self = (Return v, self)).
Proof.
  intros Lc Lp.
  destruct (random_valid_selects limit rnd now i _ Lc) as (Sc & Nc & Xc & Kc).
  destruct (random_valid_selects limit rnd now i _ Lp) as (Sp & Np & Xp & Kp).
  unfold selects_valid, cf_clearance, puid.
  split; [|split; [|split]].
  - destruct (random_valid _ _ _ _ (cf_clearances self)) as [r0 d0].
    split; [|split; [|split]].
    + intros v self' R N. inversion R; subst. now apply (Sc v d0).
    + intros C V. destruct (Nc C V) as (v & d' & R & N).
      inversion R; subst. eauto.
    + intros X. specialize (Xc X). inversion Xc; subst. eauto.
    + exact Kc.
  - destruct (random_valid _ _ _ _ (puids self)) as [r0 d0].
    split; [|split; [|split]].
    + intros v self' R N. inversion R; subst. now apply (Sp v d0).
    + intros C V. destruct (Np C V) as (v & d' & R & N).
      inversion R; subst. eauto.
    + intros X. specialize (Xp X). inversion Xp; subst. eauto.
    + exact Kp.
  - intros k e v E V N Vl.
    destruct (random_valid_picks limit now i _ k e v E V N Vl) as [rnd' R].
    exists rnd'. rewrite R. now destruct self.
  - intros k e v E V N Vl.
    destruct (random_valid_picks limit now i _ k e v E V N Vl) as [rnd' R].
    exists rnd'. rewrite R. now destruct self.
Qed.

(** Scenario: one clearance that expired a second ago. *)
Lemma selection_returns_valid_witness :
  exists self',
    cf_clearance 2 (fun _ => O) (fun _ => 100%Q) 0 (one_clearance 99)
    = (Return "", self')
    /\ cf_clearances self' = ∅.
Proof.
  refine (proj1 (proj2 (proj2 (proj1
    (selection_returns_valid 2 (fun _ => O) 100%Q 0 (one_clearance 99) _ _))))
    _).
  - vm_compute. lia.
  - vm_compute. lia.
  - intros k e E. exists 99%Z. simpl in E.
    apply lookup_singleton_Some in E. destruct E as [_ <-].
    split; [reflexivity|]. reflexivity.
Defined.

(** C4, as stated, fails at the boundary: a token whose expiry time is the
    current time is still returned. *)
Lemma selection_returns_token_expiring_now :
  cf_clearance 2 (fun _ => O) (fun _ => 100%Q) 0 (one_clearance 100)
  = (Return "id-100-a-b-c-d", one_clearance 100)
  /\ cf_clearances (one_clearance 100) !! "id"
     = Some (mkEntry (Some "id-100-a-b-c-d") (Some 100%Z))
  /\ (inject_Z 100 <= 100)%Q.
Proof. split; [|split]; [reflexivity|reflexivity|discriminate]. Qed.

(** ** C10: how the random selection ends *)



(** An entry that has its token value, but an empty one, and no expiry
    time: every call looks at it and the property calls itself, until
    the interpreter refuses. *)
Lemma empty_token_never_returned limit :
  forall rnd clk i,
    random_valid limit rnd clk i {["id" := mkEntry (Some "") None]}
    = (Raise RecursionError, {["id" := mkEntry (Some "") None]}).
Proof.
  assert (N : ({["id" := mkEntry (Some "") None]} : gmap string Entry) <> ∅).
  { intros N. apply (f_equal (fun d => d !! "id")) in N.
    rewrite lookup_singleton_eq, lookup_empty in N. discriminate. }
  induction limit as [|limit IH]; intros rnd clk i.
  - destruct (random_valid_step 0 rnd clk i _ N) as (key & e & E & ->).
    apply lookup_singleton_Some in E. destruct E as [_ <-]. reflexivity.
  - destruct (random_valid_step (S limit) rnd clk i _ N)
      as (key & e & E & ->).
    apply lookup_singleton_Some in E. destruct E as [_ <-]. simpl. apply IH.
Qed.


(** ** C8: what is written to the cookie file *)

Lemma evicted_differs key (d : gmap string Entry) e :
  d !! key = Some e -> delete key d <> d.
Proof.
  intros E N. apply (f_equal (fun m => m !! key)) in N.
  rewrite lookup_delete_eq, E in N. discriminate.
Qed.

(** C8, as amended.  [save_puid], [save_cf_clearance] and
    [delete_cf_clearance] write the whole document to the file whenever
    they change it: the file then holds the document that is in memory.
    The eviction of an expired entry by [get_cf_clearance] or [get_puid]
    changes the document in memory and writes nothing: a file that held
    the document before does not hold it afterwards. *)
Theorem mutations_and_the_file {ext : Externals} (self : CookieManager)
    (f : File) :
  (forall p r self' f',
      save_puid p self f = (r, self', f') ->
      r = Return tt /\ persisted self' f'
      \/ r = Raise ValueError /\ self' = self /\ f' = f)
  /\ (forall c r self' f',
         save_cf_clearance c self f = (r, self', f') ->
         r = Return tt /\ c <> "" /\ persisted self' f'
         \/ self' = self /\ f' = f)
  /\ (forall c r self' f',
         delete_cf_clearance c self f = (r, self', f') ->
         r = Return true /\ persisted self' f'
         \/ r <> Return true /\ self' = self /\ f' = f)
  /\ (forall now key e,
         cf_clearances self !! key = Some e -> expired now e = true ->
         persisted self f ->
         get_cf_clearance now key self
         = (None, mkCookieManager (delete key (cf_clearances self)) (puids self))
         /\ ~ persisted (snd (get_cf_clearance now key self)) f)
  /\ (forall now key e,
         puids self !! key = Some e -> expired now e = true ->
         persisted self f ->
         get_puid now key self
         = (None, mkCookieManager (cf_clearances self) (delete key (puids self)))
         /\ ~ persisted (snd (get_puid now key self)) f).
Proof.
  split; [|split; [|split; [|split]]].
  - intros p r self' f'. unfold save_puid, save, persisted.
    destruct (split ":" p) as [|user_id [|token [|]]];
      try (intros E; inversion E; subst; now right).
    destruct (py_int _); intros E; inversion E; subst; [now left|now right].
  - intros c r self' f'. unfold save_cf_clearance, save, persisted.
    destruct (truthy c) eqn:T; [|intros E; inversion E; subst; now right].
    apply truthy_spec in T.
    destruct (split "-" c) as [|a [|b [|x1 [|x2 [|x3 [|x4 [|]]]]]]];
      try (intros E; inversion E; subst; now right).
    destruct (py_int _); intros E; inversion E; subst; [now left|now right].
  - intros c r self' f'. unfold delete_cf_clearance, save, persisted.
    destruct (truthy c);
      [|intros E; inversion E; subst; right; repeat split; discriminate].
    destruct (split "-" c) as [|a [|b [|x1 [|x2 [|x3 [|x4 [|]]]]]]];
      try (intros E; inversion E; subst; right; repeat split; discriminate).
    destruct (cf_clearances self !! a); intros E; inversion E; subst;
      [now left|right; repeat split; discriminate].
  - intros now key e E X P. unfold get_cf_clearance.
    rewrite (get_entry_found _ _ _ _ E), X. split; [reflexivity|].
    unfold persisted in *. subst f. simpl. intros N. inversion N as [N'].
    destruct self as [c p]. simpl in *. inversion N' as [D].
    apply evicted_differs in E. congruence.
  - intros now key e E X P. unfold get_puid.
    rewrite (get_entry_found _ _ _ _ E), X. split; [reflexivity|].
    unfold persisted in *. subst f. simpl. intros N. inversion N as [N'].
    destruct self as [c p]. simpl in *. inversion N' as [D].
    apply evicted_differs in E. congruence.
Qed.

Lemma mutations_and_the_file_witness :
  save_cf_clearance (ext := Examples.externals) "id-100-a-b-c-d"
    Examples.empty_manager None
  = (Return tt, one_clearance 1900, Some (one_clearance 1900))
  /\ persisted (one_clearance 1900) (Some (one_clearance 1900)).
Proof.
  destruct (proj1 (proj2 (mutations_and_the_file (ext := Examples.externals)
              Examples.empty_manager None))
              "id-100-a-b-c-d" (Return tt) (one_clearance 1900)
              (Some (one_clearance 1900)) eq_refl)
    as [(_ & _ & P)|(E & _)].
  - split; [reflexivity|exact P].
  - apply (f_equal (fun m => cf_clearances m !! "id")) in E. discriminate.
Defined.

(** C8, as stated, fails: the selection evicts the expired clearance from
    the document in memory and the file keeps the document with it. *)
Lemma eviction_is_not_persisted :
  let file := save (one_clearance 99) None in
  persisted (one_clearance 99) file
  /\ cf_clearance 2 (fun _ => O) (fun _ => 100%Q) 0 (one_clearance 99)
     = (Return "", Examples.empty_manager)
  /\ file <> Some Examples.empty_manager.
Proof.
  split; [reflexivity|split; [reflexivity|]].
  intros E. apply (f_equal (fun o => cf_clearances <$> o)) in E.
  apply (f_equal (fun o => (fun m => m !! "id") <$> o)) in E. discriminate.
Qed.

(** ** The credential store: saving, serving, deleting, reloading *)

Lemma split_length sep s : length (split sep s) = S (occurrences sep s).
Proof.
  induction s as [|c s IH]; [reflexivity|].
  cbn [split occurrences]. destruct (Ascii.eqb c sep).
  - cbn [length]. now rewrite IH.
  - destruct (split sep s) as [|p ps]; [discriminate IH|exact IH].
Qed.

Lemma split_nonempty sep s a b l : split sep s = a :: b :: l -> s <> "".
Proof. intros E ->. discriminate E. Qed.

Lemma get_cf_clearance_stored now cf_id (self : CookieManager) e :
  cf_clearances self !! cf_id = Some e ->
  get_cf_clearance now cf_id self
  = if expired now e
    then (None, mkCookieManager (delete cf_id (cf_clearances self)) (puids self))
    else (value e, self).
Proof.
  intros L. unfold get_cf_clearance. rewrite (get_entry_found _ _ _ _ L).
  destruct (expired now e); [reflexivity|]. now destruct self.
Qed.

Lemma get_puid_stored now user_id (self : CookieManager) e :
  puids self !! user_id = Some e ->
  get_puid now user_id self
  = if expired now e
    then (None, mkCookieManager (cf_clearances self) (delete user_id (puids self)))
    else (value e, self).
Proof.
  intros L. unfold get_puid. rewrite (get_entry_found _ _ _ _ L).
  destruct (expired now e); [reflexivity|]. now destruct self.
Qed.

Lemma expired_after now v t :
  expired now (mkEntry v (Some t)) = true <-> (inject_Z t < now)%Q.
Proof.
  unfold expired. simpl. destruct (Qlt_le_dec (inject_Z t) now); split; try easy.
  intros H. lra.
Qed.

Lemma expired_until now v t :
  expired now (mkEntry v (Some t)) = false <-> (now <= inject_Z t)%Q.
Proof.
  unfold expired. simpl. destruct (Qlt_le_dec (inject_Z t) now); split; try easy.
  intros H. lra.
Qed.

Lemma save_cf_clearance_stores {ext : Externals}
    c (self : CookieManager) (f : File) cf_id ts x1 x2 x3 x4 n :
  split "-" c = [cf_id; ts; x1; x2; x3; x4] ->
  py_int ts = Some n ->
  let self' :=
    mkCookieManager
      (<[cf_id := mkEntry (Some c) (Some (n + 1800)%Z)]> (cf_clearances self))
      (puids self) in
  save_cf_clearance c self f = (Return tt, self', Some self').
Proof.
  intros S I. unfold save_cf_clearance. rewrite S, I.
  apply split_nonempty, truthy_spec in S. now rewrite S.
Qed.

Lemma save_cf_clearance_malformed {ext : Externals} c (self : CookieManager)
    (f : File) :
  c <> "" -> occurrences "-" c <> 5%nat ->
  save_cf_clearance c self f = (Raise ValueError, self, f).
Proof.
  intros N O. apply truthy_spec in N.
  pose proof (split_length "-" c) as L.
  unfold save_cf_clearance. rewrite N.
  destruct (split "-" c) as [|a [|b [|x [|y [|z [|t [|? ?]]]]]]];
    try reflexivity.
  simpl in L. congruence.
Qed.

Lemma delete_cf_clearance_malformed c (self : CookieManager) (f : File) :
  c <> "" -> occurrences "-" c <> 5%nat ->
  delete_cf_clearance c self f = (Raise ValueError, self, f).
Proof.
  intros N O. apply truthy_spec in N.
  pose proof (split_length "-" c) as L.
  unfold delete_cf_clearance. rewrite N.
  destruct (split "-" c) as [|a [|b [|x [|y [|z [|t [|? ?]]]]]]];
    try reflexivity.
  simpl in L. congruence.
Qed.

(** X1.  A clearance cookie of six dash-separated fields whose second
    field is the number [n] is stored under its first field and written
    to the file; [get_cf_clearance] returns it as long as the clock does
    not read more than [n + 1800], and evicts it afterwards; no other
    clearance and no puid is touched. *)
Theorem clearance_served_for_thirty_minutes {ext : Externals}
    c (self : CookieManager) (f : File) cf_id ts x1 x2 x3 x4 n :
  split "-" c = [cf_id; ts; x1; x2; x3; x4] ->
  py_int ts = Some n ->
  exists self',
    save_cf_clearance c self f = (Return tt, self', Some self')
    /\ (forall now, (now <= inject_Z (n + 1800))%Q ->
          get_cf_clearance now cf_id self' = (Some c, self'))
    /\ (forall now, (inject_Z (n + 1800) < now)%Q ->
          get_cf_clearance now cf_id self'
          = (None, mkCookieManager (delete cf_id (cf_clearances self))
                     (puids self)))
    /\ (forall k, k <> cf_id ->
          cf_clearances self' !! k = cf_clearances self !! k)
    /\ puids self' = puids self.
Proof.
  intros S I. eexists. split.
  { exact (save_cf_clearance_stores c self f _ _ _ _ _ _ n S I). }
  split; [|split; [|split]].
  - intros now H.
    erewrite get_cf_clearance_stored by (simpl; apply lookup_insert_eq).
    apply (expired_until _ (Some c)) in H. now rewrite H.
  - intros now H.
    erewrite get_cf_clearance_stored by (simpl; apply lookup_insert_eq).
    apply (expired_after _ (Some c)) in H. rewrite H. simpl.
    now rewrite delete_insert_eq.
  - intros k N. simpl. now rewrite lookup_insert_ne.
  - reflexivity.
Qed.

Lemma clearance_served_for_thirty_minutes_witness :
  get_cf_clearance 1900 "id" (one_clearance 1900)
  = (Some "id-100-a-b-c-d", one_clearance 1900).
Proof.
  destruct (clearance_served_for_thirty_minutes (ext := Examples.externals)
              "id-100-a-b-c-d" Examples.empty_manager None
              "id" "100" "a" "b" "c" "d" 100 eq_refl eq_refl)
    as (self' & E & Valid & _).
  injection E as <- _. apply Valid. vm_compute. discriminate.
Defined.

(** X2.  A puid "user:token" whose token begins with the number [n]
    (up to its first dash) is stored under the user and written to the
    file; [get_puid] returns it as long as the clock does not read more
    than [n + 604800], seven days, and evicts it afterwards; no other
    puid and no clearance is touched. *)
Theorem puid_served_for_seven_days {ext : Externals}
    p (self : CookieManager) (f : File) user_id token n :
  split ":" p = [user_id; token] ->
  py_int (hd "" (split "-" token)) = Some n ->
  exists self',
    save_puid p self f = (Return tt, self', Some self')
    /\ (forall now, (now <= inject_Z (n + 604800))%Q ->
          get_puid now user_id self' = (Some p, self'))
    /\ (forall now, (inject_Z (n + 604800) < now)%Q ->
          get_puid now user_id self'
          = (None, mkCookieManager (cf_clearances self)
                     (delete user_id (puids self))))
    /\ (forall k, k <> user_id -> puids self' !! k = puids self !! k)
    /\ cf_clearances self' = cf_clearances self.
Proof.
  intros S I. unfold save_puid. rewrite S, I.
  eexists. split; [reflexivity|]. split; [|split; [|split]].
  - intros now H.
    erewrite get_puid_stored by (simpl; apply lookup_insert_eq).
    apply (expired_until _ (Some p)) in H.
    change (n + 7 * 24 * 60 * 60)%Z with (n + 604800)%Z. now rewrite H.
  - intros now H.
    erewrite get_puid_stored by (simpl; apply lookup_insert_eq).
    apply (expired_after _ (Some p)) in H.
    change (n + 7 * 24 * 60 * 60)%Z with (n + 604800)%Z. rewrite H. simpl.
    now rewrite delete_insert_eq.
  - intros k N. simpl. now rewrite lookup_insert_ne.
  - reflexivity.
Qed.

Lemma puid_served_for_seven_days_witness :
  exists self',
    save_puid (ext := Examples.externals) "user:100-abc"
      Examples.empty_manager None
    = (Return tt, self', Some self')
    /\ get_puid 604900 "user" self' = (Some "user:100-abc", self').
Proof.
  destruct (puid_served_for_seven_days (ext := Examples.externals)
              "user:100-abc" Examples.empty_manager None
              "user" "100-abc" 100 eq_refl eq_refl)
    as (self' & E & Valid & _).
  exists self'. split; [exact E|]. apply Valid. vm_compute. discriminate.
Defined.

(** X3.  [delete_cf_clearance] on a cookie of six fields looks at the
    first field only: it answers whether a clearance was stored under
    it, whatever that clearance was; afterwards none is stored under it,
    the puids are as before, the file is rewritten exactly when
    something was removed, and deleting once more answers [False] and
    changes nothing. *)
Theorem delete_cf_clearance_by_id c (self : CookieManager) (f : File)
    cf_id x1 x2 x3 x4 x5 :
  split "-" c = [cf_id; x1; x2; x3; x4; x5] ->
  exists b self' f',
    delete_cf_clearance c self f = (Return b, self', f')
    /\ (b = true <-> exists e, cf_clearances self !! cf_id = Some e)
    /\ cf_clearances self' = delete cf_id (cf_clearances self)
    /\ puids self' = puids self
    /\ f' = (if b then Some self' else f)
    /\ (forall now, get_cf_clearance now cf_id self' = (None, self'))
    /\ delete_cf_clearance c self' f' = (Return false, self', f').
Proof.
  intros S. unfold delete_cf_clearance. rewrite S.
  destruct (truthy c) eqn:T.
  2:{ apply split_nonempty in S. apply truthy_spec in S. congruence. }
  destruct (cf_clearances self !! cf_id) as [e|] eqn:L.
  - eexists true, _, _. split; [reflexivity|]. cbn [cf_clearances puids].
    rewrite lookup_delete_eq. repeat split; eauto.
    intros now. unfold get_cf_clearance, get_entry. cbn [cf_clearances puids].
    now rewrite lookup_delete_eq.
  - exists false, self, f. rewrite L. split; [reflexivity|].
    repeat split; try easy.
    + intros [e E]. discriminate.
    + now rewrite delete_id.
    + intros now. unfold get_cf_clearance, get_entry. rewrite L.
      now destruct self.
Qed.

Lemma delete_cf_clearance_by_id_witness :
  exists b self' f',
    delete_cf_clearance "id-999-x-y-z-w" (one_clearance 1900)
      (Some (one_clearance 1900))
    = (Return b, self', f')
    /\ (b = true <->
        exists e, cf_clearances (one_clearance 1900) !! "id" = Some e)
    /\ cf_clearances self' = delete "id" (cf_clearances (one_clearance 1900)).
Proof.
  destruct (delete_cf_clearance_by_id "id-999-x-y-z-w" (one_clearance 1900)
              (Some (one_clearance 1900)) "id" "999" "x" "y" "z" "w" eq_refl)
    as (b & self' & f' & E & B & D & _).
  exists b, self', f'. auto.
Defined.

(** X4.  A cookie that does not have the expected shape raises
    [ValueError] and leaves memory and file as they were: a clearance
    that is not empty and does not have exactly five dashes, in
    [save_cf_clearance] and in [delete_cf_clearance]; a clearance whose
    second field [int] refuses; a puid that does not have exactly one
    colon; a puid whose token does not begin with a number. *)
Theorem malformed_cookie_raises {ext : Externals} (self : CookieManager)
    (f : File) :
  (forall c, c <> "" -> occurrences "-" c <> 5%nat ->
     save_cf_clearance c self f = (Raise ValueError, self, f)
     /\ delete_cf_clearance c self f = (Raise ValueError, self, f))
  /\ (forall c cf_id ts x1 x2 x3 x4,
        split "-" c = [cf_id; ts; x1; x2; x3; x4] -> py_int ts = None ->
        save_cf_clearance c self f = (Raise ValueError, self, f))
  /\ (forall p, occurrences ":" p <> 1%nat ->
        save_puid p self f = (Raise ValueError, self, f))
  /\ (forall p user_id token,
        split ":" p = [user_id; token] ->
        py_int (hd "" (split "-" token)) = None ->
        save_puid p self f = (Raise ValueError, self, f)).
Proof.
  split; [|split; [|split]].
  - intros c N O. split.
    + now apply save_cf_clearance_malformed.
    + now apply delete_cf_clearance_malformed.
  - intros c cf_id ts x1 x2 x3 x4 S I. unfold save_cf_clearance.
    rewrite S, I. apply split_nonempty, truthy_spec in S. now rewrite S.
  - intros p O. unfold save_puid.
    pose proof (split_length ":" p) as L.
    destruct (split ":" p) as [|a [|b [|? ?]]]; try reflexivity.
    simpl in L. congruence.
  - intros p user_id token S I. unfold save_puid. now rewrite S, I.
Qed.

Lemma malformed_cookie_raises_witness :
  save_cf_clearance (ext := Examples.externals) "no_dashes"
    (one_clearance 1900) None
  = (Raise ValueError, one_clearance 1900, None)
  /\ delete_cf_clearance "no_dashes" (one_clearance 1900) None
     = (Raise ValueError, one_clearance 1900, None).
Proof.
  apply (proj1 (malformed_cookie_raises (ext := Examples.externals)
                  (one_clearance 1900) None)).
  - discriminate.
  - vm_compute. discriminate.
Defined.

(** X5.  The random selection of a clearance, or of a puid, only ever
    removes entries, and only from the dictionary it selects from,
    whether it returns or raises: an entry that is expired at none of the
    clock readings of the selection is still stored afterwards, and an
    entry that is gone was expired at one of them. *)
Theorem selection_evicts_only_expired limit rnd clk i (self : CookieManager) :
  (forall r self',
      cf_clearance limit rnd clk i self = (r, self') ->
      puids self' = puids self
      /\ cf_clearances self' ⊆ cf_clearances self
      /\ forall k e,
           cf_clearances self !! k = Some e ->
           ((forall j, i <= j -> expired (clk j) e = false) ->
            cf_clearances self' !! k = Some e)
           /\ (cf_clearances self' !! k = None ->
               exists j, i <= j /\ expired (clk j) e = true))
  /\ (forall r self',
         puid limit rnd clk i self = (r, self') ->
         cf_clearances self' = cf_clearances self
         /\ puids self' ⊆ puids self
         /\ forall k e,
              puids self !! k = Some e ->
              ((forall j, i <= j -> expired (clk j) e = false) ->
               puids self' !! k = Some e)
              /\ (puids self' !! k = None ->
                  exists j, i <= j /\ expired (clk j) e = true)).
Proof.
  split; intros r self'.
  - unfold cf_clearance.
    destruct (random_valid limit rnd clk i (cf_clearances self))
      as [r0 d'] eqn:E.
    intros H. injection H as _ <-. cbn [cf_clearances puids].
    split; [reflexivity|]. split.
    + exact (proj1 (random_valid_sound _ _ _ _ _ _ _ E)).
    + intros k e L. exact (random_valid_evicts _ _ _ _ _ _ _ E k e L).
  - unfold puid.
    destruct (random_valid limit rnd clk i (puids self))
      as [r0 d'] eqn:E.
    intros H. injection H as _ <-. cbn [cf_clearances puids].
    split; [reflexivity|]. split.
    + exact (proj1 (random_valid_sound _ _ _ _ _ _ _ E)).
    + intros k e L. exact (random_valid_evicts _ _ _ _ _ _ _ E k e L).
Qed.

Lemma selection_evicts_only_expired_witness :
  cf_clearances (one_clearance 100) !! "id"
  = Some (mkEntry (Some "id-100-a-b-c-d") (Some 100%Z)).
Proof.
  destruct (proj1 (selection_evicts_only_expired 2 (fun _ => O)
                     (fun _ => 100%Q) 0 (one_clearance 100))
              (Return "id-100-a-b-c-d") (one_clearance 100) eq_refl)
    as (_ & _ & K).
  apply (K "id" (mkEntry (Some "id-100-a-b-c-d") (Some 100%Z)) eq_refl).
  intros j _. reflexivity.
Defined.

(** ** Streaming the body of a response *)

Lemma logged_logged l1 l2 w : logged l2 (logged l1 w) = logged (l1 ++ l2) w.
Proof. unfold logged. simpl. now rewrite app_assoc. Qed.

Lemma length_trace_logged l w :
  length (trace (logged l w)) = (length (trace w) + length l)%nat.
Proof. unfold logged. simpl. now rewrite length_app. Qed.

(** The last round of a loop over a stream: the reader reports the end or
    fails, and the two handles are disposed of. *)
Lemma anext_at_end env self rd w :
  reader self = Some rd ->
  is_JSHandle (it_response self) = true ->
  ends env (length (trace w)) ->
  on_unit env (S (length (trace w))) = Got tt ->
  on_unit env (S (S (length (trace w)))) = Got tt ->
  __anext__ env self w
  = (Finished (Raise StopAsyncIteration)
       (logged [ReaderRead rd; Dispose (it_response self); Dispose rd] w),
     self).
Proof.
  intros R J E U1 U2.
  unfold __anext__, it_read, read_chunk, wait_for, await. rewrite R.
  destruct E as [[v E]|[msg E]]; rewrite E; simpl; rewrite J.
  all: unfold mbind, await, raise; simpl.
  all: rewrite length_app; simpl; rewrite Nat.add_1_r, U1; simpl.
  all: rewrite !length_app; simpl; rewrite !Nat.add_1_r, U2; simpl.
  all: rewrite R; simpl; unfold logged, log; simpl.
  all: now rewrite <- !app_assoc.
Qed.

Lemma anext_chunk env self rd w d :
  reader self = Some rd ->
  on_chunk env (length (trace w)) = Got (false, d) ->
  __anext__ env self w
  = (Finished (Return (default [] d)) (logged [ReaderRead rd] w), self).
Proof.
  intros R E.
  unfold __anext__, it_read, read_chunk, wait_for, await. rewrite R, E.
  reflexivity.
Qed.

Lemma async_for_delivers env ds :
  forall n self rd acc w,
    length ds < n ->
    reader self = Some rd ->
    is_JSHandle (it_response self) = true ->
    delivers env (length (trace w)) ds ->
    ends env (length (trace w) + length ds) ->
    on_unit env (length (trace w) + length ds + 1) = Got tt ->
    on_unit env (length (trace w) + length ds + 2) = Got tt ->
    async_for env n self acc w
    = (Finished (Return (acc ++ List.map (default []) ds)%list)
         (logged (reads rd (S (length ds))
                    ++ [Dispose (it_response self); Dispose rd]) w),
       self).
Proof.
  induction ds as [|d ds IH]; intros n self rd acc w N R J D E U1 U2.
  - destruct n as [|n]; [lia|]. simpl in *.
    rewrite Nat.add_0_r in *. rewrite Nat.add_1_r in U1.
    replace (length (trace w) + 2)%nat with (S (S (length (trace w)))) in U2
      by lia.
    cbn [async_for]. rewrite (anext_at_end env self rd w R J E U1 U2).
    now rewrite app_nil_r.
  - destruct n as [|n]; [simpl in N; lia|]. destruct D as [D0 D].
    cbn [async_for]. rewrite (anext_chunk env self rd w d R D0).
    rewrite (IH n self rd (acc ++ [default [] d])%list (logged [ReaderRead rd] w)).
    + rewrite logged_logged. cbn [List.map length reads repeat].
      now rewrite <- app_assoc.
    + simpl in N. lia.
    + exact R.
    + exact J.
    + rewrite length_trace_logged. simpl. now rewrite Nat.add_1_r.
    + rewrite length_trace_logged. simpl in *.
      now replace (length (trace w) + 1 + length ds)%nat
        with (length (trace w) + S (length ds))%nat by lia.
    + rewrite length_trace_logged. simpl in *.
      now replace (length (trace w) + 1 + length ds + 1)%nat
        with (length (trace w) + S (length ds) + 1)%nat by lia.
    + rewrite length_trace_logged. simpl in *.
      now replace (length (trace w) + 1 + length ds + 2)%nat
        with (length (trace w) + S (length ds) + 2)%nat by lia.
Qed.

(** X7.  A loop over a fresh iterator of a response whose stream
    delivers the chunks [ds] and then ends (the reader says so, or
    Playwright fails) collects the chunks in the order delivered, a
    chunk without value as the empty byte string; it takes one reader,
    reads once per chunk and once more, and then disposes of the
    response and of the reader, once each. *)
Theorem chunks_in_order env r to ds h n w :
  is_JSHandle r = true ->
  on_handle env (length (trace w)) = Got h ->
  delivers env (S (length (trace w))) ds ->
  ends env (S (length (trace w)) + length ds) ->
  on_unit env (S (length (trace w)) + length ds + 1) = Got tt ->
  on_unit env (S (length (trace w)) + length ds + 2) = Got tt ->
  length ds < n ->
  async_for env n (mkAsyncStreamIterator r to None) [] w
  = (Finished (Return (List.map (default []) ds))
       (logged ([GetReader r] ++ reads (JSHandle h) (S (length ds))
                  ++ [Dispose r; Dispose (JSHandle h)]) w),
     mkAsyncStreamIterator r to (Some (JSHandle h))).
Proof.
  intros J H D E U1 U2 N.
  set (it := mkAsyncStreamIterator r to (Some (JSHandle h))).
  assert (W : length (trace (logged [GetReader r] w)) = S (length (trace w))).
  { rewrite length_trace_logged. simpl. lia. }
  pose proof (async_for_delivers env ds n it (JSHandle h) []
                (logged [GetReader r] w) N eq_refl J) as A.
  rewrite W in A. specialize (A D E U1 U2).
  assert (X : __anext__ env (mkAsyncStreamIterator r to None) w
              = __anext__ env it (logged [GetReader r] w)).
  { unfold __anext__, it_read. simpl. unfold await at 1. now rewrite H. }
  destruct n as [|n]; [lia|].
  cbn [async_for]. rewrite X. cbn [async_for] in A. rewrite A.
  now rewrite logged_logged.
Qed.

Lemma chunks_in_order_witness :
  async_for
    (Examples.stream
       (fun n => match n with
                 | 1%nat => Got (false, Some [Byte.x68; Byte.x69])
                 | 2%nat => Got (false, None)
                 | _ => Got (true, None)
                 end))
    3 (mkAsyncStreamIterator (JSHandle 7) 30 None) [] Examples.one_session
  = (Finished (Return [[Byte.x68; Byte.x69]; []])
       (logged [GetReader (JSHandle 7); ReaderRead (JSHandle 100);
                ReaderRead (JSHandle 100); ReaderRead (JSHandle 100);
                Dispose (JSHandle 7); Dispose (JSHandle 100)]
          Examples.one_session),
     mkAsyncStreamIterator (JSHandle 7) 30 (Some (JSHandle 100))).
Proof.
  apply (chunks_in_order
           (Examples.stream
              (fun n => match n with
                        | 1%nat => Got (false, Some [Byte.x68; Byte.x69])
                        | 2%nat => Got (false, None)
                        | _ => Got (true, None)
                        end))
           (JSHandle 7) 30 [Some [Byte.x68; Byte.x69]; None] 100 3
           Examples.one_session).
  - reflexivity.
  - reflexivity.
  - simpl. auto.
  - left. now exists None.
  - reflexivity.
  - reflexivity.
  - simpl. lia.
Defined.

Lemma fetch_answered env i m u h d to w c r st hs :
  on_handle env (length (trace w)) = Got c ->
  on_handle env (length (trace w) + 1) = Got r ->
  on_status env (length (trace w) + 2) = Got st ->
  on_headers env (length (trace w) + 3) = Got hs ->
  fetch env i m u h d [] to w
  = Finished
      (Return (mkStreamResponse st hs (Some (JSHandle c)) (Some (JSHandle r)) to,
               JSHandle c))
      (logged [NewAbortController;
               TrackedFetch (JSHandle c) u m h (if truthy_opt d then d else None);
               EvalStatus (JSHandle r); EvalHeaders (JSHandle r)] w).
Proof.
  intros C R S H.
  unfold fetch, wait_for_headers, mbind, await, ret. simpl.
  rewrite C. simpl. rewrite !length_app. simpl. rewrite R. simpl.
  rewrite !length_app. simpl.
  replace (length (trace w) + 1 + 1)%nat with (length (trace w) + 2)%nat by lia.
  rewrite S. simpl. rewrite !length_app. simpl.
  replace (length (trace w) + 1 + 1 + 1)%nat with (length (trace w) + 3)%nat
    by lia.
  rewrite H. unfold logged, log. simpl. now rewrite <- !app_assoc.
Qed.

Lemma fetch_exit_answered env i c resp w :
  controller resp = Some c ->
  on_unit env (length (trace w)) = Got tt ->
  on_unit env (length (trace w) + 1) = Got tt ->
  on_unit env (length (trace w) + 2) = Got tt ->
  fetch_exit env i c resp w
  = Finished (Return tt)
      (mkWorld (mark_running i false (sessions w)) (cookie_manager w)
         (cookie_file w) (tasks w)
         (trace w ++ [DecrementFetchCounter c; Abort c; Dispose c])).
Proof.
  intros C U0 U1 U2.
  unfold fetch_exit, stop, set_running, update_session, mbind, await. simpl.
  rewrite C, U0. simpl. rewrite !length_app. simpl. rewrite U1. simpl.
  rewrite !length_app. simpl.
  replace (length (trace w) + 1 + 1)%nat with (length (trace w) + 2)%nat by lia.
  rewrite U2. unfold log, mark_running. simpl. now rewrite <- !app_assoc.
Qed.

(** X8.  [main] of the example: when the browser answers every call and
    the stream delivers the chunks [ds] and then ends, what is printed
    is the decoded concatenation of the chunks, whatever the status of
    the response; the calls made are, in this order, those of the fetch,
    of the loop over the chunks, and of the winding up (the fetch
    counter, the abort and the disposal of the controller), and the
    session is left not running. *)
Theorem example_prints_body {ext : Externals} env n i w c r st hs h ds printed :
  (forall k, on_unit env k = Got tt) ->
  on_handle env (length (trace w)) = Got c ->
  on_handle env (length (trace w) + 1) = Got r ->
  on_status env (length (trace w) + 2) = Got st ->
  on_headers env (length (trace w) + 3) = Got hs ->
  on_handle env (length (trace w) + 4) = Got h ->
  delivers env (length (trace w) + 5) ds ->
  ends env (length (trace w) + 5 + length ds) ->
  decode (concat (List.map (default []) ds)) = Return printed ->
  length ds < n ->
  Example_stream.main env n i w
  = Finished (Return printed)
      (mkWorld (mark_running i false (sessions w)) (cookie_manager w)
         (cookie_file w) (tasks w)
         (trace w
          ++ [NewAbortController;
              TrackedFetch (JSHandle c) "/backend-api/models" "GET"
                {["Authorization" := "Bearer xxx"]} None;
              EvalStatus (JSHandle r); EvalHeaders (JSHandle r);
              GetReader (JSHandle r)]
          ++ reads (JSHandle h) (S (length ds))
          ++ [Dispose (JSHandle r); Dispose (JSHandle h);
              DecrementFetchCounter (JSHandle c); Abort (JSHandle c);
              Dispose (JSHandle c)])).
Proof.
  intros U C R St H G D E T N.
  unfold Example_stream.main.
  rewrite (mbind_return _ _ _ _ _
             (fetch_answered env i "GET" "/backend-api/models" _ None 30 w
                c r st hs C R St H)).
  cbn [iter_chunked response timeout].
  set (w1 := logged _ w).
  assert (L : length (trace w1) = (length (trace w) + 4)%nat).
  { unfold w1. now rewrite length_trace_logged. }
  pose proof (chunks_in_order env (JSHandle r) 30 ds h n w1 eq_refl) as A.
  rewrite L in A.
  replace (S (length (trace w) + 4)) with (length (trace w) + 5)%nat in A
    by lia.
  specialize (A G D E (U _) (U _) N).
  unfold mbind at 1. rewrite A. cbn [fst].
  unfold mbind at 1. rewrite T.
  set (w2 := logged _ w1).
  rewrite (mbind_return _ _ _ _ _
             (fetch_exit_answered env i (JSHandle c)
                (mkStreamResponse st hs (Some (JSHandle c))
                   (Some (JSHandle r)) 30) w2 eq_refl
                (U _) (U _) (U _))).
  unfold ret, w2, w1, logged. simpl. do 2 f_equal.
  rewrite <- ?app_assoc. simpl. now rewrite <- ?app_assoc.
Qed.

Lemma example_prints_body_witness :
  result_of
    (Example_stream.main (ext := Examples.externals)
       (Examples.stream
          (fun n => match n with
                    | 5%nat => Got (false, Some [Byte.x68; Byte.x69])
                    | 6%nat => Got (false, None)
                    | _ => Got (true, None)
                    end))
       3 0 Examples.one_session)
  = Some (Return "hi").
Proof.
  rewrite (example_prints_body (ext := Examples.externals)
             (Examples.stream
                (fun n => match n with
                          | 5%nat => Got (false, Some [Byte.x68; Byte.x69])
                          | 6%nat => Got (false, None)
                          | _ => Got (true, None)
                          end))
             3 0 Examples.one_session 100 101 200 ∅ 104
             [Some [Byte.x68; Byte.x69]; None] "hi").
  - reflexivity.
  - reflexivity.
  - reflexivity.
  - reflexivity.
  - reflexivity.
  - reflexivity.
  - reflexivity.
  - simpl. auto.
  - left. now exists None.
  - reflexivity.
  - simpl. lia.
Defined.

(** ** The pool: which session is chosen, and when none is *)

Lemma random_choice_In {A} r (l : list A) d :
  l <> [] -> In (random_choice r l d) l.
Proof.
  intros N. unfold random_choice. apply nth_In. apply Nat.mod_upper_bound.
  destruct l; [congruence|discriminate].
Qed.

Lemma get_session_unfold env limit w :
  get_session env limit w
  = match selectable (sessions w) with
    | s0 :: l => choice env (s0 :: l) s0 w
    | [] =>
        match limit with
        | O => Finished (Raise RecursionError) (world_of (sleep env 3 w))
        | S limit' => get_session env limit' (world_of (sleep env 3 w))
        end
    end.
Proof.
  destruct limit; cbn [get_session]; unfold mbind, get_sessions;
    now destruct (selectable (sessions w)).
Qed.

(** When [get_session] raises, it is [RecursionError]: no session was
    selectable, and it has slept before each of its calls of itself and
    before the one that the interpreter refused. *)
Lemma get_session_raises env limit :
  forall w e w',
    get_session env limit w = Finished (Raise e) w' ->
    e = RecursionError
    /\ selectable (sessions w) = []
    /\ trace w' = (trace w ++ repeat (Sleep 3) (S limit))%list.
Proof.
  induction limit as [|limit IH]; intros w e w';
    rewrite get_session_unfold;
    destruct (selectable (sessions w)) as [|s0 l] eqn:E; try discriminate.
  - intros H. injection H as <- <-. now repeat split.
  - intros H. destruct (IH _ _ _ H) as (-> & _ & T).
    split; [reflexivity|]. split; [reflexivity|].
    rewrite T. simpl. now rewrite <- app_assoc.
Qed.

(** X9.  The session that [get_session] returns is, at that moment,
    available and not running.  The only exception it raises is
    [RecursionError], when no session was selectable at the start and it
    has slept three seconds before each of its calls of itself and before
    the call that the interpreter refuses; it always ends.  When some
    session is selectable at the start, it returns at once, with one draw
    among the selectable sessions and without sleeping. *)
Theorem get_session_picks_selectable env limit w :
  (forall i w',
      get_session env limit w = Finished (Return i) w' ->
      exists s, sessions w' !! i = Some s
                /\ available s = true /\ running s = false)
  /\ (forall e w',
         get_session env limit w = Finished (Raise e) w' ->
         e = RecursionError
         /\ selectable (sessions w) = []
         /\ trace w' = (trace w ++ repeat (Sleep 3) (S limit))%list)
  /\ (forall w', get_session env limit w <> Pending w')
  /\ (selectable (sessions w) <> [] ->
      exists i,
        In i (selectable (sessions w))
        /\ get_session env limit w
           = Finished (Return i)
               (log (RandomChoice (length (selectable (sessions w)))) w)).
Proof.
  split; [|split; [|split]].
  - revert w. induction limit as [|limit IH]; intros w i w';
      rewrite get_session_unfold;
      destruct (selectable (sessions w)) as [|s0 l] eqn:E; try discriminate.
    2: apply IH.
    all: unfold choice; intros H; injection H as <- <-; apply selectable_spec.
    all: cbn [sessions log]; rewrite E; now apply random_choice_In.
  - apply get_session_raises.
  - revert w. induction limit as [|limit IH]; intros w w';
      rewrite get_session_unfold;
      destruct (selectable (sessions w)) as [|s0 l] eqn:E; try discriminate.
    apply IH.
  - intros N. rewrite get_session_unfold.
    destruct (selectable (sessions w)) as [|s0 l] eqn:E; [congruence|].
    eexists. split; [|reflexivity]. now apply random_choice_In.
Qed.

Lemma get_session_picks_selectable_witness :
  exists i,
    In i (selectable (sessions Examples.one_session))
    /\ get_session (Examples.upstream (fun _ => Got 200%Z)) 0
         Examples.one_session
       = Finished (Return i)
           (log (RandomChoice
                   (length (selectable (sessions Examples.one_session))))
              Examples.one_session).
Proof.
  apply (proj2 (proj2 (proj2 (get_session_picks_selectable
                                (Examples.upstream (fun _ => Got 200%Z)) 0
                                Examples.one_session)))).
  discriminate.
Defined.

Lemma get_session_starves env :
  nothing_frees_up env ->
  forall limit w,
    selectable (sessions w) = [] ->
    exists w',
      get_session env limit w = Finished (Raise RecursionError) w'
      /\ trace w' = (trace w ++ repeat (Sleep 3) (S limit))%list
      /\ selectable (sessions w') = []
      /\ tasks w' = tasks w
      /\ cookie_manager w' = cookie_manager w
      /\ cookie_file w' = cookie_file w.
Proof.
  intros Q. induction limit as [|limit IH]; intros w E;
    rewrite get_session_unfold, E.
  - eexists. split; [reflexivity|]. simpl. repeat split. now apply Q.
  - destruct (IH (world_of (sleep env 3 w))) as (w' & P & T & N & K & C & F).
    { simpl. now apply Q. }
    exists w'. split; [exact P|]. simpl in T, K, C, F.
    rewrite T, <- app_assoc. now repeat split.
Qed.

(** X10.  As long as no session is selectable and the coroutines that
    run while [get_session] sleeps make none selectable, [call_api] does
    not get past [get_session]: it sleeps, three seconds at a time, once
    more than the interpreter lets [get_session] call itself, and ends
    in [RecursionError]; it has made no request, scheduled nothing and
    left the store and the file alone. *)
Theorem call_api_waits_for_a_session {ext : Externals} env w :
  nothing_frees_up env ->
  selectable (sessions w) = [] ->
  forall limit m u h d t first,
    exists w',
      call_api env limit m u h d t first w = Finished (Raise RecursionError) w'
      /\ trace w' = (trace w ++ repeat (Sleep 3) (S limit))%list
      /\ tasks w' = tasks w
      /\ cookie_manager w' = cookie_manager w
      /\ cookie_file w' = cookie_file w.
Proof.
  intros Q E limit m u h d t first.
  destruct (get_session_starves env Q limit w E)
    as (w' & P & T & _ & K & C & F).
  exists w'. rewrite call_api_unfold. unfold attempt, mbind at 1.
  rewrite P. now repeat split.
Qed.

Lemma call_api_waits_for_a_session_witness :
  exists w',
    call_api (ext := Examples.externals) (Examples.upstream (fun _ => Got 200%Z))
      2 "GET" "/c/5" ∅ None None true Examples.one_session_unavailable
    = Finished (Raise RecursionError) w'
    /\ trace w' = [Sleep 3; Sleep 3; Sleep 3].
Proof.
  destruct (call_api_waits_for_a_session (ext := Examples.externals)
              (Examples.upstream (fun _ => Got 200%Z))
              Examples.one_session_unavailable
              (fun n ss E => E) eq_refl 2 "GET" "/c/5" ∅ None None true)
    as (w' & P & T & _).
  exists w'. split; [exact P|exact T].
Defined.

Lemma selectable_nil ss :
  (forall j s, ss !! j = Some s -> available s = false) -> selectable ss = [].
Proof.
  intros H. destruct (selectable ss) as [|j l] eqn:E; [reflexivity|].
  assert (I : In j (selectable ss)) by (rewrite E; now left).
  apply selectable_spec in I. destruct I as (s & L & A & _).
  rewrite (H j s L) in A. discriminate.
Qed.

(** X11.  [SessionManager(limit=n)] hands [init_page()] of each of its
    [n] sessions to the event loop, in their order, and none of the
    sessions is selectable: until one of these tasks has made its
    session available, a request through [call_api] sleeps, three
    seconds at a time, once more than the interpreter lets
    [get_session] call itself, makes no call of the page, and ends in
    [RecursionError] with the tasks still scheduled. *)
Theorem fresh_pool_waits {ext : Externals} env cm f n :
  nothing_frees_up env ->
  let w := SessionManager_init cm f n in
  forall limit m u h d t first,
    exists w',
      call_api env limit m u h d t first w = Finished (Raise RecursionError) w'
      /\ trace w' = repeat (Sleep 3) (S limit)
      /\ tasks w'
         = List.map (fun i => InitPage i false) (seq 0 (Z.to_nat n))
      /\ cookie_manager w' = cm
      /\ cookie_file w' = f.
Proof.
  intros Q w.
  assert (E : selectable (sessions w) = []).
  { apply selectable_nil. intros j s L. unfold w in L. simpl in L.
    apply lookup_replicate in L. destruct L as [-> _]. reflexivity. }
  intros limit m u h d t first.
  destruct (get_session_starves env Q limit w E)
    as (w' & P & T & _ & K & C & F).
  exists w'. rewrite call_api_unfold. unfold attempt, mbind at 1.
  rewrite P. now repeat split.
Qed.

Lemma fresh_pool_waits_witness :
  exists w',
    call_api (ext := Examples.externals) (Examples.upstream (fun _ => Got 200%Z))
      2 "GET" "/c/5" ∅ None None true
      (SessionManager_init Examples.empty_manager None 4)
    = Finished (Raise RecursionError) w'
    /\ trace w' = [Sleep 3; Sleep 3; Sleep 3]
    /\ tasks w'
       = [InitPage 0 false; InitPage 1 false; InitPage 2 false;
          InitPage 3 false]
    /\ cookie_manager w' = Examples.empty_manager
    /\ cookie_file w' = None.
Proof.
  exact (fresh_pool_waits (ext := Examples.externals)
           (Examples.upstream (fun _ => Got 200%Z))
           Examples.empty_manager None 4 (fun n ss E => E)
           2 "GET" "/c/5" ∅ None None true).
Defined.

(** ** [_call_api]: what it does with a status, and how it is wound up *)

(** What [refresh_session_cookie] does to a response and to the world. *)
Lemma refresh_session_cookie_spec env t r w :
  let o := refresh_session_cookie env t r w in
  cookie_manager (world_of o) = cookie_manager w
  /\ cookie_file (world_of o) = cookie_file w
  /\ tasks (world_of o) = tasks w
  /\ forall r' w', o = Finished (Return r') w' ->
       status r' = status r /\ controller r' = controller r
       /\ response r' = response r.
Proof.
  unfold refresh_session_cookie, get_cookie, mbind, await, ret.
  destruct (truthy_opt t); [|simpl; repeat split; congruence].
  destruct (on_cookies env (length (trace w))) as [cs| | |]; simpl;
    try (repeat split; congruence).
  destruct (truthy _); simpl; repeat split; try reflexivity.
  all: injection H as <- _; reflexivity.
Qed.

Lemma world_of_handler {A} (m : M A) (a : A) w :
  world_of (except_PlaywrightError m (fun _ => ret a) w) = world_of (m w).
Proof.
  unfold except_PlaywrightError. now destruct (m w) as [[?|[]] ?|?].
Qed.

Lemma _call_api_after_fetch env i m u h d t to w w1 resp c w2 :
  install_session_token env i t w = Finished (Return tt) w1 ->
  fetch env i m u h d [] to w1 = Finished (Return (resp, c)) w2 ->
  _call_api env i m u h d t to w
  = except_PlaywrightError (on_response env i u t c resp)
      (fun _ => ret (StreamResponse_init 403, InHandler)) w2.
Proof.
  intros E1 E2. unfold _call_api, except_PlaywrightError, _call_api_try.
  now rewrite (mbind_return _ _ _ _ _ E1), (mbind_return _ _ _ _ _ E2).
Qed.

Lemma on_response_forbidden_unfold env i u t c resp w2 :
  status resp = 403%Z ->
  on_response env i u t c resp w2
  = match delete_cf_clearance
            (session_cf_clearance
               (nth i (sessions w2) (mkChatSession false false "")))
            (cookie_manager w2) (cookie_file w2) with
    | (Return _, cm, f) =>
        (response' <- refresh_session_cookie env t resp ;;
         ret (response', InFetch i c resp))
          (mkWorld (sessions w2) cm f (tasks w2 ++ [GetCfCookies i 20 true])
             (trace w2))
    | (Raise e, cm, f) =>
        Finished (Raise e) (mkWorld (sessions w2) cm f (tasks w2) (trace w2))
    end.
Proof.
  intros S. unfold on_response. rewrite S. cbn [Z.eqb Pos.eqb].
  unfold mbind, get_session_state, cookie_manager_delete_cf_clearance,
    ensure_future.
  destruct (delete_cf_clearance _ _ _) as [[[b|e] cm] f]; reflexivity.
Qed.

Lemma on_response_forbidden env i u t c resp w2 :
  status resp = 403%Z ->
  let clearance :=
    session_cf_clearance (nth i (sessions w2) (mkChatSession false false "")) in
  let o := on_response env i u t c resp w2 in
  match delete_cf_clearance clearance (cookie_manager w2) (cookie_file w2) with
  | (Return _, cm, f) =>
      cookie_manager (world_of o) = cm
      /\ cookie_file (world_of o) = f
      /\ tasks (world_of o) = (tasks w2 ++ [GetCfCookies i 20 true])%list
      /\ forall r k w', o = Finished (Return (r, k)) w' -> status r = 403%Z
  | (Raise e, cm, f) =>
      o = Finished (Raise e)
            (mkWorld (sessions w2) cm f (tasks w2) (trace w2))
  end.
Proof.
  intros S clearance o. unfold o, clearance.
  rewrite (on_response_forbidden_unfold env i u t c resp w2 S).
  destruct (delete_cf_clearance _ _ _) as [[[b|e] cm] f]; [|reflexivity].
  match goal with
  | |- context [mbind (refresh_session_cookie env t resp) ?k ?w0] =>
      pose proof (refresh_session_cookie_spec env t resp w0) as (A & B & C & D);
      cbn zeta in A, B, C, D; unfold mbind;
      destruct (refresh_session_cookie env t resp w0) as [[r'|e] w3|w3]
  end; simpl in *; repeat split; auto; try discriminate.
  intros r k w' H. unfold ret in H. injection H as <- _ _.
  destruct (D r' w3 eq_refl) as (D1 & _). congruence.
Qed.

(** X12.  Status 403 from upstream.  With a session clearance of six
    fields, [_call_api] removes what the store holds under its first
    field, rewrites the file if something was stored there, and hands
    [get_cf_cookies(retry=20, wait=True)] to the event loop; with no
    session clearance it leaves store and file alone and schedules the
    same; with a session clearance that is not empty and does not have
    five dashes, [ValueError] leaves [_call_api] from the world in which
    the response arrived: nothing is scheduled.  Whatever it yields
    has status 403. *)
Theorem forbidden_invalidates_clearance env i m u h d t to w w1 resp c w2 :
  install_session_token env i t w = Finished (Return tt) w1 ->
  fetch env i m u h d [] to w1 = Finished (Return (resp, c)) w2 ->
  status resp = 403%Z ->
  let clearance :=
    session_cf_clearance (nth i (sessions w2) (mkChatSession false false "")) in
  let o := _call_api env i m u h d t to w in
  (clearance <> "" -> occurrences "-" clearance <> 5%nat ->
   o = Finished (Raise ValueError) w2)
  /\ (clearance = "" ->
      cookie_manager (world_of o) = cookie_manager w2
      /\ cookie_file (world_of o) = cookie_file w2
      /\ tasks (world_of o) = (tasks w2 ++ [GetCfCookies i 20 true])%list)
  /\ (forall cf_id x1 x2 x3 x4 x5,
        split "-" clearance = [cf_id; x1; x2; x3; x4; x5] ->
        cf_clearances (cookie_manager (world_of o))
        = delete cf_id (cf_clearances (cookie_manager w2))
        /\ puids (cookie_manager (world_of o)) = puids (cookie_manager w2)
        /\ cookie_file (world_of o)
           = match cf_clearances (cookie_manager w2) !! cf_id with
             | Some _ => Some (cookie_manager (world_of o))
             | None => cookie_file w2
             end
        /\ tasks (world_of o) = (tasks w2 ++ [GetCfCookies i 20 true])%list)
  /\ (forall r k w', o = Finished (Return (r, k)) w' -> status r = 403%Z).
Proof.
  intros E1 E2 S clearance o.
  assert (O : o = except_PlaywrightError (on_response env i u t c resp)
                    (fun _ => ret (StreamResponse_init 403, InHandler)) w2)
    by exact (_call_api_after_fetch env i m u h d t to w w1 resp c w2 E1 E2).
  assert (W : world_of o = world_of (on_response env i u t c resp w2)).
  { rewrite O. apply world_of_handler. }
  pose proof (on_response_forbidden env i u t c resp w2 S) as F.
  cbn zeta in F. fold clearance in F. rewrite <- W in F.
  unfold delete_cf_clearance in F.
  split; [|split; [|split]].
  - intros N Oc. apply truthy_spec in N. rewrite N in F.
    pose proof (split_length "-" clearance) as L.
    rewrite O. unfold except_PlaywrightError.
    destruct (split "-" clearance) as [|a0 [|a1 [|a2 [|a3 [|a4 [|a5 [|? ?]]]]]]];
      simpl in L; try congruence.
    all: rewrite F; now destruct w2.
  - intros Em. rewrite Em in F. cbn [truthy] in F.
    destruct F as (A & B & C & _). auto.
  - intros cf_id x1 x2 x3 x4 x5 Sp. rewrite Sp in F.
    assert (T : truthy clearance = true).
    { apply truthy_spec. exact (split_nonempty _ _ _ _ _ Sp). }
    rewrite T in F.
    destruct (cf_clearances (cookie_manager w2) !! cf_id) as [e0|] eqn:L;
      destruct F as (A & B & C & _); rewrite A, B, C.
    + now repeat split.
    + rewrite delete_id by exact L. now repeat split.
  - intros r k w' H. rewrite O in H. unfold except_PlaywrightError in H.
    destruct (on_response env i u t c resp w2) as [[[r0 k0]|e] w3|w3] eqn:X.
    + injection H as <- <- <-.
      destruct (truthy clearance);
        [destruct (split "-" clearance)
           as [|a0 [|a1 [|a2 [|a3 [|a4 [|a5 [|? ?]]]]]]];
         try discriminate F;
         destruct (cf_clearances (cookie_manager w2) !! a0)|];
        destruct F as (_ & _ & _ & F); exact (F _ _ _ eq_refl).
    + destruct e; try discriminate. unfold ret in H. now injection H as <- _ _.
    + discriminate.
Qed.

Lemma forbidden_invalidates_clearance_witness :
  let o :=
    _call_api (Examples.upstream (fun _ => Got 403%Z)) 0 "GET" "/c/5" ∅ None
      None 10 (one_session_with "id-100-a-b-c-d" (one_clearance 1900)) in
  cf_clearances (cookie_manager (world_of o))
  = delete "id" (cf_clearances (one_clearance 1900))
  /\ tasks (world_of o) = [GetCfCookies 0 20 true].
Proof.
  eassert (E1 : install_session_token (Examples.upstream (fun _ => Got 403%Z))
                  0 None
                  (one_session_with "id-100-a-b-c-d" (one_clearance 1900))
                = Finished (Return tt) _) by reflexivity.
  eassert (E2 : fetch (Examples.upstream (fun _ => Got 403%Z)) 0 "GET" "/c/5"
                  ∅ None [] 10 _ = Finished (Return (_, _)) _) by reflexivity.
  destruct (forbidden_invalidates_clearance _ _ _ _ _ _ _ _ _ _ _ _ _
              E1 E2 eq_refl) as (_ & _ & D & _).
  destruct (D "id" "100" "a" "b" "c" "d" eq_refl) as (A & _ & _ & T).
  split; [exact A|exact T].
Defined.



Lemma fetch_controller env i m u h d cookies to w resp c w' :
  fetch env i m u h d cookies to w = Finished (Return (resp, c)) w' ->
  controller resp = Some c.
Proof.
  unfold fetch. intros E.
  apply mbind_inv_return in E. destruct E as (? & ? & _ & E).
  apply mbind_inv_return in E. destruct E as (c0 & ? & _ & E).
  apply mbind_inv_return in E. destruct E as (r0 & ? & _ & E).
  apply mbind_inv_return in E. destruct E as (resp0 & ? & W & E).
  unfold ret in E. injection E as <- <- _.
  unfold wait_for_headers in W.
  destruct (mbind _ _ _) as [[[s hs]|[]] ?|?]; try discriminate.
  now injection W as <- _.
Qed.



(** X15.  [wait_for_headers] raises nothing but
    [StreamResponseException]; when it returns, it has asked for the
    status and then for the headers, and the response carries these
    with the two handles and the timeout it was given; without a
    response handle it raises at once. *)
Theorem wait_for_headers_outcomes env r c to w :
  (forall e w',
      wait_for_headers env r c to w = Finished (Raise e) w' ->
      exists msg, e = StreamResponseException msg)
  /\ (forall resp w',
        wait_for_headers env r c to w = Finished (Return resp) w' ->
        exists h,
          r = Some h
          /\ resp = mkStreamResponse (status resp) (headers resp) c r to
          /\ on_status env (length (trace w)) = Got (status resp)
          /\ on_headers env (S (length (trace w))) = Got (headers resp)
          /\ w' = log (EvalHeaders h) (log (EvalStatus h) w))
  /\ (r = None ->
      wait_for_headers env r c to w
      = Finished (Raise (StreamResponseException "response is None")) w).
Proof.
  unfold wait_for_headers. destruct r as [h|].
  - unfold mbind, await, ret.
    destruct (on_status env (length (trace w))) as [st|msg| |] eqn:Es; simpl.
    2-4: split; [|split]; intros; try discriminate;
         match goal with H : Finished _ _ = _ |- _ => injection H as <- _ end;
         eauto.
    rewrite length_app. simpl. rewrite Nat.add_1_r.
    destruct (on_headers env (S (length (trace w)))) as [hs|msg| |] eqn:Eh;
      simpl.
    2-4: split; [|split]; intros; try discriminate;
         match goal with H : Finished _ _ = _ |- _ => injection H as <- _ end;
         eauto.
    split; [|split]; intros; try discriminate.
    match goal with H : Finished _ _ = _ |- _ => injection H as <- <- end.
    exists h. now repeat split.
  - split; [|split]; intros; try discriminate; [|reflexivity].
    unfold raise in H. injection H as <- _. eauto.
Qed.

Lemma wait_for_headers_outcomes_witness :
  wait_for_headers (Examples.upstream (fun _ => Got 200%Z)) None None 30
    Examples.one_session
  = Finished (Raise (StreamResponseException "response is None"))
      Examples.one_session.
Proof.
  exact (proj2 (proj2 (wait_for_headers_outcomes
                         (Examples.upstream (fun _ => Got 200%Z)) None None 30
                         Examples.one_session)) eq_refl).
Defined.

(** ** The negotiation with Cloudflare *)

(** *** One round *)

Ltac destruct_answer :=
  match goal with
  | |- context [match ?r with Got _ => _ | Failed _ => _ | Crashed => _
                            | Late => _ end] =>
      destruct r as [[]| | |] || destruct r as [| | |]
  end.

Lemma poll_cases env p w :
  (solved p /\ poll env p w = Finished (Return true) w)
  \/ (~ solved p
      /\ (poll env p w = Finished (Return false) (world_of (sleep env 1 w))
          \/ poll env p w = Pending w)).
Proof.
  destruct p as [ls dv bv bc bk fv fc lv lc lk].
  unfold solved, poll, except_Exception, poll_body, visible_and_counted,
    mbind, ask, ret. cbn [load_state detail_visible button_visible button_count
    button_click frame_visible frame_count label_visible label_count
    label_click].
  destruct ls as [[]|?| |].
  2-4: right; split; [intros [? ?]; discriminate|auto].
  destruct dv as [[|]|?| |].
  1: left; auto.
  all: right; split; [intros [? ?]; discriminate|].
  2-4: auto.
  repeat (destruct_answer; cbn [negb Nat.eqb]; auto).
  all: repeat match goal with
         | |- context [negb (Nat.eqb ?n 0)] =>
             destruct (negb (Nat.eqb n 0))
         end; auto.
  all: repeat (destruct_answer; auto).
Qed.

Lemma poll_answered env p w w' :
  all_answered p -> poll env p w <> Pending w'.
Proof.
  destruct p as [ls dv bv bc bk fv fc lv lc lk].
  unfold all_answered, answered, poll, except_Exception, poll_body,
    visible_and_counted, mbind, ask, ret.
  cbn [load_state detail_visible button_visible button_count
    button_click frame_visible frame_count label_visible label_count
    label_click].
  intros (H1 & H2 & H3 & H4 & H5 & H6 & H7 & H8 & H9 & H10).
  destruct ls as [[]|?| |]; try congruence; try discriminate.
  destruct dv as [[|]|?| |]; try congruence; try discriminate.
  repeat (destruct_answer; cbn [negb Nat.eqb]; try congruence;
          try discriminate).
  all: repeat match goal with
         | |- context [negb (Nat.eqb ?n 0)] =>
             destruct (negb (Nat.eqb n 0))
         end; try discriminate.
  all: repeat (destruct_answer; try congruence; try discriminate).
Qed.

Lemma poll_unsolved env p w :
  all_answered p -> ~ solved p ->
  poll env p w = Finished (Return false) (world_of (sleep env 1 w)).
Proof.
  intros A N. destruct (poll_cases env p w) as [[S _]|[_ [E|E]]].
  - contradiction.
  - exact E.
  - now apply poll_answered in E.
Qed.

Lemma poll_solved env p w :
  solved p -> poll env p w = Finished (Return true) w.
Proof.
  intros S. destruct (poll_cases env p w) as [[_ E]|[N _]];
    [exact E|contradiction].
Qed.

(** *** The loop *)

Lemma trace_slept env s n w :
  trace (slept env s n w) = (trace w ++ repeat (Sleep s) n)%list.
Proof.
  revert w. induction n as [|n IH]; intros w; simpl.
  - now rewrite app_nil_r.
  - rewrite IH. simpl. now rewrite <- app_assoc.
Qed.

Lemma slept_store env s n w :
  cookie_manager (slept env s n w) = cookie_manager w
  /\ cookie_file (slept env s n w) = cookie_file w
  /\ tasks (slept env s n w) = tasks w.
Proof.
  revert w. induction n as [|n IH]; intros w; simpl; [auto|].
  destruct (IH (world_of (sleep env s w))) as (A & B & C). simpl in *. auto.
Qed.

Lemma slept_session env s n i w :
  leaves_session env i ->
  sessions (slept env s n w) !! i = sessions w !! i.
Proof.
  intros L. revert w. induction n as [|n IH]; intros w; simpl; [auto|].
  rewrite IH. simpl. apply L.
Qed.

Lemma poll_loop_exhausted env page retry :
  forall k w,
    (forall j, k <= j < k + retry ->
       all_answered (polls page j) /\ ~ solved (polls page j)) ->
    poll_loop env page retry k w
    = Finished (Return false) (slept env 1 retry w).
Proof.
  induction retry as [|retry IH]; intros k w H; [reflexivity|].
  cbn [poll_loop slept]. unfold mbind at 1.
  destruct (H k) as [A N]; [lia|].
  rewrite (poll_unsolved env _ w A N). apply IH.
  intros j Hj. apply H. lia.
Qed.

Lemma poll_loop_solved env page n :
  forall retry k w,
    n < retry ->
    (forall j, k <= j < k + n ->
       all_answered (polls page j) /\ ~ solved (polls page j)) ->
    solved (polls page (k + n)) ->
    poll_loop env page retry k w = Finished (Return true) (slept env 1 n w).
Proof.
  induction n as [|n IH]; intros retry k w L H Sv.
  - destruct retry as [|retry]; [lia|]. cbn [poll_loop slept].
    unfold mbind. rewrite Nat.add_0_r in Sv. now rewrite (poll_solved env _ w Sv).
  - destruct retry as [|retry]; [lia|]. cbn [poll_loop slept].
    unfold mbind at 1. destruct (H k) as [A N]; [lia|].
    rewrite (poll_unsolved env _ w A N). apply IH.
    + lia.
    + intros j Hj. apply H. lia.
    + now replace (S k + n)%nat with (k + S n)%nat by lia.
Qed.

(** *** The whole negotiation *)

Lemma mark_available_idem i b ss :
  mark_available i b (mark_available i b ss) = mark_available i b ss.
Proof.
  unfold mark_available. rewrite list_alter_alter_eq.
  now apply list_alter_ext.
Qed.

Lemma mark_available_lookup i b ss :
  mark_available i b ss !! i
  = (fun s => mkChatSession b (running s) (session_cf_clearance s))
      <$> ss !! i.
Proof. unfold mark_available. apply list_lookup_alter_eq. Qed.

Section Negotiating.
Context {ext : Externals} (env : Env) (page : Page).

Lemma get_cf_cookies_selected fuel i retry wait w v cm :
  cf_clearance fuel (draws page) (clock page) 0 (cookie_manager w)
  = (Return v, cm) ->
  (wait = true -> no_fetch page = Got tt) ->
  get_cf_cookies env page fuel i retry wait w
  = (await (AddCookies CF_CLEARANCE_KEY v (-1)) (on_unit env) ;;;
     ask (goto page) ;;;
     solved <- poll_loop env page (Z.to_nat retry) 0 ;;
     if solved then
       set_status i true ;;;
       c <- get_cookie env CF_CLEARANCE_KEY ;;
       set_cf_clearance i c ;;;
       cookie_manager_save_cf_clearance c
     else ensure_future (GetCfCookies i 20 false))
      (mkWorld (mark_available i false (sessions w)) cm (cookie_file w)
         (tasks w) (trace w)).
Proof.
  intros Sel Wt. unfold get_cf_cookies.
  unfold mbind at 1. unfold set_status at 1, update_session.
  unfold mbind at 1.
  assert (P : (if wait then wait_for_task page i else ret tt)
                (mkWorld (mark_available i false (sessions w))
                   (cookie_manager w) (cookie_file w) (tasks w) (trace w))
              = Finished (Return tt)
                  (mkWorld (mark_available i false (sessions w))
                     (cookie_manager w) (cookie_file w) (tasks w) (trace w))).
  { destruct wait; [|reflexivity].
    unfold wait_for_task, mbind, set_status, update_session, ask.
    rewrite (Wt eq_refl). cbn [sessions cookie_manager cookie_file tasks trace].
    fold (mark_available i false (sessions w)).
    fold (mark_available i false (mark_available i false (sessions w))).
    now rewrite mark_available_idem. }
  fold (mark_available i false (sessions w)). rewrite P.
  unfold mbind at 1. unfold cookie_manager_cf_clearance at 1.
  cbn [sessions cookie_manager cookie_file tasks trace]. now rewrite Sel.
Qed.

Lemma get_cf_cookies_started fuel i retry wait w v cm :
  cf_clearance fuel (draws page) (clock page) 0 (cookie_manager w)
  = (Return v, cm) ->
  (wait = true -> no_fetch page = Got tt) ->
  on_unit env (length (trace w)) = Got tt ->
  get_cf_cookies env page fuel i retry wait w
  = (ask (goto page) ;;;
     solved <- poll_loop env page (Z.to_nat retry) 0 ;;
     if solved then
       set_status i true ;;;
       c <- get_cookie env CF_CLEARANCE_KEY ;;
       set_cf_clearance i c ;;;
       cookie_manager_save_cf_clearance c
     else ensure_future (GetCfCookies i 20 false)) (started i v cm w).
Proof.
  intros Sel Wt U.
  rewrite (get_cf_cookies_selected fuel i retry wait w v cm Sel Wt).
  unfold mbind at 1. unfold await at 1.
  cbn [sessions cookie_manager cookie_file tasks trace]. now rewrite U.
Qed.

(** X16.  When the clearance cookie is set, the page is reached and none
    of the [retry] rounds finds the challenge solved, [get_cf_cookies]
    returns after [retry] sleeps of one second (at once for a [retry]
    that is not positive), having handed a new
    [get_cf_cookies(retry=20, wait=False)] to the event loop whatever
    its own arguments were; the file is as before, and the session,
    unless another coroutine has touched it, is not available. *)
Theorem negotiation_exhausted fuel i retry wait w v cm :
  cf_clearance fuel (draws page) (clock page) 0 (cookie_manager w)
  = (Return v, cm) ->
  (wait = true -> no_fetch page = Got tt) ->
  on_unit env (length (trace w)) = Got tt ->
  goto page = Got tt ->
  (forall k, k < Z.to_nat retry ->
     all_answered (polls page k) /\ ~ solved (polls page k)) ->
  exists w',
    get_cf_cookies env page fuel i retry wait w = Finished (Return tt) w'
    /\ tasks w' = (tasks w ++ [GetCfCookies i 20 false])%list
    /\ trace w'
       = (trace w ++ AddCookies CF_CLEARANCE_KEY v (-1)
            :: repeat (Sleep 1) (Z.to_nat retry))%list
    /\ cookie_manager w' = cm
    /\ cookie_file w' = cookie_file w
    /\ (leaves_session env i ->
        sessions w' !! i
        = (fun s => mkChatSession false (running s) (session_cf_clearance s))
            <$> sessions w !! i).
Proof.
  intros Sel Wt U G H.
  rewrite (get_cf_cookies_started fuel i retry wait w v cm Sel Wt U).
  unfold mbind at 1. unfold ask at 1. rewrite G.
  unfold mbind at 1. rewrite poll_loop_exhausted.
  2:{ intros j Hj. apply H. lia. }
  unfold ensure_future. eexists. split; [reflexivity|].
  cbn [sessions cookie_manager cookie_file tasks trace].
  destruct (slept_store env 1 (Z.to_nat retry) (started i v cm w))
    as (A & B & C).
  rewrite A, B, C, trace_slept. cbn [started tasks trace cookie_manager
    cookie_file]. rewrite <- app_assoc. repeat split.
  intros L. rewrite (slept_session env 1 _ i _ L). cbn [started sessions].
  apply mark_available_lookup.
Qed.

Lemma get_cf_cookies_solved fuel i retry wait w v cm n cookies :
  cf_clearance fuel (draws page) (clock page) 0 (cookie_manager w)
  = (Return v, cm) ->
  (wait = true -> no_fetch page = Got tt) ->
  on_unit env (length (trace w)) = Got tt ->
  goto page = Got tt ->
  n < Z.to_nat retry ->
  (forall k, k < n -> all_answered (polls page k) /\ ~ solved (polls page k)) ->
  solved (polls page n) ->
  on_cookies env (length (trace w) + 1 + n) = Got cookies ->
  let c := cookie_value CF_CLEARANCE_KEY cookies in
  exists r cm' f' w',
    save_cf_clearance c cm (cookie_file w) = (r, cm', f')
    /\ get_cf_cookies env page fuel i retry wait w = Finished r w'
    /\ cookie_manager w' = cm'
    /\ cookie_file w' = f'
    /\ tasks w' = tasks w
    /\ trace w'
       = (trace w ++ AddCookies CF_CLEARANCE_KEY v (-1)
            :: repeat (Sleep 1) n ++ [Cookies])%list
    /\ (leaves_session env i ->
        sessions w' !! i
        = (fun s => mkChatSession true (running s) c) <$> sessions w !! i).
Proof.
  intros Sel Wt U G N H Sv Ck c.
  rewrite (get_cf_cookies_started fuel i retry wait w v cm Sel Wt U).
  unfold mbind at 1. unfold ask at 1. rewrite G.
  unfold mbind at 1.
  rewrite (poll_loop_solved env page n (Z.to_nat retry) 0 _ N).
  2:{ intros j Hj. apply H. lia. }
  2:{ exact Sv. }
  set (ws := slept env 1 n (started i v cm w)).
  assert (T : trace ws
              = (trace w ++ AddCookies CF_CLEARANCE_KEY v (-1)
                   :: repeat (Sleep 1) n)%list).
  { unfold ws. rewrite trace_slept. cbn [started trace].
    now rewrite <- app_assoc. }
  assert (Len : length (trace ws) = (length (trace w) + 1 + n)%nat).
  { rewrite T, length_app. cbn [length]. rewrite repeat_length. lia. }
  destruct (slept_store env 1 n (started i v cm w)) as (A & B & C).
  fold ws in A, B, C. cbn [started cookie_manager cookie_file tasks] in A, B, C.
  unfold mbind at 1. unfold set_status at 1, update_session.
  unfold mbind at 1. unfold get_cookie, mbind at 1, await.
  cbn [sessions cookie_manager cookie_file tasks trace].
  rewrite Len, Ck. unfold ret, log.
  cbn [sessions cookie_manager cookie_file tasks trace].
  fold (cookie_value CF_CLEARANCE_KEY cookies). fold c.
  unfold mbind, set_cf_clearance, update_session,
    cookie_manager_save_cf_clearance.
  cbn [sessions cookie_manager cookie_file tasks trace].
  rewrite A, B, C.
  destruct (save_cf_clearance c cm (cookie_file w)) as [[r cm'] f'].
  exists r, cm', f'. eexists. split; [reflexivity|]. split; [reflexivity|].
  cbn [sessions cookie_manager cookie_file tasks trace].
  rewrite T, <- app_assoc. repeat split.
  intros L. rewrite !list_lookup_alter_eq.
  unfold ws. rewrite (slept_session env 1 _ i _ L). cbn [started sessions].
  rewrite mark_available_lookup. now destruct (sessions w !! i).
Qed.

(** X17.  When the round [n], below [retry], is the first to find the
    challenge solved, [get_cf_cookies] sleeps [n] times, marks the
    session available, reads the cookies of the browser once and takes
    the value [c] of the cookie "cf_clearance" (the empty string if
    there is none) as the clearance of the session; its outcome is that
    of [save_cf_clearance(c)] on the store: for the empty string nothing
    is saved, and for a value that is not empty and does not have five
    dashes [ValueError] is raised, the session being available with that
    clearance already. *)
Theorem negotiation_succeeds fuel i retry wait w v cm n cookies :
  cf_clearance fuel (draws page) (clock page) 0 (cookie_manager w)
  = (Return v, cm) ->
  (wait = true -> no_fetch page = Got tt) ->
  on_unit env (length (trace w)) = Got tt ->
  goto page = Got tt ->
  n < Z.to_nat retry ->
  (forall k, k < n -> all_answered (polls page k) /\ ~ solved (polls page k)) ->
  solved (polls page n) ->
  on_cookies env (length (trace w) + 1 + n) = Got cookies ->
  let c := cookie_value CF_CLEARANCE_KEY cookies in
  exists r cm' f' w',
    save_cf_clearance c cm (cookie_file w) = (r, cm', f')
    /\ get_cf_cookies env page fuel i retry wait w = Finished r w'
    /\ cookie_manager w' = cm'
    /\ cookie_file w' = f'
    /\ tasks w' = tasks w
    /\ trace w'
       = (trace w ++ AddCookies CF_CLEARANCE_KEY v (-1)
            :: repeat (Sleep 1) n ++ [Cookies])%list
    /\ (leaves_session env i ->
        sessions w' !! i
        = (fun s => mkChatSession true (running s) c) <$> sessions w !! i)
    /\ (c = "" -> r = Return tt /\ cm' = cm /\ f' = cookie_file w)
    /\ (c <> "" -> occurrences "-" c <> 5%nat -> r = Raise ValueError).
Proof.
  intros Sel Wt U G N H Sv Ck c.
  destruct (get_cf_cookies_solved fuel i retry wait w v cm n cookies
              Sel Wt U G N H Sv Ck)
    as (r & cm' & f' & w' & S & E & A & B & C & T & L).
  exists r, cm', f', w'. fold c in S, L.
  do 7 (split; [assumption|]). split.
  - intros Em. rewrite Em in S. cbn in S. injection S as <- <- <-. auto.
  - intros Ne Oc.
    rewrite (save_cf_clearance_malformed c cm (cookie_file w) Ne Oc) in S.
    congruence.
Qed.

(** X18.  When Playwright fails to set the clearance cookie or to reach
    the page, the error leaves [get_cf_cookies]: the session has been
    marked unavailable, no new negotiation is handed to the event loop,
    and the file is as before. *)
Theorem negotiation_dies_before_the_loop fuel i retry wait w v cm msg :
  cf_clearance fuel (draws page) (clock page) 0 (cookie_manager w)
  = (Return v, cm) ->
  (wait = true -> no_fetch page = Got tt) ->
  on_unit env (length (trace w)) = Failed msg
  \/ (on_unit env (length (trace w)) = Got tt /\ goto page = Failed msg) ->
  exists w',
    get_cf_cookies env page fuel i retry wait w
    = Finished (Raise (PlaywrightError msg)) w'
    /\ tasks w' = tasks w
    /\ sessions w' = mark_available i false (sessions w)
    /\ cookie_file w' = cookie_file w.
Proof.
  intros Sel Wt [U|[U G]].
  - rewrite (get_cf_cookies_selected fuel i retry wait w v cm Sel Wt).
    unfold mbind at 1. unfold await at 1.
    cbn [sessions cookie_manager cookie_file tasks trace]. rewrite U.
    eexists. split; [reflexivity|]. now repeat split.
  - rewrite (get_cf_cookies_started fuel i retry wait w v cm Sel Wt U).
    unfold mbind at 1. unfold ask at 1. rewrite G.
    eexists. split; [reflexivity|]. now repeat split.
Qed.

Lemma poll_loop_unavailable i retry :
  leaves_session env i ->
  forall k w,
    unavailable i w ->
    unavailable i (world_of (poll_loop env page retry k w))
    /\ (forall w',
          poll_loop env page retry k w = Finished (Return true) w' ->
          exists j, k <= j < k + retry /\ solved (polls page j)).
Proof.
  intros L. induction retry as [|retry IH]; intros k w Un.
  - split; [exact Un|]. discriminate.
  - cbn [poll_loop]. unfold mbind.
    destruct (poll_cases env (polls page k) w) as [[Sv E]|[_ [E|E]]];
      rewrite E.
    + split; [exact Un|]. intros _ _. exists k. split; [lia|exact Sv].
    + destruct (IH (S k) (world_of (sleep env 1 w))) as [A B].
      { intros s. cbn [sleep world_of log sessions]. rewrite L. apply Un. }
      split; [exact A|]. intros w' H. destruct (B w' H) as (j & Hj & Sj).
      exists j. split; [lia|exact Sj].
    + split; [exact Un|]. discriminate.
Qed.

Lemma unavailable_mbind {A B} i (Q : Prop) (m : M A) (k : A -> M B) w :
  unavailable i (world_of (m w)) ->
  (forall a w', m w = Finished (Return a) w' ->
     unavailable i (world_of (k a w')) \/ Q) ->
  unavailable i (world_of (mbind m k w)) \/ Q.
Proof.
  intros Um Hk. unfold mbind.
  destruct (m w) as [[a|e] w1|w1] eqn:E; auto.
Qed.

Lemma unavailable_ask {A} i (r : reply A) w :
  unavailable i w -> unavailable i (world_of (ask r w)).
Proof. unfold ask. now destruct r. Qed.

Lemma ask_world {A} (r : reply A) w a w' :
  ask r w = Finished (Return a) w' -> w' = w.
Proof. unfold ask. destruct r; congruence. Qed.

(** X19.  Wherever [get_cf_cookies] has got to (returned, raised or
    still waiting), the session is available, unless another coroutine
    has touched it, only if one of the rounds below [retry] has found
    the page loaded and the text "detail" on it. *)
Theorem available_only_when_solved fuel i retry wait w s :
  leaves_session env i ->
  sessions (world_of (get_cf_cookies env page fuel i retry wait w)) !! i
  = Some s ->
  available s = true ->
  exists k, k < Z.to_nat retry /\ solved (polls page k).
Proof.
  intros L Ls Av.
  cut (unavailable i (world_of (get_cf_cookies env page fuel i retry wait w))
       \/ exists k, k < Z.to_nat retry /\ solved (polls page k)).
  { intros [Un|Q]; [|exact Q]. rewrite (Un s Ls) in Av. discriminate. }
  clear s Ls Av. unfold get_cf_cookies.
  assert (U0 : forall w0, unavailable i (world_of (set_status i false w0))).
  { intros w0 s. cbn [set_status update_session world_of sessions].
    rewrite list_lookup_alter_eq. destruct (sessions w0 !! i); [|discriminate].
    intros H. now injection H as <-. }
  apply unavailable_mbind; [apply U0|]. intros [] w1 E1.
  assert (U1 : unavailable i w1).
  { specialize (U0 w). rewrite E1 in U0. exact U0. }
  apply unavailable_mbind.
  { destruct wait; [|exact U1]. unfold wait_for_task, mbind.
    apply unavailable_ask.
    exact (U0 w1). }
  intros [] w2 E2.
  assert (U2 : unavailable i w2).
  { destruct wait.
    - unfold wait_for_task, mbind in E2. cbn [set_status update_session] in E2.
      apply ask_world in E2. subst w2. exact (U0 w1).
    - unfold ret in E2. now injection E2 as <-. }
  apply unavailable_mbind.
  { unfold cookie_manager_cf_clearance.
    now destruct (cf_clearance _ _ _ _ _) as [? ?]. }
  intros v w3 E3.
  assert (U3 : unavailable i w3).
  { unfold cookie_manager_cf_clearance in E3.
    destruct (cf_clearance _ _ _ _ _) as [? ?].
    now injection E3 as _ <-. }
  apply unavailable_mbind.
  { unfold await. now destruct (on_unit _ _). }
  intros [] w4 E4.
  assert (U4 : unavailable i w4).
  { unfold await in E4. destruct (on_unit _ _) as [[]| | |]; try discriminate.
    now injection E4 as <-. }
  apply unavailable_mbind; [now apply unavailable_ask|].
  intros [] w5 E5. apply ask_world in E5. subst w5.
  destruct (poll_loop_unavailable i (Z.to_nat retry) L 0 w4 U4) as [A B].
  apply unavailable_mbind; [exact A|].
  intros [|] w6 E6.
  - right. destruct (B w6 E6) as (j & Hj & Sj). exists j. split; [lia|easy].
  - left. rewrite E6 in A. exact A.
Qed.

End Negotiating.

Lemma quiet_poll_unsolved : all_answered quiet_poll /\ ~ solved quiet_poll.
Proof.
  split.
  - repeat split; discriminate.
  - intros [_ H]. discriminate H.
Qed.

Lemma negotiation_exhausted_witness :
  exists w',
    get_cf_cookies (ext := Examples.externals)
      (Examples.upstream (fun _ => Got 200%Z)) (page_solved_at 7) 1 0 3 true
      Examples.one_session
    = Finished (Return tt) w'
    /\ tasks w' = [GetCfCookies 0 20 false]
    /\ trace w'
       = [AddCookies CF_CLEARANCE_KEY "" (-1); Sleep 1; Sleep 1; Sleep 1].
Proof.
  destruct (negotiation_exhausted (ext := Examples.externals)
              (Examples.upstream (fun _ => Got 200%Z)) (page_solved_at 7)
              1 0 3 true Examples.one_session "" Examples.empty_manager
              eq_refl (fun _ => eq_refl) eq_refl eq_refl)
    as (w' & E & T & Tr & _).
  - intros [|[|[|k]]] Hk; try exact quiet_poll_unsolved. simpl in Hk. lia.
  - exists w'. split; [exact E|]. split; [exact T|exact Tr].
Defined.

Lemma negotiation_succeeds_witness :
  exists r cm' f' w',
    save_cf_clearance (ext := Examples.externals) "id-100-a-b-c-d"
      Examples.empty_manager None = (r, cm', f')
    /\ get_cf_cookies (ext := Examples.externals)
         (upstream_with_cookies 200 [(CF_CLEARANCE_KEY, "id-100-a-b-c-d")])
         (page_solved_at 2) 1 0 20 true Examples.one_session
       = Finished r w'
    /\ cookie_manager w' = cm'
    /\ cookie_file w' = f'.
Proof.
  destruct (negotiation_succeeds (ext := Examples.externals)
              (upstream_with_cookies 200 [(CF_CLEARANCE_KEY, "id-100-a-b-c-d")])
              (page_solved_at 2) 1 0 20 true Examples.one_session ""
              Examples.empty_manager 2
              [(CF_CLEARANCE_KEY, "id-100-a-b-c-d")]
              eq_refl (fun _ => eq_refl) eq_refl eq_refl)
    as (r & cm' & f' & w' & S & E & A & B & _).
  - simpl. lia.
  - intros [|[|k]] Hk; try exact quiet_poll_unsolved. lia.
  - split; reflexivity.
  - reflexivity.
  - exists r, cm', f', w'. auto.
Defined.

Lemma negotiation_dies_before_the_loop_witness :
  exists w',
    get_cf_cookies (ext := Examples.externals)
      (Examples.upstream (fun _ => Got 200%Z)) (page_unreachable "Timeout")
      1 0 20 false Examples.one_session
    = Finished (Raise (PlaywrightError "Timeout")) w'
    /\ tasks w' = [].
Proof.
  destruct (negotiation_dies_before_the_loop (ext := Examples.externals)
              (Examples.upstream (fun _ => Got 200%Z))
              (page_unreachable "Timeout") 1 0 20 false Examples.one_session
              "" Examples.empty_manager "Timeout" eq_refl
              (fun _ => eq_refl) (or_intror (conj eq_refl eq_refl)))
    as (w' & E & T & _).
  exists w'. split; [exact E|exact T].
Defined.

Lemma available_only_when_solved_witness :
  exists k, k < Z.to_nat 20 /\ solved (polls (page_solved_at 2) k).
Proof.
  eassert (Ls : sessions
                  (world_of
                     (get_cf_cookies (ext := Examples.externals)
                        (upstream_with_cookies 200
                           [(CF_CLEARANCE_KEY, "id-100-a-b-c-d")])
                        (page_solved_at 2) 1 0 20 true Examples.one_session))
                !! 0%nat
                = Some (mkChatSession true _ _)) by (vm_compute; reflexivity).
  exact (available_only_when_solved (ext := Examples.externals)
           (upstream_with_cookies 200 [(CF_CLEARANCE_KEY, "id-100-a-b-c-d")])
           (page_solved_at 2) 1 0 20 true Examples.one_session _
           (fun n ss => eq_refl) Ls eq_refl).
Defined.

(** ** Starting and restarting a session *)

Section Restarting.
Context {ext : Externals} (env : Env) (b : Browser) (old new : Page).

Lemma stop_for_restart_deleted i w b0 cm1 f1 :
  delete_cf_clearance
    (session_cf_clearance (nth i (sessions w) (mkChatSession false false "")))
    (cookie_manager w) (cookie_file w)
  = (Return b0, cm1, f1) ->
  stop_for_restart b old i w
  = (ask (no_fetch old) ;;;
     ask (page_close b) ;;;
     playwright_close b)
      (mkWorld (mark_available i false (sessions w)) cm1 f1 (tasks w)
         (trace w)).
Proof.
  intros D. unfold stop_for_restart, wait_for_task.
  unfold mbind at 1. unfold get_session_state.
  unfold mbind at 1. unfold cookie_manager_delete_cf_clearance. rewrite D.
  reflexivity.
Qed.

Lemma stop_for_restart_raises i w e cm1 f1 :
  delete_cf_clearance
    (session_cf_clearance (nth i (sessions w) (mkChatSession false false "")))
    (cookie_manager w) (cookie_file w)
  = (Raise e, cm1, f1) ->
  stop_for_restart b old i w
  = Finished (Raise e) (mkWorld (sessions w) cm1 f1 (tasks w) (trace w)).
Proof.
  intros D. unfold stop_for_restart.
  unfold mbind at 1. unfold get_session_state.
  unfold mbind at 1. unfold cookie_manager_delete_cf_clearance. now rewrite D.
Qed.

(** The calls of a restart up to the new page, the first failure among
    them, and the world they leave: that of the start, nothing being
    logged. *)
Lemma asks_fail w e :
  first_failure (stopping_and_starting old b) = Some e ->
  (ask (no_fetch old) ;;;
   ask (page_close b) ;;;
   playwright_close b ;;;
   playwright_start b ;;;
   ask (new_page b)) w
  = Finished (Raise e) w.
Proof.
  unfold stopping_and_starting, playwright_close, playwright_start, mbind, ask.
  destruct (no_fetch old) as [[]|?| |]; cbn [first_failure];
    [|congruence..].
  destruct (page_close b) as [[]|?| |]; cbn [first_failure]; [|congruence..].
  destruct (content_close b) as [[]|?| |]; cbn [first_failure];
    [|congruence..].
  destruct (browser_close b) as [[]|?| |]; cbn [first_failure];
    [|congruence..].
  destruct (playwright_exit b) as [[]|?| |]; cbn [first_failure];
    [|congruence..].
  destruct (playwright_started b) as [[]|?| |]; cbn [first_failure];
    [|congruence..].
  destruct (chromium_launch b) as [[]|?| |]; cbn [first_failure];
    [|congruence..].
  destruct (new_context b) as [[]|?| |]; cbn [first_failure];
    [|congruence..].
  destruct (new_page b) as [[]|?| |]; cbn [first_failure]; congruence.
Qed.

Lemma asks_answered w :
  Forall (fun r => r = Got tt) (stopping_and_starting old b) ->
  (ask (no_fetch old) ;;;
   ask (page_close b) ;;;
   playwright_close b ;;;
   playwright_start b ;;;
   ask (new_page b)) w
  = Finished (Return tt) w.
Proof.
  unfold stopping_and_starting. intros H.
  repeat (apply Forall_cons in H; destruct H as [? H]).
  unfold playwright_close, playwright_start, mbind, ask.
  repeat match goal with E : _ = Got tt |- _ => rewrite E; clear E end.
  reflexivity.
Qed.

(** The statements of [init_page] before the negotiation, on a restart. *)
Lemma restart_prefix i w b0 cm1 f1 :
  delete_cf_clearance
    (session_cf_clearance (nth i (sessions w) (mkChatSession false false "")))
    (cookie_manager w) (cookie_file w)
  = (Return b0, cm1, f1) ->
  (stop_for_restart b old i ;;; playwright_start b ;;; ask (new_page b)) w
  = (ask (no_fetch old) ;;;
     ask (page_close b) ;;;
     playwright_close b ;;;
     playwright_start b ;;;
     ask (new_page b))
      (mkWorld (mark_available i false (sessions w)) cm1 f1 (tasks w)
         (trace w)).
Proof.
  intros D. unfold mbind at 1.
  rewrite (stop_for_restart_deleted i w b0 cm1 f1 D).
  unfold playwright_close, mbind.
  repeat match goal with
         | |- context [ask ?r ?w0] =>
             destruct (ask r w0) as [[[]|?] ?|?]; try reflexivity
         end.
Qed.

(** X20.  A restart of a session whose clearance is not empty and does
    not have five dashes raises [ValueError] before anything is done:
    nothing is closed, the session is as available as it was and keeps
    its page, so that [init_page()] without [restart] does nothing
    either. *)
Theorem restart_with_malformed_clearance fuel i w :
  let clearance :=
    session_cf_clearance (nth i (sessions w) (mkChatSession false false "")) in
  clearance <> "" ->
  occurrences "-" clearance <> 5%nat ->
  init_page env b old new fuel i true true w
  = (Finished (Raise ValueError) w, true)
  /\ init_page env b old new fuel i false true w
     = (Finished (Return tt) w, true).
Proof.
  intros clearance N O. split; [|reflexivity].
  unfold init_page. cbn [negb andb]. unfold mbind at 1.
  rewrite (stop_for_restart_raises i w ValueError (cookie_manager w)
             (cookie_file w)).
  - now destruct w.
  - now apply delete_cf_clearance_malformed.
Qed.

(** X21.  A restart during which Playwright fails before the new page
    exists (while the requests in flight are waited for, the old page
    and browser are closed, or the new browser and page are opened)
    ends with that failure.  The clearance of the session is gone from
    the store by then, the session is marked unavailable and still has
    its old page, so that [init_page()] without [restart] finds a page
    and does nothing: the session stays unavailable. *)
Theorem failed_restart_is_not_repeated fuel i w b0 cm1 f1 e :
  delete_cf_clearance
    (session_cf_clearance (nth i (sessions w) (mkChatSession false false "")))
    (cookie_manager w) (cookie_file w)
  = (Return b0, cm1, f1) ->
  first_failure (stopping_and_starting old b) = Some e ->
  let w1 :=
    mkWorld (mark_available i false (sessions w)) cm1 f1 (tasks w) (trace w) in
  init_page env b old new fuel i true true w = (Finished (Raise e) w1, true)
  /\ init_page env b old new fuel i false true w1
     = (Finished (Return tt) w1, true)
  /\ unavailable i w1.
Proof.
  intros D F w1. split; [|split; [reflexivity|]].
  - unfold init_page. cbn [negb andb].
    rewrite (restart_prefix i w b0 cm1 f1 D). fold w1.
    now rewrite (asks_fail w1 e F).
  - intros s. unfold w1. cbn [sessions]. unfold mark_available.
    rewrite list_lookup_alter_eq.
    destruct (sessions w !! i); [|discriminate].
    intros H. now injection H as <-.
Qed.

(** X22.  A restart during which the browser answers every call and the
    round [n], below 20, is the first to find the challenge solved: the
    session ends up with a page, available, and with the clearance [c]
    that the browser holds; what the store held under the id of the old
    clearance has been deleted before a stored clearance was selected
    for the new page, and store and file end as [save_cf_clearance(c)]
    leaves them. *)
Theorem restart_renews_clearance fuel i w b0 cm1 f1 v cm2 n cookies cm3 f3 :
  delete_cf_clearance
    (session_cf_clearance (nth i (sessions w) (mkChatSession false false "")))
    (cookie_manager w) (cookie_file w)
  = (Return b0, cm1, f1) ->
  Forall (fun r => r = Got tt) (stopping_and_starting old b) ->
  add_init_script b = Got tt ->
  expose_set_cookie b = Got tt ->
  expose_get_cookie b = Got tt ->
  cf_clearance fuel (draws new) (clock new) 0 cm1 = (Return v, cm2) ->
  on_unit env (length (trace w)) = Got tt ->
  goto new = Got tt ->
  n < 20 ->
  (forall k, k < n -> all_answered (polls new k) /\ ~ solved (polls new k)) ->
  solved (polls new n) ->
  on_cookies env (length (trace w) + 1 + n) = Got cookies ->
  save_cf_clearance (cookie_value CF_CLEARANCE_KEY cookies) cm2 f1
  = (Return tt, cm3, f3) ->
  exists w',
    init_page env b old new fuel i true true w = (Finished (Return tt) w', true)
    /\ cookie_manager w' = cm3
    /\ cookie_file w' = f3
    /\ tasks w' = tasks w
    /\ (leaves_session env i ->
        sessions w' !! i
        = (fun s =>
             mkChatSession true (running s)
               (cookie_value CF_CLEARANCE_KEY cookies))
            <$> sessions w !! i).
Proof.
  intros D F Ai Es Eg Sel U G N H Sv Ck Save.
  unfold init_page. cbn [negb andb].
  rewrite (restart_prefix i w b0 cm1 f1 D).
  set (w1 := mkWorld (mark_available i false (sessions w)) cm1 f1 (tasks w)
               (trace w)).
  rewrite (asks_answered w1 F).
  destruct (get_cf_cookies_solved env new fuel i 20 false w1 v cm2 n cookies
              Sel (fun X => False_ind _ (diff_false_true X)) U G) as
    (r & cm' & f' & w' & S & E & A & B & C & _ & L).
  { simpl. lia. }
  { exact H. }
  { exact Sv. }
  { exact Ck. }
  cbn [w1 cookie_file] in S. rewrite Save in S. injection S as <- <- <-.
  exists w'. unfold mbind, ask. rewrite Ai, E, Es, Eg.
  split; [reflexivity|]. split; [exact A|]. split; [exact B|].
  split; [exact C|].
  intros Lv. rewrite (L Lv). cbn [w1 sessions].
  rewrite mark_available_lookup. now destruct (sessions w !! i).
Qed.

(** X23.  The first start of a session, which has no page yet, with a
    browser that answers every call: when the round [n], below 20, is
    the first to find the challenge solved and the clearance [c] that
    the browser then holds can be saved, [init_page] returns with the
    page set, and the session, if it is not running and no other
    coroutine has touched it, is selectable from then on. *)
Theorem first_start_makes_session_selectable
    fuel i restart w s v cm2 n cookies cm3 f3 :
  sessions w !! i = Some s ->
  running s = false ->
  playwright_started b = Got tt ->
  chromium_launch b = Got tt ->
  new_context b = Got tt ->
  new_page b = Got tt ->
  add_init_script b = Got tt ->
  expose_set_cookie b = Got tt ->
  expose_get_cookie b = Got tt ->
  cf_clearance fuel (draws new) (clock new) 0 (cookie_manager w)
  = (Return v, cm2) ->
  on_unit env (length (trace w)) = Got tt ->
  goto new = Got tt ->
  n < 20 ->
  (forall k, k < n -> all_answered (polls new k) /\ ~ solved (polls new k)) ->
  solved (polls new n) ->
  on_cookies env (length (trace w) + 1 + n) = Got cookies ->
  save_cf_clearance (cookie_value CF_CLEARANCE_KEY cookies) cm2 (cookie_file w)
  = (Return tt, cm3, f3) ->
  leaves_session env i ->
  exists w',
    init_page env b old new fuel i restart false w
    = (Finished (Return tt) w', true)
    /\ In i (selectable (sessions w'))
    /\ cookie_manager w' = cm3
    /\ cookie_file w' = f3
    /\ tasks w' = tasks w.
Proof.
  intros Ls Rn Ps Cl Nc Np Ai Es Eg Sel U G N H Sv Ck Save Lv.
  assert (P : (ret tt ;;; playwright_start b ;;; ask (new_page b)) w
              = Finished (Return tt) w).
  { unfold playwright_start, mbind, ask, ret. now rewrite Ps, Cl, Nc, Np. }
  assert (I : init_page env b old new fuel i restart false w
              = ((ask (add_init_script b) ;;;
                  get_cf_cookies env new fuel i 20 false ;;;
                  ask (expose_set_cookie b) ;;;
                  ask (expose_get_cookie b)) w, true)).
  { unfold init_page. destruct restart; cbn [negb andb]; now rewrite P. }
  rewrite I. clear I P.
  destruct (get_cf_cookies_solved env new fuel i 20 false w v cm2 n cookies
              Sel (fun X => False_ind _ (diff_false_true X)) U G) as
    (r & cm' & f' & w' & S & E & A & B & C & _ & L).
  { simpl. lia. }
  { exact H. }
  { exact Sv. }
  { exact Ck. }
  rewrite Save in S. injection S as <- <- <-.
  exists w'. unfold mbind, ask. rewrite Ai, E, Es, Eg.
  split; [reflexivity|]. split; [|auto].
  apply selectable_spec. eexists. split.
  { rewrite (L Lv), Ls. reflexivity. }
  split; [reflexivity|exact Rn].
Qed.

End Restarting.

Lemma restart_with_malformed_clearance_witness :
  init_page (ext := Examples.externals)
    (Examples.upstream (fun _ => Got 200%Z)) browser_fine
    (page_solved_at 0) (page_solved_at 0) 1 0 true true
    (one_session_with "no_dashes" Examples.empty_manager)
  = (Finished (Raise ValueError)
       (one_session_with "no_dashes" Examples.empty_manager), true).
Proof.
  apply (restart_with_malformed_clearance (ext := Examples.externals)
           (Examples.upstream (fun _ => Got 200%Z)) browser_fine
           (page_solved_at 0) (page_solved_at 0) 1 0
           (one_session_with "no_dashes" Examples.empty_manager)).
  - discriminate.
  - vm_compute. discriminate.
Defined.

Lemma failed_restart_is_not_repeated_witness :
  unavailable 0
    (mkWorld
       (mark_available 0 false
          (sessions (one_session_with "id-100-a-b-c-d" (one_clearance 1900))))
       (mkCookieManager (delete "id" (cf_clearances (one_clearance 1900))) ∅)
       (Some (mkCookieManager
                (delete "id" (cf_clearances (one_clearance 1900))) ∅))
       [] []).
Proof.
  exact (proj2 (proj2 (failed_restart_is_not_repeated
                         (ext := Examples.externals)
                         (Examples.upstream (fun _ => Got 200%Z))
                         (browser_not_launching "Executable not found")
                         (page_solved_at 0) (page_solved_at 0) 1 0
                         (one_session_with "id-100-a-b-c-d"
                            (one_clearance 1900))
                         true _ _ (PlaywrightError "Executable not found")
                         eq_refl eq_refl))).
Defined.

Lemma restart_renews_clearance_witness :
  exists w',
    init_page (ext := Examples.externals)
      (upstream_with_cookies 200 [(CF_CLEARANCE_KEY, "new-200-a-b-c-d")])
      browser_fine (page_solved_at 0) (page_solved_at 1) 1 0 true true
      (one_session_with "id-100-a-b-c-d" (one_clearance 1900))
    = (Finished (Return tt) w', true)
    /\ cookie_manager w'
       = mkCookieManager
           {["new" := mkEntry (Some "new-200-a-b-c-d") (Some 2000%Z)]} ∅.
Proof.
  set (cm1 := mkCookieManager
                (delete "id" (cf_clearances (one_clearance 1900))) ∅).
  set (cm3 := mkCookieManager
                (<["new" := mkEntry (Some "new-200-a-b-c-d") (Some 2000%Z)]>
                   (cf_clearances cm1)) ∅).
  destruct (restart_renews_clearance (ext := Examples.externals)
              (upstream_with_cookies 200
                 [(CF_CLEARANCE_KEY, "new-200-a-b-c-d")])
              browser_fine (page_solved_at 0) (page_solved_at 1) 1 0
              (one_session_with "id-100-a-b-c-d" (one_clearance 1900))
              true cm1 (Some cm1) "" cm1 1
              [(CF_CLEARANCE_KEY, "new-200-a-b-c-d")] cm3 (Some cm3))
    as (w' & E & A & _).
  - reflexivity.
  - repeat constructor.
  - reflexivity.
  - reflexivity.
  - reflexivity.
  - reflexivity.
  - reflexivity.
  - reflexivity.
  - lia.
  - intros [|k] Hk; [exact quiet_poll_unsolved|lia].
  - split; reflexivity.
  - reflexivity.
  - reflexivity.
  - exists w'. split; [exact E|]. rewrite A. reflexivity.
Defined.

Lemma first_start_makes_session_selectable_witness :
  exists w',
    init_page (ext := Examples.externals)
      (upstream_with_cookies 200 [(CF_CLEARANCE_KEY, "new-200-a-b-c-d")])
      browser_fine (page_solved_at 0) (page_solved_at 1) 1 0 false false
      (SessionManager_init Examples.empty_manager None 1)
    = (Finished (Return tt) w', true)
    /\ In 0%nat (selectable (sessions w')).
Proof.
  set (cm3 := mkCookieManager
                {["new" := mkEntry (Some "new-200-a-b-c-d") (Some 2000%Z)]} ∅).
  destruct (first_start_makes_session_selectable (ext := Examples.externals)
              (upstream_with_cookies 200
                 [(CF_CLEARANCE_KEY, "new-200-a-b-c-d")])
              browser_fine (page_solved_at 0) (page_solved_at 1) 1 0 false
              (SessionManager_init Examples.empty_manager None 1)
              ChatSession_init "" Examples.empty_manager 1
              [(CF_CLEARANCE_KEY, "new-200-a-b-c-d")] cm3 (Some cm3))
    as (w' & E & S & _).
  - reflexivity.
  - reflexivity.
  - reflexivity.
  - reflexivity.
  - reflexivity.
  - reflexivity.
  - reflexivity.
  - reflexivity.
  - reflexivity.
  - reflexivity.
  - reflexivity.
  - reflexivity.
  - lia.
  - intros [|k] Hk; [exact quiet_poll_unsolved|lia].
  - split; reflexivity.
  - reflexivity.
  - reflexivity.
  - intros k ss. reflexivity.
  - exists w'. split; [exact E|exact S].
Defined.

(** ** A request with a session token that Playwright fails *)

(** X24.  A request with a session token marks its session running
    before anything is asked of the browser, and only the winding up of
    [fetch] clears the mark.  When Playwright fails such a request
    before its response exists, [_call_api] yields the response of its
    [except] clause, [call_api] on its first pass leaves the block,
    where nothing is wound up, and tries again: in the world of that
    second pass the session of the first is still running, hence not
    selectable, and if no other session is selectable and none becomes
    so, the request makes no second fetch: it sleeps, three seconds at
    a time, until the interpreter refuses [get_session] one more call
    of itself, and ends in [RecursionError]. *)
Theorem retry_after_fault_finds_session_busy {ext : Externals}
    env fuel m u h d t w i w0 path r w1 s :
  get_session env fuel w = Finished (Return i) w0 ->
  urlsplit_path u = Return path ->
  truthy_opt (kept_session_token path h t) = true ->
  _call_api env i m u h d (kept_session_token path h t) 10 w0
  = Finished (Return (r, InHandler)) w1 ->
  sessions w0 !! i = Some s ->
  call_api env (S fuel) m u h d t true w
  = call_api env fuel m u h d t false w1
  /\ sessions w1 = mark_running i true (sessions w0)
  /\ ~ In i (selectable (sessions w1))
  /\ (nothing_frees_up env ->
      selectable (sessions w1) = [] ->
      exists w',
        call_api env (S fuel) m u h d t true w
        = Finished (Raise RecursionError) w'
        /\ trace w' = (trace w1 ++ repeat (Sleep 3) (S fuel))%list).
Proof.
  intros G P T E L.
  assert (A : attempt env (S fuel) m u h d t w
              = Finished (Return (r, InHandler)) w1).
  { unfold attempt.
    rewrite (mbind_return _ _ _ _ _ (get_session_more_fuel _ _ _ _ _ G)).
    unfold mbind at 1. rewrite P. exact E. }
  assert (R : r = StreamResponse_init 403)
    by exact (_call_api_handler_response _ _ _ _ _ _ _ _ _ _ _ E).
  assert (C : call_api env (S fuel) m u h d t true w
              = call_api env fuel m u h d t false w1).
  { rewrite call_api_unfold, A, R. reflexivity. }
  assert (M : sessions w1 = mark_running i true (sessions w0)).
  { pose proof (_call_api_sessions env i m u h d
                  (kept_session_token path h t) 10 w0) as X.
    rewrite E, T in X. exact X. }
  split; [exact C|]. split; [exact M|]. split.
  - rewrite M. intros I. apply selectable_spec in I.
    destruct I as (s' & L' & _ & Rn).
    rewrite (mark_running_lookup i true (sessions w0) s L) in L'.
    injection L' as <-. discriminate Rn.
  - intros Q N. rewrite C.
    destruct (get_session_starves env Q fuel w1 N) as (w' & Pd & Tr & _).
    exists w'. split; [|exact Tr].
    rewrite call_api_unfold. unfold attempt, mbind at 1. now rewrite Pd.
Qed.

Lemma retry_after_fault_finds_session_busy_witness :
  exists w',
    call_api (ext := Examples.externals)
      (Examples.upstream_with_unit (fun _ => Got 200%Z)
         (fun _ => Failed "Target closed"))
      3 "GET" "/c/5" ∅ None (Some "tok") true Examples.one_session
    = Finished (Raise RecursionError) w'
    /\ List.filter (fun c => match c with Sleep _ => true | _ => false end)
         (trace w')
       = [Sleep 3; Sleep 3; Sleep 3].
Proof.
  set (env := Examples.upstream_with_unit (fun _ => Got 200%Z)
                (fun _ => Failed "Target closed")).
  set (w0 := log (RandomChoice 1) Examples.one_session).
  assert (G : get_session env 2 Examples.one_session
              = Finished (Return 0%nat) w0) by reflexivity.
  eassert (E : _call_api env 0 "GET" "/c/5" ∅ None
                 (kept_session_token "/c/5" ∅ (Some "tok")) 10 w0
               = Finished (Return (_, InHandler)) _) by reflexivity.
  assert (T : truthy_opt (kept_session_token "/c/5" ∅ (Some "tok")) = true)
    by (vm_compute; reflexivity).
  destruct (retry_after_fault_finds_session_busy
              (ext := Examples.externals) env 2 "GET" "/c/5" ∅ None
              (Some "tok") Examples.one_session 0 w0 "/c/5" _ _
              (mkChatSession true false "") G eq_refl T E eq_refl)
    as (_ & _ & _ & H).
  destruct H as (w' & C & Tr).
  - intros n ss N. exact N.
  - reflexivity.
  - exists w'. split; [exact C|]. rewrite Tr. reflexivity.
Defined.

(** ** [fetch] with cookies, and the readers of a body *)

Lemma set_cookies_answered env cookies :
  (forall k, on_unit env k = Got tt) ->
  forall w,
    set_cookies env cookies w
    = Finished (Return tt)
        (logged (List.map (fun kv => AddCookies (fst kv) (snd kv) (-1)) cookies)
           w).
Proof.
  intros U. induction cookies as [|[k v] cookies IH]; intros w.
  - unfold logged. cbn [set_cookies List.map]. unfold ret.
    rewrite app_nil_r. now destruct w.
  - cbn [set_cookies List.map fst snd]. unfold mbind at 1.
    unfold set_cookie, await. rewrite U. rewrite IH.
    change (log ?c w) with (logged [c] w). now rewrite logged_logged.
Qed.

(** X25.  [fetch] with cookies that are not empty marks the session
    running, sets every cookie with [expires=-1] in the order of the
    dictionary, and then proceeds as without cookies: controller,
    fetch, status, headers.  If Playwright fails to set the first
    cookie, the error leaves [fetch], which has no handler, and the
    session is left running. *)
Theorem fetch_with_cookies env i m u h d cookies to w :
  cookies <> [] ->
  (forall c r st hs,
      (forall k, on_unit env k = Got tt) ->
      on_handle env (length (trace w) + length cookies) = Got c ->
      on_handle env (length (trace w) + length cookies + 1) = Got r ->
      on_status env (length (trace w) + length cookies + 2) = Got st ->
      on_headers env (length (trace w) + length cookies + 3) = Got hs ->
      fetch env i m u h d cookies to w
      = Finished
          (Return
             (mkStreamResponse st hs (Some (JSHandle c)) (Some (JSHandle r)) to,
              JSHandle c))
          (mkWorld (mark_running i true (sessions w)) (cookie_manager w)
             (cookie_file w) (tasks w)
             (trace w
              ++ List.map (fun kv => AddCookies (fst kv) (snd kv) (-1)) cookies
              ++ [NewAbortController;
                  TrackedFetch (JSHandle c) u m h
                    (if truthy_opt d then d else None);
                  EvalStatus (JSHandle r); EvalHeaders (JSHandle r)])))
  /\ (forall msg,
        on_unit env (length (trace w)) = Failed msg ->
        exists w',
          fetch env i m u h d cookies to w
          = Finished (Raise (PlaywrightError msg)) w'
          /\ sessions w' = mark_running i true (sessions w)).
Proof.
  intros N. split.
  - intros c r st hs U C R St H.
    set (w1 := mkWorld (mark_running i true (sessions w)) (cookie_manager w)
                 (cookie_file w) (tasks w) (trace w)).
    set (w2 := logged
                 (List.map (fun kv => AddCookies (fst kv) (snd kv) (-1)) cookies)
                 w1).
    assert (L : length (trace w2) = (length (trace w) + length cookies)%nat).
    { unfold w2. rewrite length_trace_logged, length_map. reflexivity. }
    assert (P : (if negb (Nat.eqb (length cookies) 0)
                 then set_running i true ;;; set_cookies env cookies
                 else ret tt) w
                = Finished (Return tt) w2).
    { destruct cookies as [|kv cookies]; [congruence|]. cbn [length Nat.eqb negb].
      unfold mbind, set_running, update_session.
      fold (mark_running i true (sessions w)). fold w1.
      exact (set_cookies_answered env (kv :: cookies) U w1). }
    rewrite <- L in C, R, St, H.
    pose proof (fetch_answered env i m u h d to w2 c r st hs C R St H) as F.
    unfold fetch in F |- *. cbn [length Nat.eqb negb] in F.
    unfold mbind at 1 in F. unfold ret at 1 in F.
    unfold mbind at 1. rewrite P. rewrite F.
    unfold w2, w1, logged. cbn [sessions cookie_manager cookie_file tasks trace].
    now rewrite <- app_assoc.
  - intros msg F. destruct cookies as [|[k v] cookies]; [congruence|].
    unfold fetch. cbn [length Nat.eqb negb set_cookies].
    unfold mbind, set_running, update_session, set_cookie, await.
    cbn [sessions cookie_manager cookie_file tasks trace]. rewrite F.
    eexists. split; reflexivity.
Qed.

Lemma fetch_with_cookies_witness :
  exists w',
    fetch
      (Examples.upstream_with_unit (fun _ => Got 200%Z)
         (fun _ => Failed "Target closed"))
      0 "GET" "/c/5" ∅ None [("k", "v")] 30 Examples.one_session
    = Finished (Raise (PlaywrightError "Target closed")) w'
    /\ sessions w' = mark_running 0 true (sessions Examples.one_session).
Proof.
  apply (proj2 (fetch_with_cookies
                  (Examples.upstream_with_unit (fun _ => Got 200%Z)
                     (fun _ => Failed "Target closed"))
                  0 "GET" "/c/5" ∅ None [("k", "v")] 30 Examples.one_session
                  ltac:(discriminate))).
  reflexivity.
Defined.

(** X26.  The readers of a body, on a response that has its handle:
    each asks once for the buffer and disposes of nothing; [text] is the
    decoding of the bytes and [json] the parsing of the text, and what
    decoding or parsing raise is raised; a Playwright error is raised
    as it is, and is not turned into a [StreamResponseException] as it
    is while the headers are awaited. *)
Theorem body_readers {ext : Externals} env (self : StreamResponse) r w :
  response self = Some r ->
  (forall bytes,
      on_bytes env (length (trace w)) = Got bytes ->
      read env self w = Finished (Return bytes) (log (ArrayBuffer r) w)
      /\ text env self w = Finished (decode bytes) (log (ArrayBuffer r) w)
      /\ json env self w
         = Finished
             (match decode bytes with
              | Return t => json_loads t
              | Raise e => Raise e
              end)
             (log (ArrayBuffer r) w))
  /\ (forall msg,
        on_bytes env (length (trace w)) = Failed msg ->
        read env self w
        = Finished (Raise (PlaywrightError msg)) (log (ArrayBuffer r) w)
        /\ text env self w
           = Finished (Raise (PlaywrightError msg)) (log (ArrayBuffer r) w)
        /\ json env self w
           = Finished (Raise (PlaywrightError msg)) (log (ArrayBuffer r) w)).
Proof.
  intros R. split.
  - intros bytes B.
    assert (E : read env self w
                = Finished (Return bytes) (log (ArrayBuffer r) w)).
    { unfold read, await. now rewrite R, B. }
    assert (T : text env self w
                = Finished (decode bytes) (log (ArrayBuffer r) w)).
    { unfold text, mbind. rewrite E. now destruct (decode bytes). }
    split; [exact E|]. split; [exact T|].
    unfold json, mbind. rewrite T.
    destruct (decode bytes) as [t|e]; [|reflexivity].
    now destruct (json_loads t).
  - intros msg B.
    assert (E : read env self w
                = Finished (Raise (PlaywrightError msg))
                    (log (ArrayBuffer r) w)).
    { unfold read, await. now rewrite R, B. }
    assert (T : text env self w
                = Finished (Raise (PlaywrightError msg))
                    (log (ArrayBuffer r) w)).
    { unfold text, mbind. now rewrite E. }
    split; [exact E|]. split; [exact T|].
    unfold json, mbind. now rewrite T.
Qed.

Lemma body_readers_witness :
  text (ext := Examples.externals) (upstream_with_body [Byte.x68; Byte.x69])
    (mkStreamResponse 200 ∅ (Some (JSHandle 1)) (Some (JSHandle 2)) 30)
    Examples.one_session
  = Finished (Return "hi") (log (ArrayBuffer (JSHandle 2)) Examples.one_session).
Proof.
  exact (proj1 (proj2 (proj1 (body_readers (ext := Examples.externals)
                                (upstream_with_body [Byte.x68; Byte.x69])
                                (mkStreamResponse 200 ∅ (Some (JSHandle 1))
                                   (Some (JSHandle 2)) 30)
                                (JSHandle 2) Examples.one_session eq_refl)
                         [Byte.x68; Byte.x69] eq_refl))).
Defined.
